(** * Deco 2: a verification model of [index.js]

    The module builds factory functions out of decorators (objects, plain
    functions, classes, other factories).  Everything it does is reading and
    writing JavaScript objects, so the model is a small object store:
    values, property tables, prototype links, function objects, and a state
    and error monad in which the functions of [index.js] are transcribed one
    by one, under their own names. *)

From stdpp Require Import base decidable countable strings gmap list option pretty.
From Stdlib Require Import ZArith Lia.

Local Open Scope string_scope.
Local Open Scope list_scope.

(** ** Values and property keys *)

(** Object identities.  Function objects and ordinary objects are allocated
    from two address spaces, each by a counter. *)
Inductive loc :=
| LObj (n : nat)
| LFun (n : nat).

#[global] Instance loc_eq_dec : EqDecision loc.
Proof. solve_decision. Defined.

#[global] Instance loc_countable : Countable loc.
Proof.
  refine (inj_countable'
            (fun l => match l with LObj n => inl n | LFun n => inr n end)
            (fun x => match x with inl n => LObj n | inr n => LFun n end) _).
  intros []; reflexivity.
Defined.

(** A JavaScript value: the primitives the module can tell apart, and
    references to objects (functions and arrays are objects). *)
Inductive value :=
| VUndefined
| VNull
| VBool (b : bool)
| VNum (z : Z)
| VStr (s : string)
| VRef (l : loc).

#[global] Instance value_eq_dec : EqDecision value.
Proof. solve_decision. Defined.

(** [a === b] on the modelled values. *)
Definition strict_eq (a b : value) : bool := bool_decide (a = b).

(** [!a] is [negb (truthy a)]. *)
Definition truthy (v : value) : bool :=
  match v with
  | VUndefined | VNull => false
  | VBool b => b
  | VNum z => negb (z =? 0)%Z
  | VStr s => negb (String.eqb s "")
  | VRef _ => true
  end.

Definition is_object (v : value) : bool :=
  match v with VRef _ => true | _ => false end.

(** Property keys are strings or symbols. *)
Inductive key :=
| KStr (s : string)
| KSym (n : nat).

#[global] Instance key_eq_dec : EqDecision key.
Proof. solve_decision. Defined.

#[global] Instance key_countable : Countable key.
Proof.
  refine (inj_countable'
            (fun k => match k with KStr s => inl s | KSym n => inr n end)
            (fun x => match x with inl s => KStr s | inr n => KSym n end) _).
  intros []; reflexivity.
Defined.

Coercion KStr : string >-> key.

(** [symbols.isClassWrapper]: the one symbol the module creates. *)
Definition isClassWrapper : key := KSym 0.

(** ** Objects *)

(** A data property: its value and its [enumerable] attribute.  Accessor
    properties are not modelled. *)
Record property := Property { p_value : value; p_enumerable : bool }.

#[global] Instance property_eq_dec : EqDecision property.
Proof. solve_decision. Defined.

Abbreviation table := (gmap key property).

(** What a function object does when it is called.  [CUser] stands for a
    [function] or a [class] written by a caller of the module, which may be
    constructed, and [CMethod] for an arrow function or a method of a
    caller's, which may not; the behaviour of both is given by the
    environment, and [cls] records whether the source text starts with
    [class].  The next six are the closures that [index.js] itself creates,
    with the variables they capture.  The last four are built in: [Object],
    [Function.prototype.apply], [Function.prototype] (a function that
    returns undefined) and, by name, the constructors whose behaviour is not
    modelled ([Function], [Array]). *)
Inductive code :=
| CUser (id : nat) (cls : bool)
| CMethod (id : nat) (cls : bool)
| CDeco
| CFactory
| CFactoryConstructor (factory : value)
| CMembersDefaults (factory : value)
| CStaticsDefaults
| CClassWrapper (decorator : value)
| CObject
| CApply
| CFunctionPrototype
| CNative (name : string).

#[global] Instance code_eq_dec : EqDecision code.
Proof. solve_decision. Defined.

Record object := Object {
  o_proto : value;            (* [[Prototype]]: a reference or null *)
  o_props : table;            (* own properties *)
  o_code : option code;       (* [Some] for functions *)
  o_frozen : bool             (* set by Object.freeze *)
}.

(** The private record Bursary keeps for a factory. *)
Record secret := Secret {
  constructors : list value;  (* an Array, only pushed to and reduced *)
  defaults : value            (* an Object *)
}.

Record store := Store {
  heap : gmap loc object;
  next_obj : nat;             (* the next ordinary object is [LObj next_obj] *)
  next_fun : nat;             (* the next function object is [LFun next_fun] *)
  secrets : gmap loc secret
}.

(** ** The state and error monad *)

Inductive exn :=
| TypeError
| Diverges                    (* a prototype chain longer than the bound *)
| Thrown (v : value)          (* raised by a caller's function *)
| Unmodelled.                 (* a step of a built-in that the model leaves out *)

Inductive outcome (A : Type) :=
| Ok (a : A)
| Throw (e : exn).
Arguments Ok {A} a.
Arguments Throw {A} e.

(** One application [f.apply(receiver, arguments)] performed by the module. *)
Definition call : Type := value * value * list value.

(** A computation returns an outcome, the store it leaves (also when it
    throws), and the applications it performed itself, in order.  The last
    component is a ghost: no definition reads it. *)
Definition M (A : Type) : Type := store -> outcome A * store * list call.

Definition ret {A} (a : A) : M A := fun s => (Ok a, s, []).

Definition throw {A} (e : exn) : M A := fun s => (Throw e, s, []).

Definition bind {A B} (m : M A) (k : A -> M B) : M B :=
  fun s =>
    match m s with
    | (Ok a, s1, t1) =>
        match k a s1 with
        | (r, s2, t2) => (r, s2, t1 ++ t2)
        end
    | (Throw e, s1, t1) => (Throw e, s1, t1)
    end.

Notation "'let!' x ':=' m 'in' k" := (bind m (fun x => k))
  (at level 10, x name, m at level 100, k at level 200).

Notation "m1 '>>' m2" := (bind m1 (fun _ => m2))
  (at level 100, m2 at level 200, right associativity, only parsing).

(** A store read that may throw. *)
Definition lift {A} (f : store -> outcome A) : M A :=
  fun s => (f s, s, []).

Definition modify (f : store -> store) : M unit :=
  fun s => (Ok tt, f s, []).

(** [Array.prototype.map] with a callback that runs in the monad. *)
Fixpoint mapM {A B} (f : A -> M B) (l : list A) : M (list B) :=
  match l with
  | [] => ret []
  | x :: l' => let! y := f x in let! ys := mapM f l' in ret (y :: ys)
  end.

(** [Array.prototype.reduce] with an initial value. *)
Fixpoint reduce {A B} (f : B -> A -> M B) (l : list A) (b : B) : M B :=
  match l with
  | [] => ret b
  | x :: l' => let! b' := f b x in reduce f l' b'
  end.


(** ** Reading the store *)

Definition obj_at (s : store) (v : value) : option object :=
  match v with VRef l => heap s !! l | _ => None end.

Definition own_props (s : store) (v : value) : table :=
  match obj_at s v with Some o => o_props o | None => ∅ end.

(** The own enumerable properties of a value that is an object; nothing for
    the primitives. *)
Definition enumerable_own (s : store) (v : value) : table :=
  filter (fun kp => p_enumerable kp.2 = true) (own_props s v).

(** [typeof a === 'function'] *)
Definition isFunction (s : store) (a : value) : bool :=
  match obj_at s a with
  | Some o => bool_decide (is_Some (o_code o))
  | None => false
  end.

Definition code_of (s : store) (a : value) : option code :=
  match obj_at s a with
  | Some o => o_code o
  | None => None
  end.

(** [a.toString().indexOf('class') === 0] for a function [a] whose [toString]
    is [Function.prototype.toString], which gives the source text of [a]: the
    closures of the module and the built-in functions start with [function],
    a method name or a parenthesis.  The read of [toString] and its call are
    not modelled: a function that has a [toString] of its own, or inherits
    another one (a factory inherits from its method table), is outside the
    model. *)
Definition source_starts_with_class (s : store) (a : value) : bool :=
  match code_of s a with
  | Some (CUser _ cls) | Some (CMethod _ cls) => cls
  | _ => false
  end.

(** The functions that may be constructed: those written with [function] or
    [class], and the built-in constructors.  Arrow functions and methods,
    among them [defaults] and the wrapper of a class, may not. *)
Definition isConstructor (s : store) (a : value) : bool :=
  match code_of s a with
  | Some (CUser _ _ | CDeco | CFactory | CFactoryConstructor _ | CObject | CNative _) => true
  | _ => false
  end.

(** The constructors that run their body on a new object: those that are not
    built in. *)
Definition isOrdinaryConstructor (s : store) (a : value) : bool :=
  match code_of s a with
  | Some (CUser _ _ | CDeco | CFactory | CFactoryConstructor _) => true
  | _ => false
  end.

(** The functions that may be called: all but the classes. *)
Definition isCallable (s : store) (a : value) : bool :=
  match code_of s a with
  | Some (CUser _ true) => false
  | Some _ => true
  | None => false
  end.

(** [Reflect.hasOwnProperty.call(a, k)], for the two keys the module asks
    about ([constructor] and [defaults]): it converts [a] to an object, which
    throws on undefined and null, and finds neither key on a primitive. *)
Definition hasOwnProperty (s : store) (a : value) (k : key) : outcome bool :=
  match a with
  | VUndefined | VNull => Throw TypeError
  | VRef _ => Ok (bool_decide (is_Some (own_props s a !! k)))
  | _ => Ok false
  end.

(** [Reflect.getPrototypeOf(a)] *)
Definition getPrototypeOf (s : store) (a : value) : outcome value :=
  match a with
  | VRef _ => Ok (match obj_at s a with Some o => o_proto o | None => VNull end)
  | _ => Throw TypeError
  end.

(** The property read [a.k] that starts at the object [a] and follows at most
    [n] prototype links. *)
Fixpoint get_from (n : nat) (s : store) (a : value) (k : key) : outcome value :=
  match n with
  | 0 => Throw Diverges
  | S n' =>
      match obj_at s a with
      | Some o =>
          match o_props o !! k with
          | Some p => Ok (p_value p)
          | None => get_from n' s (o_proto o) k
          end
      | None => Ok VUndefined
      end
  end.

(** ** Writing the store *)

Definition set_heap (h : gmap loc object) (s : store) : store :=
  Store h (next_obj s) (next_fun s) (secrets s).

Definition set_secrets (x : gmap loc secret) (s : store) : store :=
  Store (heap s) (next_obj s) (next_fun s) x.

Definition update_object (l : loc) (f : object -> object) (s : store) : store :=
  set_heap (alter f l (heap s)) s.

Definition with_props (f : table -> table) (o : object) : object :=
  Object (o_proto o) (f (o_props o)) (o_code o) (o_frozen o).

(** A new ordinary object. *)
Definition alloc_object (proto : value) (props : table) : M value :=
  fun s =>
    (Ok (VRef (LObj (next_obj s))),
     Store (<[LObj (next_obj s) := Object proto props None false]> (heap s))
           (S (next_obj s)) (next_fun s) (secrets s),
     []).

(** A new function object with the given own properties. *)
Definition alloc_function (proto : value) (props : table) (c : code) : M value :=
  fun s =>
    (Ok (VRef (LFun (next_fun s))),
     Store (<[LFun (next_fun s) := Object proto props (Some c) false]> (heap s))
           (next_obj s) (S (next_fun s)) (secrets s),
     []).

(** The objects that exist when the module is loaded. *)
Definition ObjectPrototype : value := VRef (LObj 0).
Definition FunctionPrototype : value := VRef (LObj 1).
Definition DecoPrototype : value := VRef (LObj 2).
Definition ArrayPrototype : value := VRef (LObj 3).
Definition DecoFunction : value := VRef (LFun 0).
Definition ObjectFunction : value := VRef (LFun 1).
Definition FunctionFunction : value := VRef (LFun 2).
Definition FunctionApply : value := VRef (LFun 3).
Definition ArrayFunction : value := VRef (LFun 4).

(** A [function] expression: the function object and the object its own
    [prototype] property starts with, whose [constructor] is the function.
    The own [length] and [name] of a function are not modelled: they are not
    enumerable, and the module reads neither. *)
Definition function_expression (c : code) : M value :=
  fun s =>
    let f := VRef (LFun (next_fun s)) in
    (let! p := alloc_object ObjectPrototype {[ KStr "constructor" := Property f false ]} in
     alloc_function FunctionPrototype {[ KStr "prototype" := Property p false ]} c) s.

(** A method of an object literal or an arrow function: no [prototype]. *)
Definition method_expression (c : code) : M value :=
  alloc_function FunctionPrototype ∅ c.

(** The assignment [o.k = v] in strict mode, on data properties: an own
    property keeps its attributes, a new one is enumerable, and a frozen
    object or a primitive refuses. *)
Definition set_prop (o : value) (k : key) (v : value) : M unit :=
  fun s =>
    match o with
    | VRef l =>
        match heap s !! l with
        | Some ob =>
            if o_frozen ob then (Throw TypeError, s, [])
            else
              let e := match o_props ob !! k with
                       | Some p => p_enumerable p
                       | None => true
                       end in
              (Ok tt, update_object l (with_props (<[k := Property v e]>)) s, [])
        | None => (Throw TypeError, s, [])
        end
    | _ => (Throw TypeError, s, [])
    end.

(** [Reflect.defineProperty(o, k, { configurable: true, enumerable: e,
    value: v, writable: true })]; the module ignores the boolean it returns,
    which is false on a frozen object. *)
Definition defineProperty (o : value) (k : key) (v : value) (e : bool) : M bool :=
  fun s =>
    match o with
    | VRef l =>
        match heap s !! l with
        | Some ob =>
            if o_frozen ob then (Ok false, s, [])
            else (Ok true, update_object l (with_props (<[k := Property v e]>)) s, [])
        | None => (Throw TypeError, s, [])
        end
    | _ => (Throw TypeError, s, [])
    end.

(** [Reflect.setPrototypeOf(o, proto)].  The check against cycles is left
    out: the module links a function it has just created to a new object. *)
Definition setPrototypeOf (o proto : value) : M bool :=
  fun s =>
    match o, proto with
    | VRef l, (VRef _ | VNull) =>
        match heap s !! l with
        | Some ob =>
            if o_frozen ob then (Ok false, s, [])
            else (Ok true,
                  update_object l (fun ob => Object proto (o_props ob) (o_code ob) (o_frozen ob)) s,
                  [])
        | None => (Throw TypeError, s, [])
        end
    | _, _ => (Throw TypeError, s, [])
    end.

(** [Object.create(proto)] *)
Definition Object_create (proto : value) : M value :=
  match proto with
  | VRef _ | VNull => alloc_object proto ∅
  | _ => throw TypeError
  end.

(** [Object.freeze(o)] *)
Definition Object_freeze (o : value) : M value :=
  fun s =>
    match o with
    | VRef l =>
        (Ok o, update_object l (fun ob => Object (o_proto ob) (o_props ob) (o_code ob) true) s, [])
    | _ => (Ok o, s, [])
    end.

(** The key of the element [i] of an array. *)
Definition index (i : nat) : key := KStr (pretty i).

(** The own properties of an array: its elements under their indices, and
    its [length], which is not enumerable. *)
Definition array_table (xs : list value) : table :=
  <[KStr "length" := Property (VNum (Z.of_nat (length xs))) false]>
    (list_to_map (imap (fun i x => (index i, Property x true)) xs)).

(** A new array. *)
Definition alloc_array (xs : list value) : M value :=
  alloc_object ArrayPrototype (array_table xs).

(** ** The packages the module requires *)

(** [for (const x of l) f(x)] *)
Fixpoint iterM {A} (f : A -> M unit) (l : list A) : M unit :=
  match l with
  | [] => ret tt
  | x :: l' => f x >> iterM f l'
  end.

Definition gets {A} (f : store -> A) : M A := fun s => (Ok (f s), s, []).

(** What assigning [new], a property of a source, does to the property [old]
    of the target under the same key. *)
Definition assign_prop (old new : option property) : option property :=
  match new with
  | Some p =>
      Some (Property (p_value p)
                     (match old with Some q => p_enumerable q | None => true end))
  | None => old
  end.

Definition assign_table (t src : table) : table := merge assign_prop t src.

(** One source of [Assign]. *)
Definition assign_source (target src : value) : M unit :=
  fun s =>
    match target with
    | VRef l =>
        match heap s !! l with
        | Some ob =>
            if o_frozen ob && negb (bool_decide (enumerable_own s src = ∅))
            then (Throw TypeError, s, [])
            else (Ok tt,
                  update_object l (with_props (fun t => assign_table t (enumerable_own s src))) s,
                  [])
        | None => (Ok tt, s, [])
        end
    | _ => (Ok tt, s, [])
    end.

(** Modelled from the spec: [copy-properties/assign], a package that is not
    part of the repository.  The spec describes every merge the module makes
    with it as shallow, additive and won by the later source.  [Assign(target,
    ...sources)] is modelled as [Object.assign]: source by source, in order,
    the own enumerable properties of the source are assigned onto the target;
    a source that is undefined, null or another primitive gives nothing; a
    target that is undefined or null, or that is frozen and would change,
    raises a TypeError; the target is returned. *)
Definition Assign (target : value) (sources : list value) : M value :=
  match target with
  | VUndefined | VNull => throw TypeError
  | _ => iterM (assign_source target) sources >> ret target
  end.

(** Modelled from the spec: [copy-properties/copy], of the same package.
    [Copy(...sources)] assigns the sources onto a new object and returns it:
    [flatten] passes it the most ancestral prototype first, so it cannot be
    writing to its first argument. *)
Definition Copy (sources : list value) : M value :=
  let! o := alloc_object ObjectPrototype ∅ in
  Assign o sources.

(** Modelled from the spec: the private state store, [Bursary({ constructors:
    Array, defaults: Object })], a package that is not part of the repository.
    [secrets(o)] is the record kept for the object [o], made of an empty array
    and an empty object the first time [o] is asked for. *)
Definition secrets_of (o : value) : M secret :=
  fun s =>
    match o with
    | VRef l =>
        match secrets s !! l with
        | Some sec => (Ok sec, s, [])
        | None =>
            (let! d := alloc_object ObjectPrototype ∅ in
             modify (fun s => set_secrets (<[l := Secret [] d]> (secrets s)) s) >>
             ret (Secret [] d)) s
        end
    | _ => (Throw TypeError, s, [])
    end.

(** [secrets(o).constructors.push(...xs)] *)
Definition push_constructors (o : value) (xs : list value) : M unit :=
  match o with
  | VRef l =>
      modify (fun s =>
                set_secrets
                  (alter (fun sec => Secret (constructors sec ++ xs) (defaults sec)) l (secrets s))
                  s)
  | _ => throw TypeError
  end.

(** ** The module *)

Section Module.

(** A bound on the prototype links one property read or one call of [chain]
    may follow; a longer chain ends the read with [Diverges]. *)
Variable depth : nat.

(** The environment: what running the body of a function with a receiver
    and arguments does to the store.  It decides the behaviour of the
    functions written by callers, and of any function the module applies. *)
Variable apply : value -> value -> list value -> store -> outcome value * store.

(** The property read [a.k].  Reads through the wrapper prototypes of
    numbers, strings and booleans are not modelled: they give undefined. *)
Definition get (s : store) (a : value) (k : key) : outcome value :=
  match a with
  | VUndefined | VNull => Throw TypeError
  | VRef _ => get_from depth s a k
  | _ => Ok VUndefined
  end.

(** The body of [f] run with the receiver [this], recorded in the trace. *)
Definition body (f this : value) (arguments : list value) : M value :=
  fun s =>
    match apply f this arguments s with
    | (r, s') => (r, s', [(f, this, arguments)])
    end.

(** The call of [f] with the receiver [this]: a value that is not a
    function and a class, which may only be constructed, raise a TypeError. *)
Definition Call (f this : value) (arguments : list value) : M value :=
  fun s =>
    if isCallable s f then body f this arguments s
    else (Throw TypeError, s, []).

(** [f.apply(o, parameters)]: the read of [apply] on [f], then the call of
    what was read, with [f] as its receiver.  When that is
    [Function.prototype.apply], [f] is called with the receiver [o] and the
    elements of [parameters].  When it is another function (an [apply] of
    [f]'s own, or one [f] inherits), that function is called with [o] and
    the array; the array is made here, where the module passes the one array
    of its rest parameter to every call. *)
Definition invoke (f o : value) (parameters : list value) : M value :=
  let! m := lift (fun s => get s f "apply") in
  let! native := gets (fun s => bool_decide (code_of s m = Some CApply)) in
  if native : bool then Call f o parameters
  else
    let! callable := gets (fun s => isCallable s m) in
    if callable : bool then
      let! a := alloc_array parameters in
      Call m f [o; a]
    else throw TypeError.

(** [Object(value)], the built-in called as a function.  The wrapper object
    of a number, a string or a boolean is not modelled. *)
Definition Object_call (parameters : list value) : M value :=
  match nth 0 parameters VUndefined with
  | VUndefined | VNull => alloc_object ObjectPrototype ∅
  | VRef l => ret (VRef l)
  | _ => throw Unmodelled
  end.

(** [Reflect.construct(target, parameters, newTarget)].  Both [target] and
    [newTarget] must be constructors.  For a function or a class that is not
    a derived class, a new object whose prototype is [newTarget.prototype]
    is the receiver of the body, and is the result unless the body returns an
    object.  The built-in [Object] returns that new object, or what
    [Object(value)] returns when it is its own [newTarget]; the construction
    of the other built-ins is not modelled. *)
Definition construct (target : value) (parameters : list value) (newTarget : value) : M value :=
  let! both := gets (fun s => isConstructor s target && isConstructor s newTarget) in
  if negb both then throw TypeError
  else
    let! c := gets (fun s => code_of s target) in
    match c with
    | Some (CNative _) => throw Unmodelled
    | Some CObject =>
        if strict_eq newTarget target then Object_call parameters
        else
          let! proto := lift (fun s => get s newTarget "prototype") in
          alloc_object (if is_object proto then proto else ObjectPrototype) ∅
    | _ =>
        let! proto := lift (fun s => get s newTarget "prototype") in
        let! o := alloc_object (if is_object proto then proto else ObjectPrototype) ∅ in
        let! r := body target o parameters in
        ret (if is_object r then r else o)
    end.

(** [CreateListFromArrayLike(a)]: the elements of [a] under the indices
    below its [length].  The conversion of a [length] that is a string or an
    object to a number is not modelled. *)
Definition length_of (v : value) : outcome nat :=
  match v with
  | VNum n => Ok (Z.to_nat (Z.min n (2 ^ 53 - 1)))
  | VUndefined | VNull => Ok 0
  | VBool b => Ok (if b then 1 else 0)
  | _ => Throw Unmodelled
  end.

Fixpoint elements_from (s : store) (a : value) (i n : nat) : outcome (list value) :=
  match n with
  | 0 => Ok []
  | S n' =>
      match get s a (index i) with
      | Ok v =>
          match elements_from s a (S i) n' with
          | Ok vs => Ok (v :: vs)
          | Throw e => Throw e
          end
      | Throw e => Throw e
      end
  end.

Definition list_from_array (s : store) (a : value) : outcome (list value) :=
  match a with
  | VRef _ =>
      match get s a "length" with
      | Ok v =>
          match length_of v with
          | Ok n => elements_from s a 0 n
          | Throw e => Throw e
          end
      | Throw e => Throw e
      end
  | _ => Throw TypeError
  end.

(** [Function.prototype.apply], called with the receiver [func] and the
    arguments [(thisArg, argArray)]. *)
Definition Function_apply (func : value) (arguments : list value) : M value :=
  let thisArg := nth 0 arguments VUndefined in
  let argArray := nth 1 arguments VUndefined in
  let! callable := gets (fun s => isFunction s func) in
  if negb callable then throw TypeError
  else
    match argArray with
    | VUndefined | VNull => Call func thisArg []
    | _ =>
        let! args := lift (fun s => list_from_array s argArray) in
        Call func thisArg args
    end.

(** *** Utility functions *)

Fixpoint chain_from (n : nat) (s : store) (prototype : value) : outcome (list value) :=
  if negb (truthy prototype) then Ok []
  else
    match n with
    | 0 => Throw Diverges
    | S n' =>
        match getPrototypeOf s prototype with
        | Ok p =>
            match chain_from n' s p with
            | Ok rest => Ok (prototype :: rest)
            | Throw e => Throw e
            end
        | Throw e => Throw e
        end
    end.

(** Calculate the prototype chain of a given prototype. *)
Definition chain (s : store) (prototype : value) : outcome (list value) :=
  chain_from depth s prototype.

(** Copy all methods from a given prototype's chain into one object. *)
Definition flatten (prototype : value) : M value :=
  let! c := lift (fun s => chain s prototype) in
  Copy (rev c).

(** Check if the given value is a class. *)
Definition isClass (s : store) (a : value) : bool :=
  if negb (isFunction s a) then false
  else if negb (bool_decide (is_Some (own_props s a !! KStr "prototype"))) then false
  else if negb (source_starts_with_class s a) then false
  else true.

(** Set [prototype] property and the actual prototype for the given object. *)
Definition setPrototype (o prototype : value) : M unit :=
  set_prop o "prototype" prototype >>
  let! _ := setPrototypeOf o prototype in
  ret tt.

(** *** Factory private static members *)

(** The callback [concatenateConstructors] maps over the decorators. *)
Definition constructor_of (decorator : value) : M value :=
  let! own := lift (fun s => hasOwnProperty s decorator "constructor") in
  if own : bool then lift (fun s => get s decorator "constructor")
  else
    let! plain := gets (fun s => isFunction s decorator && negb (isClass s decorator)) in
    if plain : bool then
      let! p := lift (fun s => get s decorator "prototype") in
      if negb (truthy p) then ret decorator
      else lift (fun s => get s p "constructor")
    else
      let! cls := gets (fun s => isClass s decorator) in
      if cls : bool then
        let! f := method_expression (CClassWrapper decorator) in
        set_prop f isClassWrapper (VBool true) >>
        ret f
      else ret VUndefined.

(** Constructors that will be applied sequentially to newly created
    instances. *)
Definition concatenateConstructors (factory : value) (decorators : list value) : M unit :=
  let! _ := secrets_of factory in
  let! cs := mapM constructor_of decorators in
  push_constructors factory (List.filter truthy cs).

(** The callback [concatenateDefaults] maps over the decorators. *)
Definition defaults_of (decorator : value) : M value :=
  let! own := lift (fun s => hasOwnProperty s decorator "defaults") in
  if own : bool then lift (fun s => get s decorator "defaults")
  else ret VUndefined.

Definition concatenateDefaults (factory : value) (decorators : list value) : M unit :=
  let! sec := secrets_of factory in
  let! sources := mapM defaults_of decorators in
  let! _ := Assign (defaults sec) sources in
  ret tt.

(** The callback [concatenatePrototypes] maps over the decorators. *)
Definition prototype_of (decorator : value) : M value :=
  let! fn := gets (fun s => isFunction s decorator) in
  if fn : bool then
    let! p := lift (fun s => get s decorator "prototype") in
    flatten p
  else ret decorator.

Definition concatenatePrototypes (factory : value) (decorators : list value) : M unit :=
  let! p := lift (fun s => get s factory "prototype") in
  let! sources := mapM prototype_of decorators in
  let! _ := Assign p sources in
  ret tt.

(** Use assignment based inheritence to mix in members from objects, vanilla
    JavaScript constructors, and/or Deco decorators. *)
Definition concatenate (factory : value) (decorators : list value) : M unit :=
  concatenateConstructors factory decorators >>
  concatenateDefaults factory decorators >>
  concatenatePrototypes factory decorators.

(** [members.constructor]: apply each merged constructor function, one after
    the other. *)
Definition factoryConstructor (factory this : value) (parameters : list value) : M value :=
  let! sec := secrets_of factory in
  reduce (fun o f =>
            let! next := invoke f o parameters in
            if strict_eq next VUndefined then ret o
            else if strict_eq next o then ret o
            else
              let! p := lift (fun s => get s factory "prototype") in
              let! _ := Assign next [p] in
              ret next)
         (constructors sec) this.

(** Create and assign the constructor to the given factory prototype. *)
Definition initialize (factory : value) : M unit :=
  let! constructor := function_expression (CFactoryConstructor factory) in
  let! members_defaults := method_expression (CMembersDefaults factory) in
  let! statics_defaults := method_expression CStaticsDefaults in
  let! p := lift (fun s => get s factory "prototype") in
  let! _ := defineProperty p "constructor" constructor false in
  let! p := lift (fun s => get s factory "prototype") in
  let! _ := defineProperty p "defaults" members_defaults false in
  let! _ := defineProperty factory "defaults" statics_defaults false in
  ret tt.

(** *** Module definition *)

(** [this[key] === factory] for some own key of [this]. *)
Definition holds (s : store) (this factory : value) : bool :=
  bool_decide (map_Exists (fun _ p => p_value p = factory) (own_props s this)).

(** A factory function for creating new instances of the "class". *)
Definition factory (self this : value) (parameters : list value) : M value :=
  let! p := lift (fun s => get s self "prototype") in
  let! f := lift (fun s => get s p "constructor") in
  let create := construct f parameters self in
  if negb (truthy this) then create
  else
    if negb (is_object this) then throw TypeError   (* Reflect.ownKeys(this) *)
    else
      let! contained := gets (fun s => holds s this self) in
      if contained : bool then create
      else
        let! p := lift (fun s => get s self "prototype") in
        let! _ := Assign this [p] in
        invoke f this parameters.

Definition Deco (decorators : list value) : M value :=
  let! factory := function_expression CFactory in
  let! p := Object_create DecoPrototype in
  setPrototype factory p >>
  initialize factory >>
  concatenate factory decorators >>
  let! _ := Object_freeze factory in
  let! p := lift (fun s => get s factory "prototype") in
  let! _ := Object_freeze p in
  ret factory.

(** [members.defaults] *)
Definition members_defaults (factory : value) (updates : list value) : M value :=
  let! sec := secrets_of factory in
  Copy (defaults sec :: updates).

(** [statics.defaults] *)
Definition statics_defaults (this : value) (updates : list value) : M value :=
  let! sec := secrets_of this in
  let! c := Copy (defaults sec :: updates) in
  let! o := alloc_object ObjectPrototype {[ KStr "defaults" := Property c true ]} in
  Deco [this; o].

End Module.

(** ** Closing the environment *)

(** The behaviour of the functions written by callers: [user id this
    parameters] is the body of the function with code [CUser id _] or
    [CMethod id _]. *)
Definition behaviours : Type :=
  nat -> value -> list value -> store -> outcome value * store.

Definition untraced {A} (r : outcome A * store * list call) : outcome A * store :=
  fst r.

(** The body of a function when every function is one of a caller's, a
    closure of the module or built in.  [n] bounds the nesting of
    applications (a factory used as a decorator of a factory, ...); [run 0]
    diverges. *)
Fixpoint run (depth : nat) (user : behaviours) (n : nat)
    (f this : value) (parameters : list value) (s : store) : outcome value * store :=
  match n with
  | 0 => (Throw Diverges, s)
  | S n' =>
      match obj_at s f with
      | Some o =>
          match o_code o with
          | Some (CUser id _) | Some (CMethod id _) => user id this parameters s
          | Some CDeco => untraced (Deco depth parameters s)
          | Some CFactory =>
              untraced (factory depth (run depth user n') f this parameters s)
          | Some (CFactoryConstructor fa) =>
              untraced (factoryConstructor depth (run depth user n') fa this parameters s)
          | Some (CMembersDefaults fa) => untraced (members_defaults fa parameters s)
          | Some CStaticsDefaults => untraced (statics_defaults depth this parameters s)
          | Some (CClassWrapper d) =>
              untraced (construct depth (run depth user n') d parameters d s)
          | Some CObject => untraced (Object_call parameters s)
          | Some CApply =>
              untraced (Function_apply depth (run depth user n') this parameters s)
          | Some CFunctionPrototype => (Ok VUndefined, s)
          | Some (CNative _) => (Throw Unmodelled, s)
          | None => (Throw TypeError, s)
          end
      | None => (Throw TypeError, s)
      end
  end.

(** The store when the module has been loaded: [Object.prototype],
    [Function.prototype], [Array.prototype], the built-in functions [Object],
    [Function], [Function.prototype.apply] and [Array], and [Deco.prototype]
    and [Deco], both frozen.  Of the properties of the built-in prototypes
    the store has those a read of the module can reach through a prototype
    chain without being a call of a built-in method: [constructor] and
    [apply].  The functions [copy], [hidden], [load], [loadFrom], [require]
    and [requireFrom] that [Deco] has as properties are not in the store. *)
Definition loaded : store :=
  Store
    (<[LObj 0 := Object VNull {[ KStr "constructor" := Property ObjectFunction false ]}
                   None false]>
     (<[LObj 1 := Object ObjectPrototype
                    (<[KStr "apply" := Property FunctionApply false]>
                       {[ KStr "constructor" := Property FunctionFunction false ]})
                    (Some CFunctionPrototype) false]>
      (<[LObj 2 := Object FunctionPrototype ∅ None true]>
       (<[LObj 3 := Object ObjectPrototype
                      {[ KStr "constructor" := Property ArrayFunction false ]} None false]>
        (<[LFun 0 := Object DecoPrototype
                       {[ KStr "prototype" := Property DecoPrototype false ]}
                       (Some CDeco) true]>
         (<[LFun 1 := Object FunctionPrototype
                        {[ KStr "prototype" := Property ObjectPrototype false ]}
                        (Some CObject) false]>
          (<[LFun 2 := Object FunctionPrototype
                         {[ KStr "prototype" := Property FunctionPrototype false ]}
                         (Some (CNative "Function")) false]>
           (<[LFun 3 := Object FunctionPrototype ∅ (Some CApply) false]>
            (<[LFun 4 := Object FunctionPrototype
                           {[ KStr "prototype" := Property ArrayPrototype false ]}
                           (Some (CNative "Array")) false]> ∅)))))))))
    4 5 ∅.

(** ** The construction pipeline as a fold *)

Definition outcome_of {A} (r : outcome A * store * list call) : outcome A := r.1.1.
Definition store_of {A} (r : outcome A * store * list call) : store := r.1.2.
Definition trace_of {A} (r : outcome A * store * list call) : list call := r.2.

Definition callee (c : call) : value := c.1.1.
Definition receiver (c : call) : value := c.1.2.
Definition arguments (c : call) : list value := c.2.

Section Pipeline.

Variable depth : nat.
Variable apply : value -> value -> list value -> store -> outcome value * store.

(** The callback [factoryConstructor] reduces the initializers with. *)
Definition pipeline_callback (factory : value) (parameters : list value)
    (o f : value) : M value :=
  let! next := invoke depth apply f o parameters in
  if strict_eq next VUndefined then ret o
  else if strict_eq next o then ret o
  else
    let! p := lift (fun s => get depth s factory "prototype") in
    let! _ := Assign next [p] in
    ret next.

(** One step of the pipeline on a configuration: the accumulator (or the
    error raised so far), the store, and the applications made so far. *)
Definition pipeline_step (factory : value) (parameters : list value)
    (acc : outcome value * store * list call) (f : value) : outcome value * store * list call :=
  match acc with
  | (Throw e, s, t) => (Throw e, s, t)
  | (Ok o, s, t) =>
      match invoke depth apply f o parameters s with
      | (Throw e, s1, t1) => (Throw e, s1, t ++ t1)
      | (Ok next, s1, t1) =>
          if strict_eq next VUndefined then (Ok o, s1, t ++ t1)
          else if strict_eq next o then (Ok o, s1, t ++ t1)
          else
            match get depth s1 factory "prototype" with
            | Throw e => (Throw e, s1, t ++ t1)
            | Ok p =>
                match Assign next [p] s1 with
                | (Ok _, s2, _) => (Ok next, s2, t ++ t1)
                | (Throw e, s2, _) => (Throw e, s2, t ++ t1)
                end
            end
      end
  end.

End Pipeline.


(** ** What the composition reads of a decorator *)

Section Views.

Variable depth : nat.

(** What [constructor_of] returns for a decorator, read off the store:
    [Some v] for the value [v], [None] for a wrapper still to be made. *)
Definition initializer_view (s : store) (decorator : value) : outcome (option value) :=
  match hasOwnProperty s decorator "constructor" with
  | Throw e => Throw e
  | Ok true =>
      match get depth s decorator "constructor" with
      | Ok v => Ok (Some v)
      | Throw e => Throw e
      end
  | Ok false =>
      if isFunction s decorator && negb (isClass s decorator) then
        match get depth s decorator "prototype" with
        | Throw e => Throw e
        | Ok p =>
            if negb (truthy p) then Ok (Some decorator)
            else match get depth s p "constructor" with
                 | Ok v => Ok (Some v)
                 | Throw e => Throw e
                 end
        end
      else if isClass s decorator then Ok None
      else Ok (Some VUndefined)
  end.

(** What [defaults_of] returns for a decorator. *)
Definition defaults_view (s : store) (decorator : value) : outcome value :=
  match hasOwnProperty s decorator "defaults" with
  | Throw e => Throw e
  | Ok true => get depth s decorator "defaults"
  | Ok false => Ok VUndefined
  end.

(** What [prototype_of] gives [Assign] for a decorator: [None] for the
    decorator itself, [Some c] for a copy of the prototype chain [c] still to
    be made. *)
Definition methods_view (s : store) (decorator : value) : outcome (option (list value)) :=
  if isFunction s decorator then
    match get depth s decorator "prototype" with
    | Throw e => Throw e
    | Ok p =>
        match chain depth s p with
        | Throw e => Throw e
        | Ok c => Ok (Some c)
        end
    end
  else Ok None.

End Views.

(** ** Stores the properties are stated with *)

(** The store after a new ordinary object, or a new function object, has
    been allocated. *)
Definition new_object (o : object) (s : store) : store :=
  Store (<[LObj (next_obj s) := o]> (heap s)) (S (next_obj s)) (next_fun s) (secrets s).

Definition new_function (o : object) (s : store) : store :=
  Store (<[LFun (next_fun s) := o]> (heap s)) (next_obj s) (S (next_fun s)) (secrets s).

(** The store after [constructor_of] has wrapped the class [decorator]. *)
Definition wrapped (decorator : value) (s : store) : store :=
  Store
    (<[LFun (next_fun s) :=
         Object FunctionPrototype {[ isClassWrapper := Property (VBool true) true ]}
                (Some (CClassWrapper decorator)) false]> (heap s))
    (next_obj s) (S (next_fun s)) (secrets s).

(** The store after [Reflect.construct] has made the receiver, whose
    prototype is [proto] when that is an object. *)
Definition created (proto : value) (s : store) : store :=
  Store
    (<[LObj (next_obj s) :=
         Object (if is_object proto then proto else ObjectPrototype) ∅ None false]> (heap s))
    (S (next_obj s)) (next_fun s) (secrets s).

(** The store after the tables [tabs] have been assigned, in order, onto the
    object at [l]. *)
Definition assign_store (l : loc) (tabs : list table) (s : store) : store :=
  update_object l (with_props (fun t => fold_left assign_table tabs t)) s.

(** The store after a new object with the own properties [t] has been made
    by [Copy]. *)
Definition copied (t : table) (s : store) : store :=
  Store (<[LObj (next_obj s) := Object ObjectPrototype t None false]> (heap s))
        (S (next_obj s)) (next_fun s) (secrets s).

(** The store after [xs] have been pushed to the initializers kept for [l]. *)
Definition pushed (l : loc) (xs : list value) (s : store) : store :=
  set_secrets (alter (fun sec => Secret (constructors sec ++ xs) (defaults sec)) l (secrets s)) s.

(** Every object of the store was allocated by one of the two counters. *)
Definition allocated (s : store) (l : loc) : Prop :=
  match l with
  | LObj n => n < next_obj s
  | LFun n => n < next_fun s
  end.

#[global] Instance allocated_dec s l : Decision (allocated s l).
Proof. destruct l; simpl; apply _. Defined.

Definition well_formed (s : store) : Prop :=
  (forall l, is_Some (heap s !! l) -> allocated s l)
  /\ (forall l, is_Some (secrets s !! l) -> allocated s l).

(** Since the store [s0], the objects at the locations [kept_objects] and the
    private records at the locations [kept_records] have not changed. *)
Definition unchanged (kept_objects kept_records : loc -> Prop) (s0 s : store) : Prop :=
  next_obj s0 <= next_obj s
  /\ next_fun s0 <= next_fun s
  /\ (forall l, kept_objects l -> heap s !! l = heap s0 !! l)
  /\ (forall l, kept_records l -> secrets s !! l = secrets s0 !! l).

(** [s] extends [s0]: every object and every private record that was
    allocated in [s0] is in [s] what it was in [s0]. *)
Definition extends (s0 s : store) : Prop :=
  unchanged (allocated s0) (allocated s0) s0 s.

(** The entry a key has in the last of the tables that has one. *)
Fixpoint winner (k : key) (tabs : list table) : option property :=
  match tabs with
  | [] => None
  | t :: tabs' =>
      match winner k tabs' with
      | Some p => Some p
      | None => t !! k
      end
  end.

(** A value that is a primitive, or an object of the store. *)
Definition present (s : store) (v : value) : Prop :=
  is_object v = true -> is_Some (obj_at s v).

(** [s] grows into [s']: every object allocated in [s] is in [s'] what it was
    in [s], and every private record of [s] is a private record of [s']. *)
Definition grows (s s' : store) : Prop :=
  next_obj s <= next_obj s'
  /\ next_fun s <= next_fun s'
  /\ (forall l, allocated s l -> heap s' !! l = heap s !! l)
  /\ (forall l sec, secrets s !! l = Some sec -> secrets s' !! l = Some sec).

(** The factory at [lF] is being composed: its private record exists and
    holds the defaults table at [lD], its [prototype] property is the method
    table at [lP], and the two tables are distinct objects that are not
    frozen. *)
Definition composing (lF lD lP : loc) (s : store) : Prop :=
  well_formed s
  /\ (exists sec, secrets s !! lF = Some sec /\ defaults sec = VRef lD)
  /\ (exists oF q, heap s !! lF = Some oF
                   /\ o_props oF !! KStr "prototype" = Some q /\ p_value q = VRef lP)
  /\ (exists oD, heap s !! lD = Some oD /\ o_frozen oD = false)
  /\ (exists oP, heap s !! lP = Some oP /\ o_frozen oP = false)
  /\ lF <> lD /\ lF <> lP /\ lD <> lP.

(** The invariant of a composition that started after the store [s0]. *)
Definition composing_after (kept_objects kept_records : loc -> Prop)
    (s0 : store) (lF lD lP : loc) (s : store) : Prop :=
  unchanged kept_objects kept_records s0 s /\ composing lF lD lP s.

(** The store in which [Deco] starts applying its decorators: the factory
    function, the object its [prototype] property started with, the method
    table, and the three closures [initialize] has installed. *)
Definition prepared (s : store) : store :=
  let factory := VRef (LFun (next_fun s)) in
  let table := VRef (LObj (S (next_obj s))) in
  let constructor := VRef (LFun (S (next_fun s))) in
  let members_defaults := VRef (LFun (S (S (next_fun s)))) in
  let statics_defaults := VRef (LFun (S (S (S (next_fun s))))) in
  Store
    (<[LFun (next_fun s) :=
         Object table
                (<[KStr "defaults" := Property statics_defaults false]>
                   {[ KStr "prototype" := Property table false ]})
                (Some CFactory) false]>
     (<[LObj (next_obj s) :=
          Object ObjectPrototype {[ KStr "constructor" := Property factory false ]} None false]>
      (<[LObj (S (next_obj s)) :=
           Object DecoPrototype
                  (<[KStr "defaults" := Property members_defaults false]>
                     {[ KStr "constructor" := Property constructor false ]})
                  None false]>
       (<[LFun (S (next_fun s)) :=
            Object FunctionPrototype
                   {[ KStr "prototype" := Property (VRef (LObj (S (S (next_obj s))))) false ]}
                   (Some (CFactoryConstructor factory)) false]>
        (<[LObj (S (S (next_obj s))) :=
             Object ObjectPrototype {[ KStr "constructor" := Property constructor false ]}
                    None false]>
         (<[LFun (S (S (next_fun s))) :=
              Object FunctionPrototype ∅ (Some (CMembersDefaults factory)) false]>
          (<[LFun (S (S (S (next_fun s)))) :=
               Object FunctionPrototype ∅ (Some CStaticsDefaults) false]>
           (heap s))))))))
    (S (S (S (next_obj s))))
    (S (S (S (S (next_fun s)))))
    (secrets s).

(** The store after the private record of the new factory has been made, at
    the first [secrets(factory)] of the composition. *)
Definition primed (s : store) : store :=
  set_secrets
    (<[LFun (next_fun s) := Secret [] (VRef (LObj (S (S (S (next_obj s))))))]> (secrets s))
    (new_object (Object ObjectPrototype ∅ None false) (prepared s)).

(** The key [k] has an entry in [t] that is not enumerable. *)
Definition hidden (t : table) (k : key) : Prop :=
  exists v, t !! k = Some (Property v false).

(** The method table at [lP] has the two entries [initialize] defines, and
    neither is enumerable. *)
Definition installed (lP : loc) (s : store) : Prop :=
  hidden (own_props s (VRef lP)) "constructor" /\ hidden (own_props s (VRef lP)) "defaults".

(** The value [v] has no own enumerable [constructor] and no own enumerable
    [defaults]. *)
Definition bare (s : store) (v : value) : Prop :=
  enumerable_own s v !! KStr "constructor" = None
  /\ enumerable_own s v !! KStr "defaults" = None.

(** An environment in which the functions of callers keep a well-formed
    store well formed, leave the frozen objects as they are, give no object an
    own enumerable [constructor] or [defaults], and return no object that has
    one. *)
Definition discreet
    (apply : value -> value -> list value -> store -> outcome value * store) : Prop :=
  forall g this args s r s',
    apply g this args s = (r, s') ->
    well_formed s ->
    well_formed s'
    /\ (forall l ob, heap s !! l = Some ob -> o_frozen ob = true -> heap s' !! l = Some ob)
    /\ (forall v, bare s v -> bare s' v)
    /\ (forall v, r = Ok v -> bare s' v).

(** The store [s] is well formed and has the factory [oF] at [lF] and its
    method table [oP] at [lP]. *)
Definition kept (lF lP : loc) (oF oP : object) (s : store) : Prop :=
  well_formed s /\ heap s !! lF = Some oF /\ heap s !! lP = Some oP.

(** What [Object.freeze] makes of an object. *)
Definition frozen (ob : object) : object :=
  Object (o_proto ob) (o_props ob) (o_code ob) true.

(** The store [Deco()] leaves: nothing has been composed, and the factory
    and its method table are frozen. *)
Definition built (s : store) : store :=
  update_object (LObj (S (next_obj s))) frozen
    (update_object (LFun (next_fun s)) frozen (primed s)).

(** The templates of a single-parent ancestry, the most specific first:
    [p], the prototype of [p], and so on up to the one whose prototype is
    null. *)
Fixpoint ancestry (s : store) (p : value) (ancestors : list value) : Prop :=
  match ancestors with
  | [] => truthy p = false
  | a :: rest =>
      a = p /\ truthy p = true
      /\ exists q, getPrototypeOf s p = Ok q /\ ancestry s q rest
  end.

(** The entry a key has in the first of the tables that has one. *)
Fixpoint nearest (k : key) (tabs : list table) : option property :=
  match tabs with
  | [] => None
  | t :: tabs' =>
      match t !! k with
      | Some p => Some p
      | None => nearest k tabs'
      end
  end.

(** ** The composition, read off the store *)

(** The locations allocated before the counters reached [no] and [nf]. *)
Definition below (no nf : nat) (l : loc) : Prop :=
  match l with
  | LObj n => n < no
  | LFun n => n < nf
  end.

Definition value_below (no nf : nat) (v : value) : Prop :=
  match v with
  | VRef l => below no nf l
  | _ => True
  end.

(** The objects below the two bounds refer to nothing above them. *)
Definition closed_below (no nf : nat) (s : store) : Prop :=
  map_Forall
    (fun l ob =>
       below no nf l ->
       value_below no nf (o_proto ob)
       /\ map_Forall (fun _ q => value_below no nf (p_value q)) (o_props ob))
    (heap s).

#[global] Instance below_dec no nf l : Decision (below no nf l).
Proof. destruct l; simpl; apply _. Defined.

#[global] Instance value_below_dec no nf v : Decision (value_below no nf v).
Proof. destruct v; simpl; apply _. Defined.

#[global] Instance closed_below_dec no nf s : Decision (closed_below no nf s).
Proof. unfold closed_below. apply _. Defined.

(** The store [s] has the objects of [r] below the two bounds. *)
Definition agree_below (no nf : nat) (r s : store) : Prop :=
  forall l, below no nf l -> heap s !! l = heap r !! l.

(** The store [s] has the objects of [r] below the two bounds, and allocates
    above them. *)
Definition stable (no nf : nat) (r s : store) : Prop :=
  agree_below no nf r s /\ no <= next_obj s /\ nf <= next_fun s.

(** The store after the classes [ws] have been wrapped, in order, and the
    store after the tables [ts] have been copied, in order. *)
Definition wrap_all (ws : list value) (s : store) : store :=
  fold_left (fun st d => wrapped d st) ws s.

Definition copy_all (ts : list table) (s : store) : store :=
  fold_left (fun st t => copied t st) ts s.

(** The table [flatten] makes of the chain [c]. *)
Definition flattened (r : store) (c : list value) : table :=
  fold_left assign_table (map (enumerable_own r) (rev c)) ∅.

Section Phases.

Variable depth : nat.

(** What [concatenateConstructors] maps the decorators to, one value for each
    decorator in the order of the decorators, when the next function is
    allocated at [nf]; and the classes it wraps. *)
Fixpoint initializers_at (r : store) (ds : list value) (nf : nat)
    : outcome (list value * list value) :=
  match ds with
  | [] => Ok ([], [])
  | d :: ds' =>
      match initializer_view depth r d with
      | Throw e => Throw e
      | Ok (Some v) =>
          match initializers_at r ds' nf with
          | Ok (cs, ws) => Ok (v :: cs, ws)
          | Throw e => Throw e
          end
      | Ok None =>
          match initializers_at r ds' (S nf) with
          | Ok (cs, ws) => Ok (VRef (LFun nf) :: cs, d :: ws)
          | Throw e => Throw e
          end
      end
  end.

(** What [concatenateDefaults] maps the decorators to. *)
Fixpoint defaults_at (r : store) (ds : list value) : outcome (list value) :=
  match ds with
  | [] => Ok []
  | d :: ds' =>
      match defaults_view depth r d with
      | Throw e => Throw e
      | Ok v =>
          match defaults_at r ds' with
          | Ok vs => Ok (v :: vs)
          | Throw e => Throw e
          end
      end
  end.

(** The tables [concatenatePrototypes] assigns onto the method table, one for
    each decorator in the order of the decorators; and the tables among them
    that are copies it makes. *)
Fixpoint methods_at (r : store) (ds : list value) : outcome (list table * list table) :=
  match ds with
  | [] => Ok ([], [])
  | d :: ds' =>
      match methods_view depth r d with
      | Throw e => Throw e
      | Ok None =>
          match methods_at r ds' with
          | Ok (tabs, ts) => Ok (enumerable_own r d :: tabs, ts)
          | Throw e => Throw e
          end
      | Ok (Some c) =>
          match methods_at r ds' with
          | Ok (tabs, ts) => Ok (flattened r c :: tabs, flattened r c :: ts)
          | Throw e => Throw e
          end
      end
  end.

End Phases.

(** The store a composition leaves: the classes [ws] wrapped, the
    initializers [xs] pushed to the list of the factory at [lF], the tables
    [dt] assigned onto the defaults table at [lD], the tables [ts] copied and
    the tables [pt] assigned onto the method table at [lP]. *)
Definition composed (lF lD lP : loc) (ws : list value) (xs : list value)
    (dt ts pt : list table) (s : store) : store :=
  assign_store lP pt (copy_all ts (assign_store lD dt (pushed lF xs (wrap_all ws s)))).

(** ** Loading decorators from a directory *)

(** The files [Deco.requireFrom] does not skip. *)
Definition notIndex (file : string) : bool :=
  if bool_decide (file = "index.js") then false
  else if bool_decide (file = "index.json") then false
  else if bool_decide (file = "index.node") then false
  else true.

Section Loading.

(** The environment: [Fs.readdirSync], [Path.resolve] and [require]. *)
Variable readdirSync : string -> M (list string).
Variable resolve : string -> string -> string.
Variable require : string -> M value.

(** Require a directory, optionally specify names/order of the files to be
    loaded.  The files are given as strings. *)
Definition requireFrom (directory : string) (files : list string) : M (list value) :=
  let! files :=
    if bool_decide (length files = 0)
    then let! names := readdirSync directory in ret (files ++ names)
    else ret files in
  mapM (fun file => require (resolve directory file)) (List.filter notIndex files).

(** Load and apply decorators from a directory. *)
Definition loadFrom (depth : nat) (directory : string) (files : list string) : M value :=
  let! decorators := requireFrom directory files in
  Deco depth decorators.

End Loading.

(** ** A world of examples *)

Module Demo.

(** The argument at position [i], undefined when the call has fewer. *)
Definition argument (i : nat) (parameters : list value) : value :=
  nth i parameters VUndefined.

(** Functions a caller might write:
    - 0: [function () { this.genre = 'reggae' }]
    - 1: [function (options) { return { wrapper: options } }]
    - 2: [function (options) { this.seen = options }]
    - 3: [function (options, second) { this.second = second }]
    - 4: [class { constructor (artist) { this.artist = artist } }]
    - any other: [function () {}] *)
Definition user : behaviours :=
  fun id this parameters s =>
    match id with
    | 0 => untraced ((set_prop this "genre" (VStr "reggae") >> ret VUndefined) s)
    | 1 => untraced (alloc_object ObjectPrototype
                       {[ KStr "wrapper" := Property (argument 0 parameters) true ]} s)
    | 2 => untraced ((set_prop this "seen" (argument 0 parameters) >> ret VUndefined) s)
    | 3 => untraced ((set_prop this "second" (argument 1 parameters) >> ret VUndefined) s)
    | 4 => untraced ((set_prop this "artist" (argument 0 parameters) >> ret VUndefined) s)
    | _ => (Ok VUndefined, s)
    end.

Definition depth : nat := 8.

(** Function application in this world. *)
Definition apply : value -> value -> list value -> store -> outcome value * store :=
  run depth user 6.

(** [function ...] written by a caller. *)
Definition a_function (id : nat) : M value := function_expression (CUser id false).

(** [class ...] written by a caller. *)
Definition a_class (id : nat) : M value := function_expression (CUser id true).

(** An arrow function or a method written by a caller. *)
Definition a_method (id : nat) : M value := method_expression (CMethod id false).

(** An object literal. *)
Definition an_object (props : list (string * value)) : M value :=
  alloc_object ObjectPrototype
    (list_to_map (map (fun kv => (KStr kv.1, Property kv.2 true)) props)).

(** [Function.prototype.call]: [f.call(this, ...parameters)]. *)
Definition called (f this : value) (parameters : list value) : M value :=
  fun s => (apply f this parameters s, []).

(** [Deco(wrap, note)] for the functions 1 and 2 above, and an object of
    the caller's to run the pipeline on. *)
Definition wrap_then_note : M (value * value * value * value) :=
  let! wrap := a_function 1 in
  let! note := a_function 2 in
  let! f := Deco depth [wrap; note] in
  let! o := an_object [] in
  ret (f, wrap, note, o).

(** [Deco(genre)] for the function 0 above. *)
Definition reggae : M value :=
  let! genre := a_function 0 in
  Deco depth [genre].

(** The store [Deco(genre)] leaves, and the objects it has made: the
    factory, its method table and the method table's [constructor]. *)
Definition reggae_store : store := store_of (reggae loaded).
Definition reggae_factory : value := VRef (LFun 6).
Definition reggae_prototype : value := VRef (LObj 6).
Definition reggae_constructor : value := VRef (LFun 7).

(** [Deco({ constructor () {} })()]: a decorator whose initializer is a
    method, and a plain call of the factory. *)
Definition literal_call : M value :=
  let! m := a_method 5 in
  let! d := an_object [("constructor", m)] in
  let! f := Deco depth [d] in
  called f VUndefined [].

(** [Deco(second)] for the function 3 above. *)
Definition second_argument : M (value * value * value) :=
  let! second := a_function 3 in
  let! f := Deco depth [second] in
  let! o := an_object [] in
  ret (f, second, o).

(** [Deco()], and two objects to merge into its defaults:
    [{ genre: 'reggae', artist: 'midnite' }] and
    [{ label: 'gargamel records', artist: 'lutan fyah' }]. *)
Definition plain_factory : M (value * value * value) :=
  let! f := Deco depth [] in
  let! a := an_object [("genre", VStr "reggae"); ("artist", VStr "midnite")] in
  let! b := an_object [("label", VStr "gargamel records"); ("artist", VStr "lutan fyah")] in
  ret (f, a, b).

Definition plain_store : store := store_of (plain_factory loaded).
Definition plain : value := VRef (LFun 5).
Definition midnite : value := VRef (LObj 8).
Definition lutan_fyah : value := VRef (LObj 9).

(** [f.prototype.defaults(a); f.prototype.defaults(b)], both results. *)
Definition two_merges : M (value * value) :=
  let! p := lift (fun s => get depth s plain "prototype") in
  let! defaults := lift (fun s => get depth s p "defaults") in
  let! r1 := called defaults p [midnite] in
  let! r2 := called defaults p [lutan_fyah] in
  ret (r1, r2).

(** [f.defaults(a)] *)
Definition static_merge : M value :=
  let! defaults := lift (fun s => get depth s plain "defaults") in
  called defaults plain [midnite].

(** The array [['barron von beluga']]: its element under the index 0, and
    its [length], which is not enumerable. *)
Definition an_array : M value :=
  alloc_array [VStr "barron von beluga"].

(** [Deco(['barron von beluga'])] *)
Definition array_factory : M value :=
  let! a := an_array in
  Deco depth [a].

(** The store in which [Deco(['barron von beluga'])] starts composing. *)
Definition array_store : store := primed (store_of (an_array loaded)).

(** [function Player () {}] whose [prototype] has been given the prototype
    [{ play: 'base play', stop: 'base stop' }] and the entry
    [play: 'child play']. *)
Definition a_chain : M value :=
  let! base := an_object [("play", VStr "base play"); ("stop", VStr "base stop")] in
  let! f := a_function 5 in
  let! child := lift (fun s => get depth s f "prototype") in
  let! _ := setPrototypeOf child base in
  set_prop child "play" (VStr "child play") >>
  ret f.

Definition player : value := VRef (LFun 5).
Definition child : value := VRef (LObj 5).
Definition base : value := VRef (LObj 4).

(** [Deco(Player)()], and then [Player.prototype.play = 'late play'] with
    the instance in hand. *)
Definition late_change : M value :=
  let! player := a_chain in
  let! f := Deco depth [player] in
  let! o := called f VUndefined [] in
  let! p := lift (fun s => get depth s player "prototype") in
  set_prop p "play" (VStr "late play") >>
  ret o.

(** [Deco(Artist)('midnite')] for the class 4 above, and then
    [Artist.prototype.late = 'late'] with the instance in hand: the
    instance and the method table of the factory. *)
Definition late_class_change : M (value * value) :=
  let! artist := a_class 4 in
  let! f := Deco depth [artist] in
  let! o := called f VUndefined [VStr "midnite"] in
  let! p := lift (fun s => get depth s artist "prototype") in
  let! q := lift (fun s => get depth s f "prototype") in
  set_prop p "late" (VStr "late") >>
  ret (o, q).

(** [Object.create(base, { play: { value: 'child play' } })] for the base
    [{ play: 'base play' }], and its flattening: the own [play] of the
    child is not enumerable. *)
Definition hidden_play : M (value * value) :=
  let! base := an_object [("play", VStr "base play")] in
  let! child := alloc_object base {[ KStr "play" := Property (VStr "child play") false ]} in
  let! t := flatten depth child in
  ret (child, t).

(** [function () { this.genre = 'reggae' }], [class { constructor (artist)
    { this.artist = artist } }] and
    [{ defaults: { label: 'gargamel records' }, play: 'play' }]. *)
Definition mixed : M (value * value * value) :=
  let! genre := a_function 0 in
  let! artist := a_class 4 in
  let! d := an_object [("label", VStr "gargamel records")] in
  let! o := an_object [("defaults", d); ("play", VStr "play")] in
  ret (genre, artist, o).

Definition genre : value := VRef (LFun 5).
Definition artist : value := VRef (LFun 6).
Definition record : value := VRef (LObj 7).

(** The store in which a [Deco] given these starts composing: its factory is
    the function 7, its defaults table the object 11 and its method table the
    object 9. *)
Definition mixed_store : store := primed (store_of (mixed loaded)).

(** An environment in which the body of every function is that of
    [function () { this.genre = 'reggae' }]. *)
Definition all_genre : value -> value -> list value -> store -> outcome value * store :=
  fun _ this _ s => untraced ((set_prop this "genre" (VStr "reggae") >> ret VUndefined) s).

(** The functions of [user], but for the function 1, which is now
    [function () { throw 'no' }]. *)
Definition refusing : behaviours :=
  fun id this parameters s =>
    match id with
    | 1 => (Throw (Thrown (VStr "no")), s)
    | _ => user id this parameters s
    end.

End Demo.
(** * Properties *)

(** ** The monad *)

Lemma bind_ret_l {A B} (a : A) (k : A -> M B) s : bind (ret a) k s = k a s.
Proof. unfold bind, ret. destruct (k a s) as [[r s2] t2]. reflexivity. Qed.

Lemma iterM_trace {A} (f : A -> M unit) (l : list A) s :
  (forall x s, trace_of (f x s) = []) -> trace_of (iterM f l s) = [].
Proof.
  intros Hf. revert s. induction l as [|x l IH]; intros s; simpl; [reflexivity|].
  unfold bind. specialize (Hf x s). destruct (f x s) as [[[u|e] s1] t1]; simpl in *; subst.
  - specialize (IH s1). destruct (iterM f l s1) as [[r s2] t2]. simpl in *. subst. reflexivity.
  - reflexivity.
Qed.

Lemma assign_source_trace target src s : trace_of (assign_source target src s) = [].
Proof.
  unfold assign_source. destruct target; try reflexivity.
  destruct (heap s !! l); [|reflexivity].
  destruct (o_frozen o && _); reflexivity.
Qed.

Lemma Assign_trace target sources s : trace_of (Assign target sources s) = [].
Proof.
  assert (H : trace_of (iterM (assign_source target) sources s) = [])
    by (apply iterM_trace; intros; apply assign_source_trace).
  unfold Assign, bind, ret, throw.
  destruct target; try reflexivity;
    destruct (iterM _ sources s) as [[[u|e] s1] t1]; simpl in *; subst; reflexivity.
Qed.

Lemma bind_ok {A B} (m : M A) (k : A -> M B) s a s1 t1 :
  m s = (Ok a, s1, t1) ->
  bind m k s = (outcome_of (k a s1), store_of (k a s1), t1 ++ trace_of (k a s1)).
Proof.
  intros H. unfold bind, outcome_of, store_of, trace_of. rewrite H.
  destruct (k a s1) as [[r s2] t2]. reflexivity.
Qed.

Lemma bind_throw {A B} (m : M A) (k : A -> M B) s e s1 t1 :
  m s = (Throw e, s1, t1) -> bind m k s = (Throw e, s1, t1).
Proof. intros H. unfold bind. rewrite H. reflexivity. Qed.

Lemma triple_eta {A} (r : outcome A * store * list call) :
  r = (outcome_of r, store_of r, trace_of r).
Proof. destruct r as [[? ?] ?]. reflexivity. Qed.

Section PipelineFacts.

Variable depth : nat.
Variable apply : value -> value -> list value -> store -> outcome value * store.

Lemma pipeline_step_throw factory parameters fs e s t :
  fold_left (pipeline_step depth apply factory parameters) fs (Throw e, s, t) = (Throw e, s, t).
Proof. induction fs as [|f fs IH]; simpl; [reflexivity | exact IH]. Qed.

Lemma pipeline_callback_step factory parameters o f s t :
  pipeline_step depth apply factory parameters (Ok o, s, t) f
  = (outcome_of (pipeline_callback depth apply factory parameters o f s),
     store_of (pipeline_callback depth apply factory parameters o f s),
     t ++ trace_of (pipeline_callback depth apply factory parameters o f s)).
Proof.
  unfold pipeline_step, pipeline_callback.
  destruct (invoke depth apply f o parameters s) as [[[next|e] s1] t1] eqn:Hinv.
  - rewrite (bind_ok _ _ _ _ _ _ Hinv).
    destruct (strict_eq next VUndefined); [unfold ret; simpl; rewrite app_nil_r; reflexivity|].
    destruct (strict_eq next o); [unfold ret; simpl; rewrite app_nil_r; reflexivity|].
    destruct (get depth s1 factory "prototype") as [p|e] eqn:Hg.
    + assert (Hl : lift (fun s => get depth s factory "prototype") s1 = (Ok p, s1, []))
        by (unfold lift; rewrite Hg; reflexivity).
      rewrite (bind_ok _ _ _ _ _ _ Hl).
      pose proof (Assign_trace next [p] s1) as Ht.
      destruct (Assign next [p] s1) as [[[u|e] s2] t2] eqn:Ha;
        unfold trace_of in Ht; simpl in Ht; subst t2.
      * rewrite (bind_ok _ _ _ _ _ _ Ha). unfold ret, outcome_of, store_of, trace_of. simpl.
        rewrite app_nil_r. reflexivity.
      * rewrite (bind_throw _ _ _ _ _ _ Ha). unfold outcome_of, store_of, trace_of. simpl.
        rewrite app_nil_r. reflexivity.
    + assert (Hl : lift (fun s => get depth s factory "prototype") s1 = (Throw e, s1, []))
        by (unfold lift; rewrite Hg; reflexivity).
      rewrite (bind_throw _ _ _ _ _ _ Hl). unfold outcome_of, store_of, trace_of. simpl.
      rewrite app_nil_r. reflexivity.
  - rewrite (bind_throw _ _ _ _ _ _ Hinv). reflexivity.
Qed.

(** [reduce] with the callback of [factoryConstructor] is the left fold of
    [pipeline_step]. *)
Lemma reduce_pipeline factory parameters fs : forall o s t,
  (outcome_of (reduce (pipeline_callback depth apply factory parameters) fs o s),
   store_of (reduce (pipeline_callback depth apply factory parameters) fs o s),
   t ++ trace_of (reduce (pipeline_callback depth apply factory parameters) fs o s))
  = fold_left (pipeline_step depth apply factory parameters) fs (Ok o, s, t).
Proof.
  induction fs as [|f fs IH]; intros o s t; cbn [fold_left reduce].
  - unfold ret, outcome_of, store_of, trace_of. simpl. rewrite app_nil_r. reflexivity.
  - rewrite pipeline_callback_step.
    destruct (pipeline_callback depth apply factory parameters o f s) as [[[o'|e] s1] t1] eqn:Hcb.
    + rewrite (bind_ok _ _ _ _ _ _ Hcb). unfold outcome_of, store_of, trace_of. simpl.
      rewrite <- IH. unfold outcome_of, store_of, trace_of. simpl.
      rewrite app_assoc. reflexivity.
    + rewrite (bind_throw _ _ _ _ _ _ Hcb). unfold outcome_of, store_of, trace_of. simpl.
      rewrite pipeline_step_throw. reflexivity.
Qed.

End PipelineFacts.

(** ** C1: the construction pipeline *)

Section C1.

Variable depth : nat.
Variable apply : value -> value -> list value -> store -> outcome value * store.

Lemma secrets_of_trace o s : trace_of (secrets_of o s) = [].
Proof.
  unfold secrets_of. destruct o; try reflexivity.
  destruct (secrets s !! l); reflexivity.
Qed.

Lemma factoryConstructor_fold factory this parameters s :
  factoryConstructor depth apply factory this parameters s =
  match secrets_of factory s with
  | (Ok sec, s0, _) =>
      fold_left (pipeline_step depth apply factory parameters) (constructors sec) (Ok this, s0, [])
  | (Throw e, s0, _) => (Throw e, s0, [])
  end.
Proof.
  unfold factoryConstructor.
  pose proof (secrets_of_trace factory s) as Ht.
  destruct (secrets_of factory s) as [[[sec|e] s0] t0] eqn:Hs; unfold trace_of in Ht; simpl in Ht; subst t0.
  - rewrite (bind_ok _ _ _ _ _ _ Hs).
    rewrite <- (reduce_pipeline depth apply factory parameters (constructors sec) this s0 []).
    reflexivity.
  - rewrite (bind_throw _ _ _ _ _ _ Hs). reflexivity.
Qed.

(** [f.apply(o, parameters)] for a function [f] that may be called and whose
    [apply] is [Function.prototype.apply]: the body of [f] is run. *)
Lemma invoke_native f o parameters s m :
  get depth s f "apply" = Ok m ->
  code_of s m = Some CApply ->
  isCallable s f = true ->
  invoke depth apply f o parameters s = body apply f o parameters s.
Proof.
  intros Hm Hc Hf. unfold invoke.
  assert (Hl : lift (fun s => get depth s f "apply") s = (Ok m, s, []))
    by (unfold lift; rewrite Hm; reflexivity).
  unfold bind at 1. rewrite Hl. unfold gets at 1, bind at 1. rewrite Hc.
  rewrite (bool_decide_eq_true_2 _ eq_refl).
  unfold Call. rewrite Hf. destruct (body apply f o parameters s) as [[r s'] t]. reflexivity.
Qed.

Lemma pipeline_step_cases factory parameters f o s t m next s1 :
  get depth s f "apply" = Ok m ->
  code_of s m = Some CApply ->
  isCallable s f = true ->
  apply f o parameters s = (Ok next, s1) ->
  (next = VUndefined \/ next = o ->
   pipeline_step depth apply factory parameters (Ok o, s, t) f
   = (Ok o, s1, t ++ [(f, o, parameters)])) /\
  (next <> VUndefined -> next <> o ->
   forall p, get depth s1 factory "prototype" = Ok p ->
   pipeline_step depth apply factory parameters (Ok o, s, t) f
   = (match outcome_of (Assign next [p] s1) with
      | Ok _ => Ok next
      | Throw e => Throw e
      end,
      store_of (Assign next [p] s1),
      t ++ [(f, o, parameters)])).
Proof.
  intros Hm Hc Hf Ha. unfold pipeline_step.
  rewrite (invoke_native _ _ _ _ _ Hm Hc Hf). unfold body. rewrite Ha. split.
  - intros [->| ->].
    + reflexivity.
    + unfold strict_eq. rewrite (bool_decide_eq_true_2 _ eq_refl).
      destruct (bool_decide (o = VUndefined)); reflexivity.
  - intros Hu Ho p Hp. unfold strict_eq.
    rewrite (bool_decide_eq_false_2 _ Hu), (bool_decide_eq_false_2 _ Ho), Hp.
    unfold outcome_of, store_of. destruct (Assign next [p] s1) as [[[u|e] s2] t2]; reflexivity.
Qed.

(** What the construction pipeline does (C1).  [factoryConstructor] is a left
    fold over the registered initializers, in registration order, starting
    from the receiver.  An initializer that may be called and whose [apply] is
    [Function.prototype.apply] is run with the accumulator as its receiver and
    the caller's parameters as its arguments.  When it returns undefined or
    the accumulator itself, the accumulator stays; when it returns any other
    value, the method table ([factory.prototype]) is assigned onto that value
    and it becomes the accumulator, that is the receiver of the initializers
    after it, whose arguments are still the caller's parameters. *)
Lemma pipeline_is_a_left_fold_over_the_receiver :
  forall (factory this : value) (parameters : list value) (s : store),
    factoryConstructor depth apply factory this parameters s =
    match secrets_of factory s with
    | (Ok sec, s0, _) =>
        fold_left (pipeline_step depth apply factory parameters)
                  (constructors sec) (Ok this, s0, [])
    | (Throw e, s0, _) => (Throw e, s0, [])
    end
    /\
    (forall f o s t m next s1,
        get depth s f "apply" = Ok m ->
        code_of s m = Some CApply ->
        isCallable s f = true ->
        apply f o parameters s = (Ok next, s1) ->
        (next = VUndefined \/ next = o ->
         pipeline_step depth apply factory parameters (Ok o, s, t) f
         = (Ok o, s1, t ++ [(f, o, parameters)])) /\
        (next <> VUndefined -> next <> o ->
         forall p, get depth s1 factory "prototype" = Ok p ->
         pipeline_step depth apply factory parameters (Ok o, s, t) f
         = (match outcome_of (Assign next [p] s1) with
            | Ok _ => Ok next
            | Throw e => Throw e
            end,
            store_of (Assign next [p] s1),
            t ++ [(f, o, parameters)]))).
Proof.
  intros factory this parameters s. split.
  - apply factoryConstructor_fold.
  - intros. eapply pipeline_step_cases; eassumption.
Qed.

End C1.

(** C1 on the decorators of the test 'should allow a decorator to overwrite
    options for the rest of the chain': [Deco(wrap, note)] run on the
    parameters [['ping']].  [wrap] returns a new object, which becomes the
    accumulator; [note], the initializer after it, is applied with that
    object as its receiver and still with ['ping'] as its options argument,
    where the spec and the test have it see the returned value as its
    options. *)
Example returned_value_is_not_the_new_options :
  match Demo.wrap_then_note loaded with
  | (Ok (f, wrap, note, o), s, _) =>
      exists next,
        factoryConstructor Demo.depth Demo.apply f o [VStr "ping"] s
        = (Ok next, store_of (factoryConstructor Demo.depth Demo.apply f o [VStr "ping"] s),
           [(wrap, o, [VStr "ping"]); (note, next, [VStr "ping"])])
        /\ next <> VStr "ping"
        /\ own_props (store_of (factoryConstructor Demo.depth Demo.apply f o [VStr "ping"] s)) next
             !! KStr "seen" = Some (Property (VStr "ping") true)
  | _ => False
  end.
Proof.
  vm_compute. eexists. split; [reflexivity|]. split; [discriminate|reflexivity].
Qed.

(** ** C2: what an initializer is applied to *)

(** C2 on the test 'should support protected instance members':
    [Deco(second)] run on the parameters [['ping']].  The initializer is
    applied to the one argument ['ping']: it has no second argument, where
    the spec and the test have a scratch object, and what it reads as its
    second parameter is undefined. *)
Example no_protected_argument :
  match Demo.second_argument loaded with
  | (Ok (f, second, o), s, _) =>
      factoryConstructor Demo.depth Demo.apply f o [VStr "ping"] s
      = (Ok o, store_of (factoryConstructor Demo.depth Demo.apply f o [VStr "ping"] s),
         [(second, o, [VStr "ping"])])
      /\ own_props (store_of (factoryConstructor Demo.depth Demo.apply f o [VStr "ping"] s)) o
           !! KStr "second" = Some (Property VUndefined true)
  | _ => False
  end.
Proof. vm_compute. split; reflexivity. Qed.

(** ** Stepping through a computation *)

Lemma bind_ok_nil {A B} (m : M A) (k : A -> M B) s a s1 :
  m s = (Ok a, s1, []) -> bind m k s = k a s1.
Proof. intros H. unfold bind. rewrite H. destruct (k a s1) as [[r s2] t2]. reflexivity. Qed.

Lemma bind_lift_ok {A B} (f : store -> outcome A) (k : A -> M B) s a :
  f s = Ok a -> bind (lift f) k s = k a s.
Proof. intros H. apply bind_ok_nil. unfold lift. rewrite H. reflexivity. Qed.

Lemma bind_lift_throw {A B} (f : store -> outcome A) (k : A -> M B) s e :
  f s = Throw e -> bind (lift f) k s = (Throw e, s, []).
Proof. intros H. apply bind_throw. unfold lift. rewrite H. reflexivity. Qed.

Lemma bind_gets {A B} (f : store -> A) (k : A -> M B) s :
  bind (gets f) k s = k (f s) s.
Proof. apply bind_ok_nil. reflexivity. Qed.

Lemma get_own depth s a k p :
  own_props s a !! k = Some p -> get (S depth) s a k = Ok (p_value p).
Proof.
  unfold own_props, get. destruct a; simpl; try (rewrite lookup_empty; discriminate).
  destruct (heap s !! l) as [o|]; [|rewrite lookup_empty; discriminate].
  intros ->. reflexivity.
Qed.

Lemma own_props_is_object s a k p : own_props s a !! k = Some p -> exists l, a = VRef l.
Proof.
  unfold own_props. destruct a; simpl; try (rewrite lookup_empty; discriminate). eauto.
Qed.

Lemma hasOwnProperty_true s a k p :
  own_props s a !! k = Some p -> hasOwnProperty s a k = Ok true.
Proof.
  intros H. destruct (own_props_is_object _ _ _ _ H) as [l ->].
  unfold hasOwnProperty. rewrite H. reflexivity.
Qed.

Lemma hasOwnProperty_false s a k :
  a <> VUndefined -> a <> VNull -> own_props s a !! k = None -> hasOwnProperty s a k = Ok false.
Proof.
  intros Hu Hn H. unfold hasOwnProperty. destruct a; try congruence; try reflexivity.
  rewrite H. reflexivity.
Qed.

Lemma isFunction_not_nullish s a : isFunction s a = true -> a <> VUndefined /\ a <> VNull.
Proof. destruct a; simpl; try discriminate. split; discriminate. Qed.

Lemma isClass_isFunction s a : isClass s a = true -> isFunction s a = true.
Proof. unfold isClass. destruct (isFunction s a); [reflexivity | discriminate]. Qed.

(** ** C5: the initializer a decorator gives *)

Lemma constructor_of_class depth s decorator :
  own_props s decorator !! KStr "constructor" = None ->
  isClass s decorator = true ->
  constructor_of depth decorator s = (Ok (VRef (LFun (next_fun s))), wrapped decorator s, []).
Proof.
  intros Hown Hcls. pose proof (isClass_isFunction _ _ Hcls) as Hfn.
  destruct (isFunction_not_nullish _ _ Hfn) as [Hu Hn].
  unfold constructor_of.
  rewrite (bind_lift_ok _ _ _ _ (hasOwnProperty_false _ _ _ Hu Hn Hown)).
  rewrite bind_gets, Hcls, Hfn. simpl.
  rewrite bind_gets, Hcls.
  unfold method_expression, alloc_function, set_prop, bind, ret, wrapped. simpl.
  rewrite lookup_insert_eq. simpl. rewrite lookup_empty.
  unfold update_object, set_heap, with_props. simpl.
  rewrite alter_insert_eq. simpl. rewrite insert_empty. reflexivity.
Qed.

Lemma constructor_of_own depth s decorator p :
  own_props s decorator !! KStr "constructor" = Some p ->
  constructor_of (S depth) decorator s = (Ok (p_value p), s, []).
Proof.
  intros Hown. unfold constructor_of.
  rewrite (bind_lift_ok _ _ _ _ (hasOwnProperty_true _ _ _ _ Hown)).
  unfold lift. rewrite (get_own _ _ _ _ _ Hown). reflexivity.
Qed.

Lemma constructor_of_function depth s decorator p :
  own_props s decorator !! KStr "constructor" = None ->
  isFunction s decorator = true ->
  isClass s decorator = false ->
  get (S depth) s decorator "prototype" = Ok p ->
  constructor_of (S depth) decorator s =
  if truthy p then (get (S depth) s p "constructor", s, []) else (Ok decorator, s, []).
Proof.
  intros Hown Hfn Hcls Hp. destruct (isFunction_not_nullish _ _ Hfn) as [Hu Hn].
  unfold constructor_of.
  rewrite (bind_lift_ok _ _ _ _ (hasOwnProperty_false _ _ _ Hu Hn Hown)).
  rewrite bind_gets, Hcls, Hfn. simpl.
  rewrite (bind_lift_ok _ _ _ _ Hp).
  destruct (truthy p); reflexivity.
Qed.

Lemma constructor_of_other depth s decorator :
  decorator <> VUndefined -> decorator <> VNull ->
  own_props s decorator !! KStr "constructor" = None ->
  isFunction s decorator = false ->
  constructor_of depth decorator s = (Ok VUndefined, s, []).
Proof.
  intros Hu Hn Hown Hfn.
  assert (Hcls : isClass s decorator = false) by (unfold isClass; rewrite Hfn; reflexivity).
  unfold constructor_of.
  rewrite (bind_lift_ok _ _ _ _ (hasOwnProperty_false _ _ _ Hu Hn Hown)).
  rewrite bind_gets, Hcls, Hfn. simpl.
  rewrite bind_gets, Hcls. reflexivity.
Qed.

Lemma constructor_of_nullish depth s decorator :
  decorator = VUndefined \/ decorator = VNull ->
  constructor_of depth decorator s = (Throw TypeError, s, []).
Proof. intros [-> | ->]; reflexivity. Qed.

Lemma store_eta s : Store (heap s) (next_obj s) (next_fun s) (secrets s) = s.
Proof. destruct s. reflexivity. Qed.

Lemma push_nothing l sec s :
  secrets s !! l = Some sec -> push_constructors (VRef l) [] s = (Ok tt, s, []).
Proof.
  intros H. unfold push_constructors, modify, set_secrets. f_equal. f_equal.
  rewrite <- (store_eta s) at 5. f_equal. simpl.
  apply map_eq. intros i. rewrite lookup_alter.
  destruct (decide (l = i)) as [<-|]; [|reflexivity].
  rewrite H. simpl. rewrite app_nil_r. destruct sec. reflexivity.
Qed.

Lemma secrets_of_known l sec s :
  secrets s !! l = Some sec -> secrets_of (VRef l) s = (Ok sec, s, []).
Proof. intros H. unfold secrets_of. rewrite H. reflexivity. Qed.

(** C5 (as amended).  The initializer [concatenateConstructors] takes from
    a decorator, in this order of priority: its own [constructor] entry when
    it has one; else, for a function that is not a class, the function itself
    when it has no [prototype], and the [constructor] of its [prototype]
    otherwise (the prototype's own entry when it has one); else, for a
    class, a new function tagged [isClassWrapper] that constructs the class
    with the parameters it is called with; any other value, except undefined
    and null, gives undefined, which is dropped without an error; undefined
    and null raise a TypeError. *)
Theorem initializer_of_a_decorator :
  forall (depth : nat) (s : store) (decorator : value),
    (forall p,
        own_props s decorator !! KStr "constructor" = Some p ->
        constructor_of (S depth) decorator s = (Ok (p_value p), s, []))
    /\
    (own_props s decorator !! KStr "constructor" = None ->
     isFunction s decorator = true ->
     isClass s decorator = false ->
     forall p,
       get (S depth) s decorator "prototype" = Ok p ->
       (truthy p = false ->
        constructor_of (S depth) decorator s = (Ok decorator, s, []))
       /\
       (truthy p = true ->
        constructor_of (S depth) decorator s = (get (S depth) s p "constructor", s, [])
        /\ forall q,
            own_props s p !! KStr "constructor" = Some q ->
            constructor_of (S depth) decorator s = (Ok (p_value q), s, [])))
    /\
    (own_props s decorator !! KStr "constructor" = None ->
     isClass s decorator = true ->
     constructor_of (S depth) decorator s
     = (Ok (VRef (LFun (next_fun s))), wrapped decorator s, [])
     /\ get (S depth) (wrapped decorator s) (VRef (LFun (next_fun s))) isClassWrapper
        = Ok (VBool true)
     /\ forall user n this parameters,
         run (S depth) user (S n) (VRef (LFun (next_fun s))) this parameters
             (wrapped decorator s)
         = untraced (construct (S depth) (run (S depth) user n) decorator parameters
                               decorator (wrapped decorator s)))
    /\
    (decorator <> VUndefined -> decorator <> VNull ->
     own_props s decorator !! KStr "constructor" = None ->
     isFunction s decorator = false ->
     constructor_of (S depth) decorator s = (Ok VUndefined, s, [])
     /\ forall l sec,
         secrets s !! l = Some sec ->
         concatenateConstructors (S depth) (VRef l) [decorator] s = (Ok tt, s, []))
    /\
    (decorator = VUndefined \/ decorator = VNull ->
     constructor_of (S depth) decorator s = (Throw TypeError, s, [])).
Proof.
  intros depth s decorator. repeat apply conj.
  - intros p Hp. apply constructor_of_own. exact Hp.
  - intros Hown Hfn Hcls p Hp.
    pose proof (constructor_of_function depth s decorator p Hown Hfn Hcls Hp) as H.
    split; intros Ht; rewrite Ht in H; [exact H|].
    split; [exact H|]. intros q Hq. rewrite H. rewrite (get_own _ _ _ _ _ Hq). reflexivity.
  - intros Hown Hcls. split; [apply constructor_of_class; assumption|]. split.
    + unfold get, wrapped. simpl. rewrite lookup_insert_eq. simpl.
      rewrite lookup_singleton_eq. reflexivity.
    + intros user n this parameters. cbn [run]. unfold obj_at, wrapped at 1. simpl.
      rewrite lookup_insert_eq. reflexivity.
  - intros Hu Hn Hown Hfn. split; [apply constructor_of_other; assumption|].
    intros l sec Hsec. unfold concatenateConstructors.
    rewrite (bind_ok_nil _ _ _ _ _ (secrets_of_known _ _ _ Hsec)).
    cbn [mapM].
    rewrite (bind_ok_nil _ _ _ _ _
               (eq_trans (bind_ok_nil _ _ _ _ _ (constructor_of_other _ _ _ Hu Hn Hown Hfn))
                         eq_refl)).
    simpl. apply (push_nothing _ _ _ Hsec).
  - apply constructor_of_nullish.
Qed.

(** C5, as the spec states it, fails: undefined is none of the three kinds
    of decorator, and it is not skipped: taking its initializer raises a
    TypeError, and so does composing it. *)
Lemma undefined_decorator_is_not_skipped :
  constructor_of Demo.depth VUndefined loaded = (Throw TypeError, loaded, [])
  /\ outcome_of (Deco Demo.depth [VUndefined] loaded) = Throw TypeError.
Proof. split; vm_compute; reflexivity. Qed.

(** ** What [Assign] and [Copy] do to the store *)

Lemma enumerable_own_update s l f v :
  v <> VRef l ->
  enumerable_own (update_object l f s) v = enumerable_own s v.
Proof.
  intros Hv. unfold enumerable_own, own_props, obj_at. destruct v; try reflexivity.
  simpl. rewrite lookup_alter_ne by congruence. reflexivity.
Qed.

Lemma update_update l f g s :
  update_object l g (update_object l f s) = update_object l (fun o => g (f o)) s.
Proof.
  unfold update_object, set_heap. simpl. f_equal.
  apply alter_alter_eq.
Qed.

Lemma update_ext l f g s :
  (forall o, heap s !! l = Some o -> f o = g o) ->
  update_object l f s = update_object l g s.
Proof.
  intros H. unfold update_object, set_heap. f_equal. apply alter_ext. exact H.
Qed.

Lemma update_id l f s :
  (forall o, heap s !! l = Some o -> f o = o) -> update_object l f s = s.
Proof.
  intros H. unfold update_object, set_heap. rewrite alter_id by exact H. apply store_eta.
Qed.

Lemma assign_source_unfrozen l src s ob :
  heap s !! l = Some ob -> o_frozen ob = false ->
  assign_source (VRef l) src s
  = (Ok tt, assign_store l [enumerable_own s src] s, []).
Proof.
  intros Hl Hf. unfold assign_source. rewrite Hl, Hf. reflexivity.
Qed.

Lemma Assign_unfrozen l sources : forall s ob,
  heap s !! l = Some ob -> o_frozen ob = false ->
  Forall (fun v => v <> VRef l) sources ->
  Assign (VRef l) sources s
  = (Ok (VRef l), assign_store l (map (enumerable_own s) sources) s, []).
Proof.
  unfold Assign.
  enough (H : forall s ob,
             heap s !! l = Some ob -> o_frozen ob = false ->
             Forall (fun v => v <> VRef l) sources ->
             iterM (assign_source (VRef l)) sources s
             = (Ok tt, assign_store l (map (enumerable_own s) sources) s, [])).
  { intros s ob Hl Hf Hs. rewrite (bind_ok_nil _ _ _ _ _ (H s ob Hl Hf Hs)). reflexivity. }
  induction sources as [|src sources IH]; intros s ob Hl Hf Hs; cbn [iterM map].
  - unfold ret, assign_store. rewrite update_id; [reflexivity|].
    intros o _. destruct o. reflexivity.
  - inversion Hs as [|? ? Hsrc Hrest]; subst.
    rewrite (bind_ok_nil _ _ _ _ _ (assign_source_unfrozen l src s ob Hl Hf)).
    assert (Hl1 : heap (assign_store l [enumerable_own s src] s) !! l
                  = Some (with_props (fun t => assign_table t (enumerable_own s src)) ob)).
    { unfold assign_store, update_object. simpl. rewrite lookup_alter_eq, Hl. reflexivity. }
    rewrite (IH _ _ Hl1 Hf Hrest).
    f_equal. f_equal. unfold assign_store. rewrite update_update.
    apply update_ext. intros o _.
    unfold with_props. simpl. f_equal. f_equal.
    apply map_ext_in. intros v Hv. apply enumerable_own_update.
    rewrite List.Forall_forall in Hrest. apply Hrest. exact Hv.
Qed.

Lemma lookup_update_eq l f s : heap (update_object l f s) !! l = f <$> heap s !! l.
Proof. unfold update_object. simpl. apply lookup_alter_eq. Qed.

Lemma lookup_update_ne l l' f s : l <> l' -> heap (update_object l f s) !! l' = heap s !! l'.
Proof. intros H. unfold update_object. simpl. apply lookup_alter_ne. exact H. Qed.

(** On an object that is not frozen [Assign] never fails: it rewrites the own
    properties of the target and nothing else. *)
Lemma iterM_assign_total l sources : forall s ob,
  heap s !! l = Some ob -> o_frozen ob = false ->
  exists g, iterM (assign_source (VRef l)) sources s
            = (Ok tt, update_object l (with_props g) s, []).
Proof.
  induction sources as [|src sources IH]; intros s ob Hl Hf; cbn [iterM].
  - exists (fun t => t). unfold ret. rewrite update_id; [reflexivity|].
    intros o _. destruct o. reflexivity.
  - rewrite (bind_ok_nil _ _ _ _ _ (assign_source_unfrozen l src s ob Hl Hf)).
    unfold assign_store.
    destruct (IH (update_object l
                    (with_props (fun t => fold_left assign_table [enumerable_own s src] t)) s)
                 (with_props (fun t => fold_left assign_table [enumerable_own s src] t) ob))
      as [g Hg].
    + rewrite lookup_update_eq, Hl. reflexivity.
    + exact Hf.
    + rewrite Hg, update_update. eexists. f_equal. f_equal. apply update_ext.
      intros o _. unfold with_props. simpl.
      instantiate (1 := fun t => g (assign_table t (enumerable_own s src))). reflexivity.
Qed.

Lemma Assign_total l sources s ob :
  heap s !! l = Some ob -> o_frozen ob = false ->
  exists g, Assign (VRef l) sources s = (Ok (VRef l), update_object l (with_props g) s, []).
Proof.
  intros Hl Hf. destruct (iterM_assign_total l sources s ob Hl Hf) as [g Hg].
  exists g. unfold Assign. rewrite (bind_ok_nil _ _ _ _ _ Hg). reflexivity.
Qed.

(** Whatever it is given, [Assign] changes nothing but the own properties of
    its target. *)
Lemma iterM_assign_primitive target sources : forall s,
  is_object target = false ->
  iterM (assign_source target) sources s = (Ok tt, s, []).
Proof.
  induction sources as [|src sources IH]; intros s Ht; cbn [iterM]; [reflexivity|].
  assert (H1 : assign_source target src s = (Ok tt, s, []))
    by (destruct target; try discriminate; reflexivity).
  rewrite (bind_ok_nil _ _ _ _ _ H1). apply IH. exact Ht.
Qed.

Lemma assign_store_nil l s : assign_store l [] s = s.
Proof.
  unfold assign_store. apply update_id. intros o _. destruct o. reflexivity.
Qed.

Lemma assign_store_app l tabs1 tabs2 s :
  assign_store l tabs2 (assign_store l tabs1 s) = assign_store l (tabs1 ++ tabs2) s.
Proof.
  unfold assign_store. rewrite update_update. apply update_ext. intros o _.
  unfold with_props. simpl. rewrite fold_left_app. reflexivity.
Qed.

Lemma iterM_assign_frame target sources : forall s,
  exists r tabs,
    iterM (assign_source target) sources s
    = (r, match target with VRef l => assign_store l tabs s | _ => s end, []).
Proof.
  destruct (is_object target) eqn:Hobj.
  2:{ intros s. rewrite (iterM_assign_primitive _ _ _ Hobj).
      exists (Ok tt), []. destruct target; try discriminate; reflexivity. }
  destruct target as [| |b|z|str|l]; try discriminate.
  induction sources as [|src sources IH]; intros s; cbn [iterM].
  - exists (Ok tt), []. unfold ret. rewrite assign_store_nil. reflexivity.
  - destruct (heap s !! l) as [ob|] eqn:Hl.
    + destruct (o_frozen ob && negb (bool_decide (enumerable_own s src = ∅))) eqn:Hfz.
      * assert (H1 : assign_source (VRef l) src s = (Throw TypeError, s, []))
          by (unfold assign_source; rewrite Hl, Hfz; reflexivity).
        exists (Throw TypeError), []. rewrite assign_store_nil.
        apply (bind_throw _ _ _ _ _ _ H1).
      * assert (H1 : assign_source (VRef l) src s
                     = (Ok tt, assign_store l [enumerable_own s src] s, []))
          by (unfold assign_source; rewrite Hl, Hfz; reflexivity).
        destruct (IH (assign_store l [enumerable_own s src] s)) as (r & tabs & Hr).
        exists r, ([enumerable_own s src] ++ tabs).
        rewrite (bind_ok_nil _ _ _ _ _ H1), Hr, assign_store_app. reflexivity.
    + assert (H1 : assign_source (VRef l) src s = (Ok tt, s, []))
        by (unfold assign_source; rewrite Hl; reflexivity).
      destruct (IH s) as (r & tabs & Hr). exists r, tabs.
      rewrite (bind_ok_nil _ _ _ _ _ H1), Hr. reflexivity.
Qed.

Lemma Assign_frame target sources s :
  exists r tabs,
    Assign target sources s
    = (r, match target with VRef l => assign_store l tabs s | _ => s end, []).
Proof.
  destruct (iterM_assign_frame target sources s) as (r & tabs & Hr).
  unfold Assign.
  destruct target; try (exists (Throw TypeError), tabs; reflexivity);
    unfold bind; rewrite Hr; destruct r as [u|e]; eauto.
Qed.

Lemma enumerable_own_copied t s v :
  v <> VRef (LObj (next_obj s)) -> enumerable_own (copied t s) v = enumerable_own s v.
Proof.
  intros Hv. unfold enumerable_own, own_props, obj_at, copied. destruct v; try reflexivity.
  simpl. rewrite lookup_insert_ne by congruence. reflexivity.
Qed.

Lemma update_copied t f s :
  update_object (LObj (next_obj s)) (with_props f) (copied t s) = copied (f t) s.
Proof.
  unfold update_object, set_heap, copied. simpl. f_equal.
  rewrite alter_insert_eq. reflexivity.
Qed.

(** [Copy] always returns a new object. *)
Lemma Copy_total sources s :
  exists t, Copy sources s = (Ok (VRef (LObj (next_obj s))), copied t s, []).
Proof.
  unfold Copy.
  assert (Ha : alloc_object ObjectPrototype ∅ s
               = (Ok (VRef (LObj (next_obj s))), copied ∅ s, [])) by reflexivity.
  rewrite (bind_ok_nil _ _ _ _ _ Ha).
  destruct (Assign_total (LObj (next_obj s)) sources (copied ∅ s)
              (Object ObjectPrototype ∅ None false)) as [g Hg].
  - unfold copied. simpl. apply lookup_insert_eq.
  - reflexivity.
  - rewrite Hg, update_copied. eauto.
Qed.

(** When the new object is not among the sources, it holds their own
    enumerable properties, a later source winning over an earlier one. *)
Lemma Copy_explicit sources s :
  Forall (fun v => v <> VRef (LObj (next_obj s))) sources ->
  Copy sources s
  = (Ok (VRef (LObj (next_obj s))),
     copied (fold_left assign_table (map (enumerable_own s) sources) ∅) s, []).
Proof.
  intros Hs. unfold Copy.
  assert (Ha : alloc_object ObjectPrototype ∅ s
               = (Ok (VRef (LObj (next_obj s))), copied ∅ s, [])) by reflexivity.
  rewrite (bind_ok_nil _ _ _ _ _ Ha).
  rewrite (Assign_unfrozen (LObj (next_obj s)) sources (copied ∅ s)
             (Object ObjectPrototype ∅ None false)).
  - unfold assign_store. rewrite update_copied. f_equal. f_equal. f_equal. f_equal.
    apply map_ext_in. intros v Hv. apply enumerable_own_copied.
    rewrite List.Forall_forall in Hs. apply Hs. exact Hv.
  - unfold copied. simpl. apply lookup_insert_eq.
  - reflexivity.
  - exact Hs.
Qed.

(** ** Stores that extend a store, and a factory being composed *)

Lemma unchanged_refl ko kr s : unchanged ko kr s s.
Proof. unfold unchanged. repeat split; auto. Qed.

Lemma extends_refl s : extends s s.
Proof. apply unchanged_refl. Qed.

Lemma allocated_fresh_obj s0 s : next_obj s0 <= next_obj s -> ~ allocated s0 (LObj (next_obj s)).
Proof. simpl. lia. Qed.

Lemma allocated_fresh_fun s0 s : next_fun s0 <= next_fun s -> ~ allocated s0 (LFun (next_fun s)).
Proof. simpl. lia. Qed.

Lemma well_formed_fresh_obj s : well_formed s -> heap s !! LObj (next_obj s) = None.
Proof.
  intros [Hwf _]. destruct (heap s !! LObj (next_obj s)) eqn:E; [|reflexivity].
  specialize (Hwf _ (ex_intro _ _ E)). simpl in Hwf. lia.
Qed.

Lemma well_formed_fresh_fun s : well_formed s -> heap s !! LFun (next_fun s) = None.
Proof.
  intros [Hwf _]. destruct (heap s !! LFun (next_fun s)) eqn:E; [|reflexivity].
  specialize (Hwf _ (ex_intro _ _ E)). simpl in Hwf. lia.
Qed.

Lemma allocated_mono s s' l :
  next_obj s <= next_obj s' -> next_fun s <= next_fun s' -> allocated s l -> allocated s' l.
Proof. destruct l; simpl; lia. Qed.

(** *** Rewriting the own properties of an object *)

Lemma well_formed_update_object l f s :
  well_formed s -> well_formed (update_object l f s).
Proof.
  intros [Hh Hs]. split.
  - intros l' Hl'. apply (Hh l'). unfold update_object in Hl'. simpl in Hl'.
    rewrite lookup_alter in Hl'. case_decide; [subst|exact Hl'].
    destruct (heap s !! l'); [eauto | destruct Hl'; discriminate].
  - exact Hs.
Qed.

Lemma well_formed_update l g s :
  well_formed s -> well_formed (update_object l (with_props g) s).
Proof.
  intros [Hh Hs]. split.
  - intros l' Hl'. apply (Hh l'). unfold update_object in Hl'. simpl in Hl'.
    rewrite lookup_alter in Hl'. case_decide; [subst|exact Hl'].
    destruct (heap s !! l'); [eauto | destruct Hl'; discriminate].
  - exact Hs.
Qed.

Lemma unchanged_update ko kr s0 l g s :
  ~ ko l -> unchanged ko kr s0 s -> unchanged ko kr s0 (update_object l g s).
Proof.
  intros Hl (Ho & Hf & Hh & Hs). repeat split; try assumption.
  intros l' Hl'. rewrite lookup_update_ne by (intros ->; contradiction). apply Hh. exact Hl'.
Qed.

Lemma composing_update lF lD lP l g s :
  l <> lF -> composing lF lD lP s -> composing lF lD lP (update_object l (with_props g) s).
Proof.
  intros Hl (Hwf & Hsec & (oF & q & HF & Hq & Hv) & (oD & HD & HDf) & (oP & HP & HPf) & Hd).
  split; [apply well_formed_update; exact Hwf|].
  split; [exact Hsec|].
  split; [exists oF, q; rewrite lookup_update_ne by exact Hl; auto|].
  split; [|split; [|exact Hd]].
  - destruct (decide (l = lD)) as [->|Hne].
    + exists (with_props g oD). rewrite lookup_update_eq, HD. auto.
    + exists oD. rewrite lookup_update_ne by exact Hne. auto.
  - destruct (decide (l = lP)) as [->|Hne].
    + exists (with_props g oP). rewrite lookup_update_eq, HP. auto.
    + exists oP. rewrite lookup_update_ne by exact Hne. auto.
Qed.

(** *** Allocating *)

Lemma well_formed_new_object o s : well_formed s -> well_formed (new_object o s).
Proof.
  intros [Hh Hs]. split.
  - intros l Hl. unfold new_object in Hl. simpl in Hl.
    destruct (decide (l = LObj (next_obj s))) as [->|Hne]; [simpl; lia|].
    rewrite lookup_insert_ne in Hl by congruence.
    apply (allocated_mono s); [simpl; lia | simpl; lia | apply Hh; exact Hl].
  - intros l Hl. apply (allocated_mono s); [simpl; lia | simpl; lia | apply Hs; exact Hl].
Qed.

Lemma well_formed_new_function o s : well_formed s -> well_formed (new_function o s).
Proof.
  intros [Hh Hs]. split.
  - intros l Hl. unfold new_function in Hl. simpl in Hl.
    destruct (decide (l = LFun (next_fun s))) as [->|Hne]; [simpl; lia|].
    rewrite lookup_insert_ne in Hl by congruence.
    apply (allocated_mono s); [simpl; lia | simpl; lia | apply Hh; exact Hl].
  - intros l Hl. apply (allocated_mono s); [simpl; lia | simpl; lia | apply Hs; exact Hl].
Qed.

Lemma lookup_new_object o s l :
  allocated s l -> heap (new_object o s) !! l = heap s !! l.
Proof.
  intros Hl. unfold new_object. simpl. apply lookup_insert_ne.
  intros <-. simpl in Hl. lia.
Qed.

Lemma lookup_new_function o s l :
  allocated s l -> heap (new_function o s) !! l = heap s !! l.
Proof.
  intros Hl. unfold new_function. simpl. apply lookup_insert_ne.
  intros <-. simpl in Hl. lia.
Qed.

Lemma unchanged_new_object ko kr s0 o s :
  (forall l, ko l -> allocated s0 l) ->
  unchanged ko kr s0 s -> unchanged ko kr s0 (new_object o s).
Proof.
  intros Hko (Ho & Hf & Hh & Hs). repeat split; simpl; try lia; try assumption.
  intros l Hl. rewrite <- (Hh l Hl). apply lookup_new_object.
  apply (allocated_mono s0); auto.
Qed.

Lemma unchanged_new_function ko kr s0 o s :
  (forall l, ko l -> allocated s0 l) ->
  unchanged ko kr s0 s -> unchanged ko kr s0 (new_function o s).
Proof.
  intros Hko (Ho & Hf & Hh & Hs). repeat split; simpl; try lia; try assumption.
  intros l Hl. rewrite <- (Hh l Hl). apply lookup_new_function.
  apply (allocated_mono s0); auto.
Qed.

Lemma composing_allocated lF lD lP s :
  composing lF lD lP s -> allocated s lF /\ allocated s lD /\ allocated s lP.
Proof.
  intros ([Hh _] & _ & (oF & q & HF & _) & (oD & HD & _) & (oP & HP & _) & _).
  repeat split; apply Hh; eauto.
Qed.

Lemma composing_new_object lF lD lP o s :
  composing lF lD lP s -> composing lF lD lP (new_object o s).
Proof.
  intros H. destruct (composing_allocated _ _ _ _ H) as (HaF & HaD & HaP).
  destruct H as (Hwf & Hsec & (oF & q & HF & Hq) & (oD & HD & HDf) & (oP & HP & HPf) & Hd).
  split; [apply well_formed_new_object; exact Hwf|].
  split; [exact Hsec|].
  split; [exists oF, q; rewrite lookup_new_object by exact HaF; auto|].
  split; [exists oD; rewrite lookup_new_object by exact HaD; auto|].
  split; [exists oP; rewrite lookup_new_object by exact HaP; auto|exact Hd].
Qed.

Lemma composing_new_function lF lD lP o s :
  composing lF lD lP s -> composing lF lD lP (new_function o s).
Proof.
  intros H. destruct (composing_allocated _ _ _ _ H) as (HaF & HaD & HaP).
  destruct H as (Hwf & Hsec & (oF & q & HF & Hq) & (oD & HD & HDf) & (oP & HP & HPf) & Hd).
  split; [apply well_formed_new_function; exact Hwf|].
  split; [exact Hsec|].
  split; [exists oF, q; rewrite lookup_new_function by exact HaF; auto|].
  split; [exists oD; rewrite lookup_new_function by exact HaD; auto|].
  split; [exists oP; rewrite lookup_new_function by exact HaP; auto|exact Hd].
Qed.

(** *** Pushing initializers *)

Lemma unchanged_pushed ko kr s0 l xs s :
  ~ kr l -> unchanged ko kr s0 s -> unchanged ko kr s0 (pushed l xs s).
Proof.
  intros Hl (Ho & Hf & Hh & Hs). repeat split; try assumption.
  intros l' Hl'. unfold pushed. simpl.
  rewrite lookup_alter_ne by (intros ->; contradiction). apply Hs. exact Hl'.
Qed.

Lemma composing_pushed lF lD lP xs s :
  composing lF lD lP s -> composing lF lD lP (pushed lF xs s).
Proof.
  intros ([Hh Hs] & (sec & Hsec & Hdef) & Hrest).
  split; [|split; [|exact Hrest]].
  - split; [exact Hh|]. intros l Hl. apply (Hs l). unfold pushed in Hl. simpl in Hl.
    rewrite lookup_alter in Hl. case_decide; [subst|exact Hl]. eauto.
  - exists (Secret (constructors sec ++ xs) (defaults sec)).
    unfold pushed. simpl. rewrite lookup_alter_eq, Hsec. auto.
Qed.

(** ** The three callbacks, read off the store *)

Lemma constructor_of_view depth decorator s :
  constructor_of depth decorator s =
  match initializer_view depth s decorator with
  | Ok (Some v) => (Ok v, s, [])
  | Ok None => (Ok (VRef (LFun (next_fun s))), wrapped decorator s, [])
  | Throw e => (Throw e, s, [])
  end.
Proof.
  unfold constructor_of, initializer_view.
  destruct (hasOwnProperty s decorator "constructor") as [[|]|e] eqn:Hown.
  - rewrite (bind_lift_ok _ _ _ _ Hown). unfold lift.
    destruct (get depth s decorator "constructor"); reflexivity.
  - rewrite (bind_lift_ok _ _ _ _ Hown). rewrite bind_gets.
    destruct (isFunction s decorator && negb (isClass s decorator)) eqn:Hplain.
    + destruct (get depth s decorator "prototype") as [p|e] eqn:Hp.
      * rewrite (bind_lift_ok _ _ _ _ Hp). destruct (negb (truthy p)); [reflexivity|].
        unfold lift. destruct (get depth s p "constructor"); reflexivity.
      * rewrite (bind_lift_throw _ _ _ _ Hp). reflexivity.
    + rewrite bind_gets. destruct (isClass s decorator) eqn:Hcls; [|reflexivity].
      unfold method_expression, alloc_function, set_prop, bind, ret, wrapped. simpl.
      rewrite lookup_insert_eq. simpl. rewrite lookup_empty.
      unfold update_object, set_heap, with_props. simpl.
      rewrite alter_insert_eq. simpl. rewrite insert_empty. reflexivity.
  - rewrite (bind_lift_throw _ _ _ _ Hown). reflexivity.
Qed.

Lemma defaults_of_view depth decorator s :
  defaults_of depth decorator s = (defaults_view depth s decorator, s, []).
Proof.
  unfold defaults_of, defaults_view.
  destruct (hasOwnProperty s decorator "defaults") as [[|]|e] eqn:Hown.
  - rewrite (bind_lift_ok _ _ _ _ Hown). reflexivity.
  - rewrite (bind_lift_ok _ _ _ _ Hown). reflexivity.
  - rewrite (bind_lift_throw _ _ _ _ Hown). reflexivity.
Qed.

Lemma prototype_of_view depth decorator s :
  prototype_of depth decorator s =
  match methods_view depth s decorator with
  | Ok None => (Ok decorator, s, [])
  | Ok (Some c) => Copy (rev c) s
  | Throw e => (Throw e, s, [])
  end.
Proof.
  unfold prototype_of, methods_view. rewrite bind_gets.
  destruct (isFunction s decorator); [|reflexivity].
  destruct (get depth s decorator "prototype") as [p|e] eqn:Hp.
  - rewrite (bind_lift_ok _ _ _ _ Hp). unfold flatten.
    destruct (chain depth s p) as [c|e] eqn:Hc.
    + rewrite (bind_lift_ok _ _ _ _ Hc). reflexivity.
    + rewrite (bind_lift_throw _ _ _ _ Hc). reflexivity.
  - rewrite (bind_lift_throw _ _ _ _ Hp). reflexivity.
Qed.

(** ** What composition leaves alone *)

Section Frames.

Variable depth : nat.
Variables lF lD lP : loc.

(** A property of stores that allocations, pushes to the initializers of the
    factory and assignments to its two tables keep. *)
Variable extra : store -> Prop.
Hypothesis extra_new_object :
  forall o s, composing lF lD lP s -> extra s -> extra (new_object o s).
Hypothesis extra_new_function :
  forall o s, composing lF lD lP s -> extra s -> extra (new_function o s).
Hypothesis extra_pushed :
  forall xs s, composing lF lD lP s -> extra s -> extra (pushed lF xs s).
Hypothesis extra_assign :
  forall l tabs s,
    l = lD \/ l = lP -> composing lF lD lP s -> extra s -> extra (assign_store l tabs s).

#[local] Abbreviation inv := (fun s => extra s /\ composing lF lD lP s).

Lemma mapM_inv {A B} (f : A -> M B) (l : list A) :
  (forall x s r s' t, inv s -> f x s = (r, s', t) -> inv s' /\ t = []) ->
  forall s r s' t, inv s -> mapM f l s = (r, s', t) -> inv s' /\ t = [].
Proof.
  intros Hf. induction l as [|x l IH]; intros s r s' t Hi H; cbn [mapM] in H.
  - inversion H; subst. auto.
  - destruct (f x s) as [[[y|e] s1] t1] eqn:Hx.
    + destruct (Hf _ _ _ _ _ Hi Hx) as [Hi1 ->].
      rewrite (bind_ok_nil _ _ _ _ _ Hx) in H.
      destruct (mapM f l s1) as [[[ys|e] s2] t2] eqn:Hl.
      * destruct (IH _ _ _ _ Hi1 Hl) as [Hi2 ->].
        rewrite (bind_ok_nil _ _ _ _ _ Hl) in H. inversion H; subst. auto.
      * destruct (IH _ _ _ _ Hi1 Hl) as [Hi2 ->].
        rewrite (bind_throw _ _ _ _ _ _ Hl) in H. inversion H; subst. auto.
    + destruct (Hf _ _ _ _ _ Hi Hx) as [Hi1 ->].
      rewrite (bind_throw _ _ _ _ _ _ Hx) in H. inversion H; subst. auto.
Qed.

Lemma constructor_of_inv n decorator s r s' t :
  inv s -> constructor_of n decorator s = (r, s', t) -> inv s' /\ t = [].
Proof.
  intros [He Hc] H. rewrite constructor_of_view in H.
  destruct (initializer_view n s decorator) as [[v|]|e]; inversion H; subst;
    (split; [|reflexivity]); try (split; assumption).
  split; [apply extra_new_function | apply composing_new_function]; assumption.
Qed.

Lemma defaults_of_inv n decorator s r s' t :
  inv s -> defaults_of n decorator s = (r, s', t) -> inv s' /\ t = [].
Proof.
  intros Hi H. rewrite defaults_of_view in H. inversion H; subst. auto.
Qed.

Lemma prototype_of_inv n decorator s r s' t :
  inv s -> prototype_of n decorator s = (r, s', t) -> inv s' /\ t = [].
Proof.
  intros [He Hc] H. rewrite prototype_of_view in H.
  destruct (methods_view n s decorator) as [[c|]|e].
  - destruct (Copy_total (rev c) s) as [tb Hcopy]. rewrite Hcopy in H. inversion H; subst.
    split; [|reflexivity].
    split; [apply extra_new_object | apply composing_new_object]; assumption.
  - inversion H; subst. split; [split; assumption | reflexivity].
  - inversion H; subst. split; [split; assumption | reflexivity].
Qed.

Lemma Assign_inv l sources s r s' t :
  l = lD \/ l = lP ->
  inv s -> Assign (VRef l) sources s = (r, s', t) -> inv s' /\ t = [].
Proof.
  intros Hl [He Hc] H.
  destruct (Assign_frame (VRef l) sources s) as (r' & tabs & Hg). rewrite Hg in H.
  inversion H; subst. split; [|reflexivity].
  assert (Hne : l <> lF) by (destruct Hc as (_ & _ & _ & _ & _ & ? & ? & _); destruct Hl; congruence).
  split.
  - apply extra_assign; assumption.
  - apply composing_update; assumption.
Qed.

Lemma secrets_of_composing s :
  composing lF lD lP s ->
  exists sec, secrets_of (VRef lF) s = (Ok sec, s, []) /\ defaults sec = VRef lD
              /\ secrets s !! lF = Some sec.
Proof.
  intros (_ & (sec & Hsec & Hdef) & _). exists sec.
  rewrite (secrets_of_known _ _ _ Hsec). auto.
Qed.

Lemma get_prototype_composing s :
  composing lF lD lP s -> get (S depth) s (VRef lF) "prototype" = Ok (VRef lP).
Proof.
  intros (_ & _ & (oF & q & HF & Hq & Hv) & _).
  rewrite <- Hv. apply get_own. unfold own_props, obj_at. rewrite HF. exact Hq.
Qed.

Lemma concatenateConstructors_inv decorators s r s' t :
  inv s -> concatenateConstructors (S depth) (VRef lF) decorators s = (r, s', t) ->
  inv s' /\ t = [].
Proof.
  intros Hi H. unfold concatenateConstructors in H.
  destruct (secrets_of_composing s (proj2 Hi)) as (sec & Hsec & _).
  rewrite (bind_ok_nil _ _ _ _ _ Hsec) in H.
  destruct (mapM (constructor_of (S depth)) decorators s) as [[[cs|e] s1] t1] eqn:Hm;
    destruct (mapM_inv _ _ (constructor_of_inv (S depth)) _ _ _ _ Hi Hm) as [[He1 Hc1] ->].
  - rewrite (bind_ok_nil _ _ _ _ _ Hm) in H. inversion H; subst. split; [|reflexivity].
    split; [apply extra_pushed | apply composing_pushed]; assumption.
  - rewrite (bind_throw _ _ _ _ _ _ Hm) in H. inversion H; subst. split; [split; assumption|reflexivity].
Qed.

Lemma concatenateDefaults_inv decorators s r s' t :
  inv s -> concatenateDefaults (S depth) (VRef lF) decorators s = (r, s', t) ->
  inv s' /\ t = [].
Proof.
  intros Hi H. unfold concatenateDefaults in H.
  destruct (secrets_of_composing s (proj2 Hi)) as (sec & Hsec & Hdef & _).
  rewrite (bind_ok_nil _ _ _ _ _ Hsec) in H. rewrite Hdef in H.
  destruct (mapM (defaults_of (S depth)) decorators s) as [[[srcs|e] s1] t1] eqn:Hm;
    destruct (mapM_inv _ _ (defaults_of_inv (S depth)) _ _ _ _ Hi Hm) as [Hi1 ->].
  - rewrite (bind_ok_nil _ _ _ _ _ Hm) in H.
    destruct (Assign (VRef lD) srcs s1) as [[[u|e] s2] t2] eqn:Ha;
      destruct (Assign_inv lD srcs s1 _ _ _ (or_introl eq_refl) Hi1 Ha) as [Hi2 ->].
    + rewrite (bind_ok_nil _ _ _ _ _ Ha) in H. inversion H; subst. auto.
    + rewrite (bind_throw _ _ _ _ _ _ Ha) in H. inversion H; subst. auto.
  - rewrite (bind_throw _ _ _ _ _ _ Hm) in H. inversion H; subst. auto.
Qed.

Lemma concatenatePrototypes_inv decorators s r s' t :
  inv s -> concatenatePrototypes (S depth) (VRef lF) decorators s = (r, s', t) ->
  inv s' /\ t = [].
Proof.
  intros Hi H. unfold concatenatePrototypes in H.
  rewrite (bind_lift_ok _ _ _ _ (get_prototype_composing s (proj2 Hi))) in H.
  destruct (mapM (prototype_of (S depth)) decorators s) as [[[srcs|e] s1] t1] eqn:Hm;
    destruct (mapM_inv _ _ (prototype_of_inv (S depth)) _ _ _ _ Hi Hm) as [Hi1 ->].
  - rewrite (bind_ok_nil _ _ _ _ _ Hm) in H.
    destruct (Assign (VRef lP) srcs s1) as [[[u|e] s2] t2] eqn:Ha;
      destruct (Assign_inv lP srcs s1 _ _ _ (or_intror eq_refl) Hi1 Ha) as [Hi2 ->].
    + rewrite (bind_ok_nil _ _ _ _ _ Ha) in H. inversion H; subst. auto.
    + rewrite (bind_throw _ _ _ _ _ _ Ha) in H. inversion H; subst. auto.
  - rewrite (bind_throw _ _ _ _ _ _ Hm) in H. inversion H; subst. auto.
Qed.

Lemma concatenate_inv decorators s r s' t :
  inv s -> concatenate (S depth) (VRef lF) decorators s = (r, s', t) ->
  inv s' /\ t = [].
Proof.
  intros Hi H. unfold concatenate in H.
  destruct (concatenateConstructors (S depth) (VRef lF) decorators s)
    as [[[u|e] s1] t1] eqn:H1;
    destruct (concatenateConstructors_inv _ _ _ _ _ Hi H1) as [Hi1 ->].
  2:{ rewrite (bind_throw _ _ _ _ _ _ H1) in H. inversion H; subst. auto. }
  rewrite (bind_ok_nil _ _ _ _ _ H1) in H.
  destruct (concatenateDefaults (S depth) (VRef lF) decorators s1)
    as [[[u2|e] s2] t2] eqn:H2;
    destruct (concatenateDefaults_inv _ _ _ _ _ Hi1 H2) as [Hi2 ->].
  2:{ rewrite (bind_throw _ _ _ _ _ _ H2) in H. inversion H; subst. auto. }
  rewrite (bind_ok_nil _ _ _ _ _ H2) in H.
  apply (concatenatePrototypes_inv _ _ _ _ _ Hi2 H).
Qed.

End Frames.

(** ** What [Deco] builds before it composes *)

Ltac loc_neq :=
  let H := fresh in
  intros H; first [ discriminate H | injection H; intros; lia ].

Ltac lookups :=
  repeat first
    [ rewrite lookup_alter_eq
    | rewrite lookup_insert_eq
    | rewrite lookup_alter_ne by loc_neq
    | rewrite lookup_insert_ne by loc_neq
    | rewrite lookup_singleton_eq
    | rewrite lookup_empty
    | progress simpl ].

Ltac primitive :=
  unfold Object_create, alloc_object, alloc_function,
    set_prop, setPrototypeOf, defineProperty, lift, get, get_from, update_object, set_heap,
    with_props, DecoPrototype;
  lookups; reflexivity.

(** Runs a computation made of allocations and of writes to objects whose
    place in the store is known. *)
Ltac eval_m :=
  cbv beta; cbn [heap next_obj next_fun secrets];
  unfold function_expression, method_expression, setPrototype, initialize;
  lazymatch goal with
  | |- bind _ _ _ = _ => erewrite bind_ok_nil by eval_m; eval_m
  | |- ret _ _ = _ => reflexivity
  | |- _ => primitive
  end.

(** Splits on which of the inserted locations [i] is. *)
Ltac insert_cases i :=
  repeat match goal with
         | |- context [decide (?l = i)] =>
             destruct (decide (l = i)) as [<-|];
             [ repeat first [ rewrite decide_True by reflexivity
                            | rewrite decide_False by loc_neq ] | ]
         end.

Lemma Deco_prepared depth decorators s :
  Deco (S depth) decorators s =
  (concatenate (S depth) (VRef (LFun (next_fun s))) decorators >>
   let! _ := Object_freeze (VRef (LFun (next_fun s))) in
   let! p := lift (fun s' => get (S depth) s' (VRef (LFun (next_fun s))) "prototype") in
   let! _ := Object_freeze p in
   ret (VRef (LFun (next_fun s)))) (prepared s).
Proof.
  destruct s as [h no nf sec]. unfold Deco.
  do 4 (erewrite bind_ok_nil by eval_m; cbv beta; cbn [heap next_obj next_fun secrets]).
  f_equal. unfold prepared. cbn [heap next_obj next_fun secrets]. f_equal.
  repeat first [ rewrite alter_insert_eq | rewrite alter_insert_ne by loc_neq ].
  cbn [o_proto o_props o_code o_frozen].
  apply map_eq. intros i. rewrite !lookup_insert.
  insert_cases i; reflexivity.
Qed.

Lemma lookup_prepared s l : allocated s l -> heap (prepared s) !! l = heap s !! l.
Proof.
  intros Hl. unfold prepared. cbn [heap].
  destruct l as [n|n]; simpl in Hl; lookups; reflexivity.
Qed.

Lemma prepared_factory s :
  heap (prepared s) !! LFun (next_fun s)
  = Some (Object (VRef (LObj (S (next_obj s))))
                 (<[KStr "defaults" := Property (VRef (LFun (S (S (S (next_fun s)))))) false]>
                    {[ KStr "prototype" := Property (VRef (LObj (S (next_obj s)))) false ]})
                 (Some CFactory) false).
Proof. unfold prepared. cbn [heap]. lookups. reflexivity. Qed.

Lemma prepared_table s :
  heap (prepared s) !! LObj (S (next_obj s))
  = Some (Object DecoPrototype
                 (<[KStr "defaults" := Property (VRef (LFun (S (S (next_fun s))))) false]>
                    {[ KStr "constructor" := Property (VRef (LFun (S (next_fun s)))) false ]})
                 None false).
Proof. unfold prepared. cbn [heap]. lookups. reflexivity. Qed.

Lemma prepared_constructor s :
  heap (prepared s) !! LFun (S (next_fun s))
  = Some (Object FunctionPrototype
                 {[ KStr "prototype" := Property (VRef (LObj (S (S (next_obj s))))) false ]}
                 (Some (CFactoryConstructor (VRef (LFun (next_fun s))))) false).
Proof. unfold prepared. cbn [heap]. lookups. reflexivity. Qed.

Lemma well_formed_prepared s : well_formed s -> well_formed (prepared s).
Proof.
  intros [Hh Hs]. split.
  - intros l Hl. unfold prepared in *. cbn [heap] in Hl. simpl.
    rewrite !lookup_insert in Hl.
    repeat match type of Hl with
           | context [decide (?l' = l)] =>
               destruct (decide (l' = l)) as [<-|]; [simpl; lia|]
           end.
    specialize (Hh l Hl). destruct l; simpl in *; lia.
  - intros l Hl. specialize (Hs l Hl). destruct l; simpl in *; lia.
Qed.

Lemma lookup_primed s l :
  heap (primed s) !! l =
  if decide (l = LObj (S (S (S (next_obj s)))))
  then Some (Object ObjectPrototype ∅ None false)
  else heap (prepared s) !! l.
Proof.
  unfold primed, new_object. simpl. rewrite lookup_insert.
  destruct (decide (LObj (S (S (S (next_obj s)))) = l)) as [<-|Hne].
  - rewrite decide_True by reflexivity. reflexivity.
  - rewrite decide_False by congruence. reflexivity.
Qed.

Lemma well_formed_primed s : well_formed s -> well_formed (primed s).
Proof.
  intros Hwf. destruct (well_formed_new_object (Object ObjectPrototype ∅ None false) _
                          (well_formed_prepared s Hwf)) as [Hh Hs].
  split; [exact Hh|].
  intros l Hl. unfold primed in Hl. simpl in Hl. rewrite lookup_insert in Hl.
  destruct (decide (LFun (next_fun s) = l)) as [<-|]; [simpl; lia|].
  apply Hs. exact Hl.
Qed.

Lemma secrets_of_prepared s :
  well_formed s ->
  secrets_of (VRef (LFun (next_fun s))) (prepared s)
  = (Ok (Secret [] (VRef (LObj (S (S (S (next_obj s))))))), primed s, []).
Proof.
  intros [_ Hs]. unfold secrets_of.
  assert (Hnone : secrets (prepared s) !! LFun (next_fun s) = None).
  { simpl. destruct (secrets s !! LFun (next_fun s)) eqn:E; [|reflexivity].
    specialize (Hs _ (ex_intro _ _ E)). simpl in Hs. lia. }
  rewrite Hnone. reflexivity.
Qed.

Lemma secrets_of_primed s :
  secrets_of (VRef (LFun (next_fun s))) (primed s)
  = (Ok (Secret [] (VRef (LObj (S (S (S (next_obj s))))))), primed s, []).
Proof. unfold secrets_of, primed. simpl. rewrite lookup_insert_eq. reflexivity. Qed.

Lemma composing_primed s :
  well_formed s ->
  composing (LFun (next_fun s)) (LObj (S (S (S (next_obj s))))) (LObj (S (next_obj s)))
            (primed s).
Proof.
  intros Hwf. split; [apply well_formed_primed; exact Hwf|].
  split; [eexists; split; [unfold primed; simpl; apply lookup_insert_eq | reflexivity]|].
  split.
  { eexists. exists (Property (VRef (LObj (S (next_obj s)))) false).
    rewrite lookup_primed, decide_False by discriminate.
    split; [apply prepared_factory|]. split; [reflexivity|reflexivity]. }
  split.
  { eexists. rewrite lookup_primed, decide_True by reflexivity. split; reflexivity. }
  split.
  { eexists. rewrite lookup_primed, decide_False by loc_neq.
    split; [apply prepared_table | reflexivity]. }
  repeat split; loc_neq.
Qed.

Lemma concatenate_prepared depth decorators s :
  well_formed s ->
  concatenate (S depth) (VRef (LFun (next_fun s))) decorators (prepared s)
  = concatenate (S depth) (VRef (LFun (next_fun s))) decorators (primed s).
Proof.
  intros Hwf. unfold concatenate, concatenateConstructors.
  unfold bind at 1 5.
  unfold bind at 1 4.
  rewrite (secrets_of_prepared s Hwf), secrets_of_primed. reflexivity.
Qed.

(** ** What [Deco] leaves alone *)

Lemma allocated_primed s l : allocated s l -> allocated (primed s) l.
Proof. destruct l; simpl; lia. Qed.

(** The composition [Deco] runs keeps every object but the two tables of the
    new factory, and every private record but the new factory's. *)
Lemma Deco_concatenate depth decorators s r s2 t :
  well_formed s ->
  concatenate (S depth) (VRef (LFun (next_fun s))) decorators (prepared s) = (r, s2, t) ->
  t = []
  /\ composing (LFun (next_fun s)) (LObj (S (S (S (next_obj s))))) (LObj (S (next_obj s))) s2
  /\ unchanged (fun l => allocated (primed s) l
                         /\ l <> LObj (S (S (S (next_obj s)))) /\ l <> LObj (S (next_obj s)))
               (fun l => l <> LFun (next_fun s))
               (primed s) s2.
Proof.
  intros Hwf H. rewrite (concatenate_prepared _ _ _ Hwf) in H.
  destruct (concatenate_inv depth
              (LFun (next_fun s)) (LObj (S (S (S (next_obj s))))) (LObj (S (next_obj s)))
              (unchanged (fun l => allocated (primed s) l
                                   /\ l <> LObj (S (S (S (next_obj s))))
                                   /\ l <> LObj (S (next_obj s)))
                         (fun l => l <> LFun (next_fun s))
                         (primed s)))
    with (decorators := decorators) (s := primed s) (r := r) (s' := s2) (t := t)
    as [[Hu Hc] Ht].
  - intros o s1 _. apply unchanged_new_object. intros l [Hl _]. exact Hl.
  - intros o s1 _. apply unchanged_new_function. intros l [Hl _]. exact Hl.
  - intros xs s1 _. apply unchanged_pushed. intros Hl. apply Hl. reflexivity.
  - intros l tabs s1 Hl _. apply unchanged_update.
    destruct Hl as [-> | ->]; intros (_ & H1 & H2); [apply H1 | apply H2]; reflexivity.
  - split; [apply unchanged_refl | apply composing_primed; exact Hwf].
  - exact H.
  - auto.
Qed.

Lemma extends_since_primed s s2 :
  unchanged (fun l => allocated (primed s) l
                      /\ l <> LObj (S (S (S (next_obj s)))) /\ l <> LObj (S (next_obj s)))
            (fun l => l <> LFun (next_fun s))
            (primed s) s2 ->
  extends s s2.
Proof.
  intros (Ho & Hf & Hh & Hs). simpl in Ho, Hf.
  split; [lia|]. split; [lia|]. split.
  - intros l Hl. rewrite Hh.
    + rewrite lookup_primed, decide_False by (intros ->; simpl in Hl; lia).
      apply lookup_prepared. exact Hl.
    + split; [apply allocated_primed; exact Hl|].
      split; intros ->; simpl in Hl; lia.
  - intros l Hl. rewrite Hs by (intros ->; simpl in Hl; lia).
    unfold primed. simpl. apply lookup_insert_ne. intros <-. simpl in Hl. lia.
Qed.

Lemma Object_freeze_object l s :
  Object_freeze (VRef l) s
  = (Ok (VRef l),
     update_object l (fun ob => Object (o_proto ob) (o_props ob) (o_code ob) true) s, []).
Proof. reflexivity. Qed.

(** [Deco] changes no object and no private record that existed before it was
    called, whatever its decorators are and however it ends; what it returns
    is the function it has allocated first, frozen, whose own properties are
    [prototype] and [defaults]. *)
Lemma Deco_frame depth decorators s r s' t :
  well_formed s ->
  Deco (S depth) decorators s = (r, s', t) ->
  t = [] /\ well_formed s' /\ extends s s'
  /\ (forall v, r = Ok v ->
      v = VRef (LFun (next_fun s))
      /\ heap s' !! LFun (next_fun s)
         = Some (Object (VRef (LObj (S (next_obj s))))
                   (<[KStr "defaults" := Property (VRef (LFun (S (S (S (next_fun s)))))) false]>
                      {[ KStr "prototype" := Property (VRef (LObj (S (next_obj s)))) false ]})
                   (Some CFactory) true)).
Proof.
  intros Hwf H. rewrite Deco_prepared in H.
  destruct (concatenate (S depth) (VRef (LFun (next_fun s))) decorators (prepared s))
    as [[[u|e] s2] t2] eqn:Hcat;
    destruct (Deco_concatenate _ _ _ _ _ _ Hwf Hcat) as (-> & Hc & Hu).
  - rewrite (bind_ok_nil _ _ _ _ _ Hcat) in H.
    rewrite (bind_ok_nil _ _ _ _ _ (Object_freeze_object _ s2)) in H.
    set (frozen := fun ob => Object (o_proto ob) (o_props ob) (o_code ob) true) in *.
    assert (HF : heap s2 !! LFun (next_fun s) = heap (prepared s) !! LFun (next_fun s)).
    { destruct Hu as (_ & _ & Hh & _). rewrite Hh.
      - rewrite lookup_primed, decide_False by discriminate. reflexivity.
      - repeat split; try discriminate. simpl. lia. }
    rewrite prepared_factory in HF.
    assert (Hget : get (S depth) (update_object (LFun (next_fun s)) frozen s2)
                       (VRef (LFun (next_fun s))) "prototype"
                   = Ok (VRef (LObj (S (next_obj s))))).
    { unfold get, get_from, obj_at. rewrite lookup_update_eq, HF. reflexivity. }
    rewrite (bind_lift_ok _ _ _ _ Hget) in H.
    rewrite (bind_ok_nil _ _ _ _ _ (Object_freeze_object _ _)) in H.
    inversion H; subst. split; [reflexivity|].
    split; [do 2 apply well_formed_update_object; apply Hc|].
    split.
    + apply unchanged_update; [simpl; lia|].
      apply unchanged_update; [simpl; lia|].
      apply extends_since_primed. exact Hu.
    + intros v Hv. inversion Hv; subst. split; [reflexivity|].
      rewrite lookup_update_ne by discriminate. rewrite lookup_update_eq, HF. reflexivity.
  - rewrite (bind_throw _ _ _ _ _ _ Hcat) in H. inversion H; subst.
    split; [reflexivity|]. split; [apply Hc|]. split; [|intros v Hv; discriminate].
    apply extends_since_primed. exact Hu.
Qed.

(** ** Stores that grow *)

Lemma grows_refl s : grows s s.
Proof. unfold grows. repeat split; auto. Qed.

Lemma grows_trans s1 s2 s3 : grows s1 s2 -> grows s2 s3 -> grows s1 s3.
Proof.
  intros (Ho1 & Hf1 & Hh1 & Hs1) (Ho2 & Hf2 & Hh2 & Hs2).
  split; [lia|]. split; [lia|]. split.
  - intros l Hl. rewrite Hh2 by (apply (allocated_mono s1); assumption). apply Hh1. exact Hl.
  - intros l sec Hl. apply Hs2. apply Hs1. exact Hl.
Qed.

Lemma extends_grows s s' : well_formed s -> extends s s' -> grows s s'.
Proof.
  intros [_ Hwf] (Ho & Hf & Hh & Hs). repeat split; try assumption.
  intros l sec Hl. rewrite Hs; [exact Hl|]. apply Hwf. eauto.
Qed.

Lemma grows_new_object o s : grows s (new_object o s).
Proof.
  split; [simpl; lia|]. split; [simpl; lia|]. split; [|auto].
  intros l Hl. apply lookup_new_object. exact Hl.
Qed.

(** [secrets(o)] for an object of the store: the record, made if need be. *)
Lemma secrets_of_grows l s :
  well_formed s -> is_Some (heap s !! l) ->
  exists sec s',
    secrets_of (VRef l) s = (Ok sec, s', [])
    /\ grows s s' /\ well_formed s'
    /\ (forall v, defaults sec = v -> v = VRef (LObj (next_obj s)) \/ secrets s !! l = Some sec).
Proof.
  intros Hwf Hl. unfold secrets_of. destruct (secrets s !! l) as [sec|] eqn:Hs.
  - exists sec, s. split; [reflexivity|]. split; [apply grows_refl|]. split; [exact Hwf|]. auto.
  - eexists. eexists. split; [reflexivity|]. split; [|split].
    + split; [simpl; lia|]. split; [simpl; lia|]. split.
      * intros l' Hl'. simpl. apply lookup_insert_ne. intros <-. simpl in Hl'. lia.
      * intros l' sec' Hl'. simpl. rewrite lookup_insert_ne; [exact Hl'|].
        intros <-. rewrite Hs in Hl'. discriminate.
    + destruct (well_formed_new_object (Object ObjectPrototype ∅ None false) s Hwf)
        as [Hh' Hs'].
      split; [exact Hh'|]. intros l' Hl'. simpl in Hl'. rewrite lookup_insert in Hl'.
      destruct (decide (l = l')) as [<-|].
      * apply (allocated_mono s); [simpl; lia | simpl; lia | apply (proj1 Hwf); exact Hl].
      * apply Hs'. exact Hl'.
    + intros v <-. left. reflexivity.
Qed.

Lemma members_defaults_grows factory updates s r s' t :
  well_formed s -> is_Some (obj_at s factory) ->
  members_defaults factory updates s = (r, s', t) ->
  t = [] /\ grows s s' /\ well_formed s'
  /\ exists s1, grows s s1 /\ r = Ok (VRef (LObj (next_obj s1))).
Proof.
  intros Hwf Hf H. unfold members_defaults in H.
  destruct factory as [| | | | |l]; try (destruct Hf; discriminate). simpl in Hf.
  destruct (secrets_of_grows l s Hwf Hf) as (sec & s1 & Hsec & Hg & Hwf1 & _).
  rewrite (bind_ok_nil _ _ _ _ _ Hsec) in H.
  destruct (Copy_total (defaults sec :: updates) s1) as [tb Hc]. rewrite Hc in H.
  inversion H; subst. split; [reflexivity|]. split; [|split].
  - eapply grows_trans; [exact Hg | apply grows_new_object].
  - apply well_formed_new_object. exact Hwf1.
  - exists s1. auto.
Qed.

Lemma statics_defaults_grows depth this updates s r s' t :
  well_formed s -> is_Some (obj_at s this) ->
  statics_defaults (S depth) this updates s = (r, s', t) ->
  t = [] /\ grows s s' /\ well_formed s'
  /\ forall v, r = Ok v -> exists n, v = VRef (LFun n) /\ next_fun s <= n.
Proof.
  intros Hwf Hf H. unfold statics_defaults in H.
  destruct this as [| | | | |l]; try (destruct Hf; discriminate). simpl in Hf.
  destruct (secrets_of_grows l s Hwf Hf) as (sec & s1 & Hsec & Hg & Hwf1 & _).
  rewrite (bind_ok_nil _ _ _ _ _ Hsec) in H.
  destruct (Copy_total (defaults sec :: updates) s1) as [tb Hc].
  rewrite (bind_ok_nil _ _ _ _ _ Hc) in H.
  match type of H with
  | bind (alloc_object ?p ?props) _ _ = _ =>
      rewrite (bind_ok_nil _ _ _ _ _
                 (eq_refl : alloc_object p props (copied tb s1)
                            = (Ok (VRef (LObj (next_obj (copied tb s1)))),
                               new_object (Object p props None false) (copied tb s1), [])))
        in H
  end.
  set (s3 := new_object _ (copied tb s1)) in H.
  assert (Hwf3 : well_formed s3)
    by (apply well_formed_new_object; apply (well_formed_new_object _ s1); exact Hwf1).
  assert (Hg3 : grows s s3).
  { eapply grows_trans; [exact Hg|].
    eapply grows_trans;
      [apply (grows_new_object (Object ObjectPrototype tb None false) s1)
      | apply grows_new_object]. }
  destruct (Deco_frame _ _ _ _ _ _ Hwf3 H) as (-> & Hwf' & He & Hv).
  split; [reflexivity|]. split; [|split; [exact Hwf'|]].
  - eapply grows_trans; [exact Hg3 | apply extends_grows; assumption].
  - intros v Hr. destruct (Hv v Hr) as [-> _]. eexists. split; [reflexivity|].
    destruct Hg3 as (_ & Hf3 & _). exact Hf3.
Qed.

(** ** C4: the tables of a factory after it is built *)

(** What the code has where C4 speaks of accessors through which the tables
    of a factory grow.  The factory [Deco] returns has no own [decorators]
    property, and the static [defaults] returns a new factory.  The
    initializer list and the defaults table of a factory never change once
    it is built: building factories and calling either [defaults] accessor
    leave every object that exists, and every private record that exists (the
    initializer list and the reference to the defaults table), as they
    were. *)
Lemma tables_never_change_after_the_build :
  forall depth : nat,
    (forall decorators s r s' t,
        well_formed s ->
        Deco (S depth) decorators s = (r, s', t) ->
        well_formed s'
        /\ (forall l, allocated s l -> heap s' !! l = heap s !! l)
        /\ (forall l sec, secrets s !! l = Some sec -> secrets s' !! l = Some sec)
        /\ (forall v, r = Ok v -> own_props s' v !! KStr "decorators" = None))
    /\
    (forall factory updates s r s' t,
        well_formed s -> is_Some (obj_at s factory) ->
        members_defaults factory updates s = (r, s', t) ->
        well_formed s'
        /\ (forall l, allocated s l -> heap s' !! l = heap s !! l)
        /\ (forall l sec, secrets s !! l = Some sec -> secrets s' !! l = Some sec))
    /\
    (forall this updates s r s' t,
        well_formed s -> is_Some (obj_at s this) ->
        statics_defaults (S depth) this updates s = (r, s', t) ->
        well_formed s'
        /\ (forall l, allocated s l -> heap s' !! l = heap s !! l)
        /\ (forall l sec, secrets s !! l = Some sec -> secrets s' !! l = Some sec)
        /\ (forall v, r = Ok v -> exists n, v = VRef (LFun n) /\ next_fun s <= n)).
Proof.
  intros depth. repeat apply conj.
  - intros decorators s r s' t Hwf H.
    destruct (Deco_frame _ _ _ _ _ _ Hwf H) as (_ & Hwf' & He & Hv).
    destruct (extends_grows _ _ Hwf He) as (_ & _ & Hh & Hs).
    split; [exact Hwf'|]. split; [exact Hh|]. split; [exact Hs|].
    intros v Hr. destruct (Hv v Hr) as [-> HF].
    unfold own_props, obj_at. rewrite HF. reflexivity.
  - intros factory updates s r s' t Hwf Hf H.
    destruct (members_defaults_grows _ _ _ _ _ _ Hwf Hf H) as (_ & (_ & _ & Hh & Hs) & Hwf' & _).
    auto.
  - intros this updates s r s' t Hwf Hf H.
    destruct (statics_defaults_grows _ _ _ _ _ _ _ Hwf Hf H)
      as (_ & (_ & _ & Hh & Hs) & Hwf' & Hv).
    auto.
Qed.

(** C4 on the tests 'should allow adding a single decorator' and 'should not
    overwrite decorators when adding more', which call
    [constructor.decorators(...)] on [Deco()]: the factory has no
    [decorators] property, own or inherited, and calling what the read gives
    raises a TypeError. *)
Lemma no_decorators_accessor :
  match Deco Demo.depth [] loaded with
  | (Ok f, s, _) =>
      get Demo.depth s f "decorators" = Ok VUndefined
      /\ own_props s f !! KStr "decorators" = None
      /\ Call Demo.apply VUndefined f [f] s = (Throw TypeError, s, [])
  | _ => False
  end.
Proof. vm_compute. repeat split. Qed.

(** ** Well-formed stores, decided *)

Lemma well_formed_decide s :
  bool_decide (map_Forall (fun l _ => allocated s l) (heap s)) = true ->
  bool_decide (map_Forall (fun l _ => allocated s l) (secrets s)) = true ->
  well_formed s.
Proof.
  intros Hh Hs. apply bool_decide_eq_true in Hh, Hs. split.
  - intros l [o Ho]. exact (Hh l o Ho).
  - intros l [o Ho]. exact (Hs l o Ho).
Qed.

Lemma well_formed_loaded : well_formed loaded.
Proof. apply well_formed_decide; vm_compute; reflexivity. Qed.

(** ** C9: reading the defaults *)

Lemma assign_table_lookup t src k :
  assign_table t src !! k = assign_prop (t !! k) (src !! k).
Proof.
  unfold assign_table. rewrite lookup_merge.
  destruct (t !! k), (src !! k); reflexivity.
Qed.

(** Assigning tables in order: the last table that has a key decides its
    value; the key keeps the [enumerable] attribute it had, if it had one. *)
Lemma fold_assign_lookup tabs : forall t0 k,
  fold_left assign_table tabs t0 !! k =
  match winner k tabs with
  | Some p =>
      Some (Property (p_value p)
                     (match t0 !! k with Some q => p_enumerable q | None => true end))
  | None => t0 !! k
  end.
Proof.
  induction tabs as [|tab tabs IH]; intros t0 k; cbn [fold_left winner]; [reflexivity|].
  rewrite IH, assign_table_lookup.
  destruct (winner k tabs) as [p|]; unfold assign_prop;
    destruct (tab !! k) as [p'|]; destruct (t0 !! k) as [q|]; reflexivity.
Qed.

Lemma enumerable_own_enumerable s v k p :
  enumerable_own s v !! k = Some p -> p_enumerable p = true.
Proof.
  unfold enumerable_own. intros H. apply map_lookup_filter_Some in H. apply H.
Qed.

Lemma winner_enumerable s k p vs :
  winner k (map (enumerable_own s) vs) = Some p -> p_enumerable p = true.
Proof.
  induction vs as [|v vs IH]; cbn [map winner]; [discriminate|].
  destruct (winner k (map (enumerable_own s) vs)) as [p'|].
  - intros H. inversion H; subst. apply IH. reflexivity.
  - apply enumerable_own_enumerable.
Qed.

(** The table [Copy] makes of sources: for every key, the entry of the last
    source that has it as an own enumerable property. *)
Lemma merged_lookup s vs k :
  fold_left assign_table (map (enumerable_own s) vs) ∅ !! k
  = winner k (map (enumerable_own s) vs).
Proof.
  rewrite fold_assign_lookup, lookup_empty.
  destruct (winner k (map (enumerable_own s) vs)) as [p|] eqn:Hw; [|reflexivity].
  rewrite <- (winner_enumerable _ _ _ _ Hw). destruct p. reflexivity.
Qed.

Lemma present_not_fresh s v :
  well_formed s -> present s v -> v <> VRef (LObj (next_obj s)).
Proof.
  intros Hwf Hp ->. specialize (Hp eq_refl). simpl in Hp.
  rewrite (well_formed_fresh_obj s Hwf) in Hp. destruct Hp. discriminate.
Qed.

Lemma members_defaults_explicit l sec updates s :
  well_formed s ->
  secrets s !! l = Some sec ->
  Forall (present s) (defaults sec :: updates) ->
  members_defaults (VRef l) updates s
  = (Ok (VRef (LObj (next_obj s))),
     copied (fold_left assign_table (map (enumerable_own s) (defaults sec :: updates)) ∅) s,
     []).
Proof.
  intros Hwf Hsec Hp. unfold members_defaults.
  rewrite (bind_ok_nil _ _ _ _ _ (secrets_of_known _ _ _ Hsec)).
  apply Copy_explicit.
  eapply List.Forall_impl; [|exact Hp]. intros v Hv. apply present_not_fresh; assumption.
Qed.

Lemma enumerable_own_copied_present t s v :
  well_formed s -> present s v -> enumerable_own (copied t s) v = enumerable_own s v.
Proof. intros Hwf Hp. apply enumerable_own_copied. apply present_not_fresh; assumption. Qed.

(** What the [defaults] accessors do (C9).  The [defaults(...updates)]
    accessor of the method table, called on a factory, returns a new object
    that holds the shallow merge of the factory's private defaults table and
    the updates: for every key, the entry of the last of them that has it as
    an own enumerable property, so that a later value wins; on an empty
    defaults table, a single merge with [a] holds exactly the own enumerable
    entries of [a].  It is not a merge into the private table: the table and
    the private record are left as they were, so a second merge starts from
    the same table, not from the result of the first.  The static
    [defaults(...updates)] of the factory returns a new factory, and leaves
    the factory it is called on as it was. *)
Lemma defaults_returns_a_merged_copy :
  forall (depth : nat) (s : store) (l : loc) (sec : secret) (updates : list value),
    well_formed s ->
    secrets s !! l = Some sec ->
    Forall (present s) (defaults sec :: updates) ->
    members_defaults (VRef l) updates s
    = (Ok (VRef (LObj (next_obj s))),
       copied (fold_left assign_table (map (enumerable_own s) (defaults sec :: updates)) ∅) s,
       [])
    /\ (forall k,
           fold_left assign_table (map (enumerable_own s) (defaults sec :: updates)) ∅ !! k
           = winner k (map (enumerable_own s) (defaults sec :: updates)))
    /\ (forall a,
           updates = [a] -> enumerable_own s (defaults sec) = ∅ ->
           fold_left assign_table (map (enumerable_own s) (defaults sec :: updates)) ∅
           = enumerable_own s a)
    /\ (forall t,
           secrets (copied t s) = secrets s
           /\ (forall l', allocated s l' -> heap (copied t s) !! l' = heap s !! l')
           /\ forall updates',
               Forall (present s) updates' ->
               map (enumerable_own (copied t s)) (defaults sec :: updates')
               = map (enumerable_own s) (defaults sec :: updates'))
    /\ (forall this updates' r s' t,
           is_Some (obj_at s this) ->
           statics_defaults (S depth) this updates' s = (r, s', t) ->
           (forall l', allocated s l' -> heap s' !! l' = heap s !! l')
           /\ (forall l' sec', secrets s !! l' = Some sec' -> secrets s' !! l' = Some sec')
           /\ (forall v, r = Ok v -> exists n, v = VRef (LFun n) /\ next_fun s <= n)).
Proof.
  intros depth s l sec updates Hwf Hsec Hp.
  split; [apply members_defaults_explicit; assumption|].
  split; [intros k; apply merged_lookup|].
  split.
  { intros a -> Hempty. apply map_eq. intros k. rewrite merged_lookup.
    cbn [map winner]. rewrite Hempty, lookup_empty.
    destruct (enumerable_own s a !! k); reflexivity. }
  split.
  { intros t. split; [reflexivity|]. split.
    - intros l' Hl'. apply (lookup_new_object (Object ObjectPrototype t None false)). exact Hl'.
    - intros updates' Hp'. apply map_ext_in. intros v Hv.
      apply enumerable_own_copied_present; [exact Hwf|].
      inversion Hp as [|? ? Hd _]; subst.
      destruct Hv as [<-|Hv]; [exact Hd|].
      rewrite List.Forall_forall in Hp'. apply Hp'. exact Hv. }
  intros this updates' r s' t Hthis H.
  destruct (statics_defaults_grows _ _ _ _ _ _ _ Hwf Hthis H) as (_ & (_ & _ & Hh & Hs) & _ & Hn).
  auto.
Qed.

Lemma well_formed_plain_store : well_formed Demo.plain_store.
Proof. apply well_formed_decide; vm_compute; reflexivity. Qed.

(** The hypotheses of [defaults_returns_a_merged_copy] hold of [Deco()] and
    the update [{ genre: 'reggae', artist: 'midnite' }]. *)
Lemma defaults_returns_a_merged_copy_witness :
  well_formed Demo.plain_store
  /\ secrets Demo.plain_store !! LFun 5 = Some (Secret [] (VRef (LObj 7)))
  /\ Forall (present Demo.plain_store) [VRef (LObj 7); Demo.midnite]
  /\ members_defaults Demo.plain [Demo.midnite] Demo.plain_store
     = (Ok (VRef (LObj (next_obj Demo.plain_store))),
        copied (fold_left assign_table
                  (map (enumerable_own Demo.plain_store) [VRef (LObj 7); Demo.midnite]) ∅)
               Demo.plain_store,
        []).
Proof.
  assert (H1 : well_formed Demo.plain_store) by exact well_formed_plain_store.
  assert (H2 : secrets Demo.plain_store !! LFun 5 = Some (Secret [] (VRef (LObj 7))))
    by (vm_compute; reflexivity).
  assert (H3 : Forall (present Demo.plain_store) [VRef (LObj 7); Demo.midnite])
    by (repeat constructor; intros _; vm_compute; eexists; reflexivity).
  split; [exact H1|]. split; [exact H2|]. split; [exact H3|].
  exact (proj1 (defaults_returns_a_merged_copy 7 Demo.plain_store (LFun 5)
                  (Secret [] (VRef (LObj 7))) [Demo.midnite] H1 H2 H3)).
Defined.

(** C9 on the tests 'should allow adding defaults' and 'should allow merging
    in additional defaults', which merge with [constructor.defaults(...)] and
    expect the initializers to see the merged entries.  On [Deco()], the
    merge of
    [{ genre, artist }] and then the merge of [{ label, artist }] with the
    accessor of the method table: the second result has no [genre], and the
    private defaults table is still empty.  And the static [defaults] of the
    factory, called with [{ genre, artist }], returns a function (a new
    factory), not the merged table. *)
Lemma defaults_do_not_accumulate :
  match Demo.two_merges Demo.plain_store with
  | (Ok (r1, r2), s, _) =>
      own_props s r1 !! KStr "genre" = Some (Property (VStr "reggae") true)
      /\ own_props s r2 !! KStr "genre" = None
      /\ own_props s r2 !! KStr "label" = Some (Property (VStr "gargamel records") true)
      /\ own_props s (VRef (LObj 7)) = ∅
  | _ => False
  end
  /\
  match Demo.static_merge Demo.plain_store with
  | (Ok r, s, _) =>
      isFunction s r = true /\ r <> Demo.plain /\ own_props s r !! KStr "genre" = None
  | _ => False
  end.
Proof.
  split; vm_compute.
  - repeat split.
  - repeat split. discriminate.
Qed.

(** ** C3: a collection in place of a decorator *)

Lemma assign_table_empty t : assign_table t ∅ = t.
Proof.
  apply map_eq. intros k. rewrite assign_table_lookup, lookup_empty. reflexivity.
Qed.

Lemma enumerable_own_primitive s v : is_object v = false -> enumerable_own s v = ∅.
Proof.
  intros Hv. unfold enumerable_own, own_props, obj_at.
  destruct v; try discriminate; apply map_filter_empty.
Qed.

Lemma assign_store_nothing l s : assign_store l [∅] s = s.
Proof.
  unfold assign_store. apply update_id. intros o _. unfold with_props. simpl.
  rewrite assign_table_empty. destruct o. reflexivity.
Qed.

Lemma mapM_one {A B} (f : A -> M B) x s y s' :
  f x s = (Ok y, s', []) -> mapM f [x] s = (Ok [y], s', []).
Proof.
  intros H. cbn [mapM]. rewrite (bind_ok_nil _ _ _ _ _ H). reflexivity.
Qed.

(** Composing one decorator that is an object, not a function, and has no
    own [constructor] or [defaults]. *)
Lemma concatenate_plain_object depth lF lD lP s d :
  composing lF lD lP s ->
  is_object d = true -> d <> VRef lP ->
  isFunction s d = false ->
  own_props s d !! KStr "constructor" = None ->
  own_props s d !! KStr "defaults" = None ->
  concatenate (S depth) (VRef lF) [d] s
  = (Ok tt, assign_store lP [enumerable_own s d] s, []).
Proof.
  intros Hc Hobj HdP Hfn Hctor Hdef.
  assert (Hu : d <> VUndefined) by (intros ->; discriminate).
  assert (Hn : d <> VNull) by (intros ->; discriminate).
  destruct (secrets_of_composing lF lD lP s Hc) as (sec & Hsec & HD & Hrec).
  pose proof (get_prototype_composing depth lF lD lP s Hc) as HP.
  destruct Hc as (_ & _ & _ & (oD & HoD & HfD) & (oP & HoP & HfP) & _).
  unfold concatenate.
  assert (H1 : concatenateConstructors (S depth) (VRef lF) [d] s = (Ok tt, s, [])).
  { unfold concatenateConstructors.
    rewrite (bind_ok_nil _ _ _ _ _ Hsec).
    rewrite (bind_ok_nil _ _ _ _ _
               (mapM_one _ _ _ _ _ (constructor_of_other _ _ _ Hu Hn Hctor Hfn))).
    simpl. apply (push_nothing _ _ _ Hrec). }
  rewrite (bind_ok_nil _ _ _ _ _ H1).
  assert (H2 : concatenateDefaults (S depth) (VRef lF) [d] s = (Ok tt, s, [])).
  { unfold concatenateDefaults.
    rewrite (bind_ok_nil _ _ _ _ _ Hsec).
    assert (Hv : defaults_of (S depth) d s = (Ok VUndefined, s, [])).
    { rewrite defaults_of_view. unfold defaults_view.
      rewrite (hasOwnProperty_false _ _ _ Hu Hn Hdef). reflexivity. }
    rewrite (bind_ok_nil _ _ _ _ _ (mapM_one _ _ _ _ _ Hv)).
    rewrite HD.
    assert (Hsrc : Forall (fun v => v <> VRef lD) [VUndefined])
      by (repeat constructor; discriminate).
    rewrite (bind_ok_nil _ _ _ _ _ (Assign_unfrozen lD [VUndefined] s oD HoD HfD Hsrc)).
    cbn [map]. rewrite (enumerable_own_primitive s VUndefined eq_refl).
    rewrite assign_store_nothing. reflexivity. }
  rewrite (bind_ok_nil _ _ _ _ _ H2).
  unfold concatenatePrototypes.
  rewrite (bind_lift_ok _ _ _ _ HP).
  assert (Hv : prototype_of (S depth) d s = (Ok d, s, [])).
  { rewrite prototype_of_view. unfold methods_view. rewrite Hfn. reflexivity. }
  rewrite (bind_ok_nil _ _ _ _ _ (mapM_one _ _ _ _ _ Hv)).
  assert (Hsrc : Forall (fun v => v <> VRef lP) [d])
    by (repeat constructor; exact HdP).
  rewrite (bind_ok_nil _ _ _ _ _ (Assign_unfrozen lP [d] s oP HoP HfP Hsrc)).
  reflexivity.
Qed.

(** What the code does with a collection (C3).  A collection (an array)
    given in place of a decorator raises no invalid-decorator-list error, whatever its elements are: it is
    an object that is not a function, so, having no own [constructor] or
    [defaults] entry, it appends no initializer and merges no defaults (the
    initializer list and the defaults table are left unchanged), and its own
    enumerable entries, its elements under their indices, are assigned onto
    the method table. *)
Lemma a_collection_is_composed_as_an_object :
  forall (depth : nat) (lF lD lP : loc) (s : store) (collection : value),
    composing lF lD lP s ->
    is_object collection = true ->
    collection <> VRef lP ->
    isFunction s collection = false ->
    own_props s collection !! KStr "constructor" = None ->
    own_props s collection !! KStr "defaults" = None ->
    concatenate (S depth) (VRef lF) [collection] s
    = (Ok tt, assign_store lP [enumerable_own s collection] s, [])
    /\ secrets (assign_store lP [enumerable_own s collection] s) = secrets s
    /\ heap (assign_store lP [enumerable_own s collection] s) !! lD = heap s !! lD
    /\ forall k,
        own_props (assign_store lP [enumerable_own s collection] s) (VRef lP) !! k
        = assign_prop (own_props s (VRef lP) !! k) (enumerable_own s collection !! k).
Proof.
  intros depth lF lD lP s d Hc Hobj HdP Hfn Hctor Hdef.
  split; [apply (concatenate_plain_object depth lF lD lP); assumption|].
  split; [reflexivity|].
  destruct Hc as (_ & _ & _ & _ & (oP & HoP & _) & _ & _ & HDP).
  split.
  - unfold assign_store. apply lookup_update_ne. congruence.
  - intros k. unfold own_props, obj_at, assign_store.
    rewrite lookup_update_eq, HoP. simpl. apply assign_table_lookup.
Qed.

Lemma composing_array_store : composing (LFun 5) (LObj 8) (LObj 6) Demo.array_store.
Proof.
  apply (composing_primed (store_of (Demo.an_array loaded))).
  apply well_formed_decide; vm_compute; reflexivity.
Qed.

(** The hypotheses of [a_collection_is_composed_as_an_object] hold of the
    array [['barron von beluga']], in the store in which [Deco] starts
    composing it. *)
Lemma a_collection_is_composed_as_an_object_witness :
  composing (LFun 5) (LObj 8) (LObj 6) Demo.array_store
  /\ is_object (VRef (LObj 4)) = true
  /\ VRef (LObj 4) <> VRef (LObj 6)
  /\ isFunction Demo.array_store (VRef (LObj 4)) = false
  /\ own_props Demo.array_store (VRef (LObj 4)) !! KStr "constructor" = None
  /\ own_props Demo.array_store (VRef (LObj 4)) !! KStr "defaults" = None
  /\ concatenate Demo.depth (VRef (LFun 5)) [VRef (LObj 4)] Demo.array_store
     = (Ok tt,
        assign_store (LObj 6) [enumerable_own Demo.array_store (VRef (LObj 4))]
                     Demo.array_store,
        []).
Proof.
  assert (H1 : composing (LFun 5) (LObj 8) (LObj 6) Demo.array_store)
    by exact composing_array_store.
  assert (H2 : is_object (VRef (LObj 4)) = true) by reflexivity.
  assert (H3 : VRef (LObj 4) <> VRef (LObj 6)) by discriminate.
  assert (H4 : isFunction Demo.array_store (VRef (LObj 4)) = false)
    by (vm_compute; reflexivity).
  assert (H5 : own_props Demo.array_store (VRef (LObj 4)) !! KStr "constructor" = None)
    by (vm_compute; reflexivity).
  assert (H6 : own_props Demo.array_store (VRef (LObj 4)) !! KStr "defaults" = None)
    by (vm_compute; reflexivity).
  repeat (split; [assumption|]).
  exact (proj1 (a_collection_is_composed_as_an_object 7 (LFun 5) (LObj 8) (LObj 6)
                  Demo.array_store (VRef (LObj 4)) H1 H2 H3 H4 H5 H6)).
Defined.

(** C3 on the test 'should make sure array is array of functions', which
    expects an error that says the array contained a non-function:
    [Deco(['barron von beluga'])], whose collection holds a string, raises
    nothing.  It returns a factory, whose
    method table has been given the element under the key [0]. *)
Lemma no_invalid_decorator_list_error :
  match Demo.array_factory loaded with
  | (Ok f, s, _) =>
      exists p,
        get Demo.depth s f "prototype" = Ok p
        /\ own_props s p !! KStr "0" = Some (Property (VStr "barron von beluga") true)
        /\ own_props (store_of (Deco Demo.depth [] (store_of (Demo.an_array loaded)))) p
             !! KStr "0" = None
  | _ => False
  end.
Proof. vm_compute. eexists. repeat split. Qed.

(** ** The entries [initialize] installs *)

Lemma hidden_assign tabs t k : hidden t k -> hidden (fold_left assign_table tabs t) k.
Proof.
  intros [v Hv]. unfold hidden. rewrite fold_assign_lookup, Hv.
  destruct (winner k tabs) as [p|]; eauto.
Qed.

Lemma hidden_not_enumerable s a k :
  hidden (own_props s a) k -> enumerable_own s a !! k = None.
Proof.
  intros [v Hv]. unfold enumerable_own.
  destruct (filter _ (own_props s a) !! k) as [p|] eqn:E; [|reflexivity].
  apply map_lookup_filter_Some in E. destruct E as [E1 E2].
  rewrite Hv in E1. inversion E1; subst. discriminate.
Qed.

Lemma own_props_update_ne l f s a : a <> VRef l -> own_props (update_object l f s) a = own_props s a.
Proof.
  intros Ha. unfold own_props, obj_at. destruct a; try reflexivity.
  rewrite lookup_update_ne by congruence. reflexivity.
Qed.

Lemma own_props_frozen l s a : own_props (update_object l frozen s) a = own_props s a.
Proof.
  unfold own_props, obj_at. destruct a as [| | | | |l']; try reflexivity.
  destruct (decide (l = l')) as [<-|Hne].
  - rewrite lookup_update_eq. destruct (heap s !! l); reflexivity.
  - rewrite lookup_update_ne by exact Hne. reflexivity.
Qed.

Lemma own_props_assign_store l tabs s ob :
  heap s !! l = Some ob ->
  own_props (assign_store l tabs s) (VRef l) = fold_left assign_table tabs (own_props s (VRef l)).
Proof.
  intros Hl. unfold own_props, obj_at, assign_store. rewrite lookup_update_eq, Hl. reflexivity.
Qed.

Lemma hidden_is_object s a k : hidden (own_props s a) k -> exists l ob, a = VRef l /\ heap s !! l = Some ob.
Proof.
  intros [v Hv]. unfold own_props, obj_at in Hv.
  destruct a as [| | | | |l]; try (rewrite lookup_empty in Hv; discriminate).
  destruct (heap s !! l) as [ob|] eqn:E; [eauto|rewrite lookup_empty in Hv; discriminate].
Qed.

Lemma hidden_assign_store l tabs s a k :
  hidden (own_props s a) k -> hidden (own_props (assign_store l tabs s) a) k.
Proof.
  intros H. destruct (decide (a = VRef l)) as [->|Hne].
  - destruct (hidden_is_object _ _ _ H) as (l' & ob & Heq & Hl). inversion Heq; subst l'.
    rewrite (own_props_assign_store _ _ _ _ Hl). apply hidden_assign. exact H.
  - unfold assign_store. rewrite own_props_update_ne by exact Hne. exact H.
Qed.

Lemma own_props_new_object o s a :
  well_formed s -> is_Some (obj_at s a) -> own_props (new_object o s) a = own_props s a.
Proof.
  intros Hwf Ha. unfold own_props, obj_at in *. destruct a as [| | | | |l]; try reflexivity.
  rewrite lookup_new_object; [reflexivity|]. apply (proj1 Hwf). exact Ha.
Qed.

Lemma own_props_new_function o s a :
  well_formed s -> is_Some (obj_at s a) -> own_props (new_function o s) a = own_props s a.
Proof.
  intros Hwf Ha. unfold own_props, obj_at in *. destruct a as [| | | | |l]; try reflexivity.
  rewrite lookup_new_function; [reflexivity|]. apply (proj1 Hwf). exact Ha.
Qed.

Lemma installed_is_Some lP s : installed lP s -> is_Some (obj_at s (VRef lP)).
Proof.
  intros [H _]. destruct (hidden_is_object _ _ _ H) as (l & ob & Heq & Hl).
  inversion Heq; subst. simpl. eauto.
Qed.

(** The composition [Deco] runs keeps the two installed entries of the method
    table hidden, whatever the decorators assign onto it. *)
Lemma Deco_installed depth decorators s r s2 t :
  well_formed s ->
  concatenate (S depth) (VRef (LFun (next_fun s))) decorators (prepared s) = (r, s2, t) ->
  installed (LObj (S (next_obj s))) s2.
Proof.
  intros Hwf H. rewrite (concatenate_prepared _ _ _ Hwf) in H.
  destruct (concatenate_inv depth
              (LFun (next_fun s)) (LObj (S (S (S (next_obj s))))) (LObj (S (next_obj s)))
              (installed (LObj (S (next_obj s)))))
    with (decorators := decorators) (s := primed s) (r := r) (s' := s2) (t := t)
    as [[Hi Hc] Ht].
  - intros o s1 Hc Hi. unfold installed.
    rewrite own_props_new_object; [exact Hi | apply Hc | apply installed_is_Some; exact Hi].
  - intros o s1 Hc Hi. unfold installed.
    rewrite own_props_new_function; [exact Hi | apply Hc | apply installed_is_Some; exact Hi].
  - intros xs s1 _ Hi. exact Hi.
  - intros l tabs s1 _ _ [H1 H2]. split; apply hidden_assign_store; assumption.
  - split; [|apply composing_primed; exact Hwf].
    unfold installed, own_props, obj_at.
    rewrite lookup_primed, decide_False by loc_neq. rewrite prepared_table. simpl.
    split; eexists; lookups; reflexivity.
  - exact H.
  - exact Hi.
Qed.

(** [Assign] gives its target no entry for a key its sources do not have as
    an own enumerable property, however it ends. *)
Lemma Assign_keeps_key target source k s r s' t :
  enumerable_own s source !! k = None ->
  Assign target [source] s = (r, s', t) ->
  own_props s' target !! k = own_props s target !! k.
Proof.
  intros Hk H.
  destruct target as [| |b|z|str|l]; try (inversion H; subst; reflexivity).
  unfold Assign in H. cbn [iterM] in H. unfold bind, ret, assign_source in H.
  destruct (heap s !! l) as [ob|] eqn:Hl.
  - destruct (o_frozen ob && negb (bool_decide (enumerable_own s source = ∅))).
    + inversion H; subst. reflexivity.
    + inversion H; subst. unfold own_props, obj_at.
      rewrite lookup_update_eq, Hl. simpl.
      rewrite assign_table_lookup, Hk. reflexivity.
  - inversion H; subst. reflexivity.
Qed.

(** ** The factory of no decorators *)

Lemma concatenate_nothing depth s :
  well_formed s ->
  concatenate (S depth) (VRef (LFun (next_fun s))) [] (primed s) = (Ok tt, primed s, []).
Proof.
  intros Hwf.
  pose proof (composing_primed s Hwf) as Hc.
  assert (Hsec := secrets_of_primed s).
  assert (H1 : concatenateConstructors (S depth) (VRef (LFun (next_fun s))) [] (primed s)
               = (Ok tt, primed s, [])).
  { unfold concatenateConstructors. rewrite (bind_ok_nil _ _ _ _ _ Hsec).
    cbn [mapM]. rewrite bind_ret_l. cbn [List.filter].
    destruct Hc as (_ & (sec & Hs & _) & _). apply (push_nothing _ _ _ Hs). }
  assert (H2 : concatenateDefaults (S depth) (VRef (LFun (next_fun s))) [] (primed s)
               = (Ok tt, primed s, [])).
  { unfold concatenateDefaults. rewrite (bind_ok_nil _ _ _ _ _ Hsec).
    cbn [mapM]. rewrite bind_ret_l. reflexivity. }
  assert (H3 : concatenatePrototypes (S depth) (VRef (LFun (next_fun s))) [] (primed s)
               = (Ok tt, primed s, [])).
  { unfold concatenatePrototypes.
    rewrite (bind_lift_ok _ _ _ _
               (get_prototype_composing depth _ _ _ (primed s) Hc)).
    cbn [mapM]. rewrite bind_ret_l. reflexivity. }
  unfold concatenate.
  rewrite (bind_ok_nil _ _ _ _ _ H1), (bind_ok_nil _ _ _ _ _ H2). exact H3.
Qed.

Lemma Deco_nothing depth s :
  well_formed s ->
  Deco (S depth) [] s = (Ok (VRef (LFun (next_fun s))), built s, []).
Proof.
  intros Hwf. rewrite Deco_prepared, (bind_ok_nil _ _ _ _ _
    (eq_trans (concatenate_prepared depth [] s Hwf) (concatenate_nothing depth s Hwf))).
  rewrite (bind_ok_nil _ _ _ _ _ (Object_freeze_object _ _)).
  assert (Hget : get (S depth) (update_object (LFun (next_fun s)) frozen (primed s))
                     (VRef (LFun (next_fun s))) "prototype"
                 = Ok (VRef (LObj (S (next_obj s))))).
  { unfold get, get_from, obj_at.
    rewrite lookup_update_eq, lookup_primed, decide_False by discriminate.
    rewrite prepared_factory. reflexivity. }
  fold frozen. rewrite (bind_lift_ok _ _ _ _ Hget).
  rewrite (bind_ok_nil _ _ _ _ _ (Object_freeze_object _ _)). reflexivity.
Qed.

Lemma built_factory s :
  heap (built s) !! LFun (next_fun s)
  = Some (Object (VRef (LObj (S (next_obj s))))
                 (<[KStr "defaults" := Property (VRef (LFun (S (S (S (next_fun s)))))) false]>
                    {[ KStr "prototype" := Property (VRef (LObj (S (next_obj s)))) false ]})
                 (Some CFactory) true).
Proof.
  unfold built. rewrite lookup_update_ne by discriminate.
  rewrite lookup_update_eq, lookup_primed, decide_False by discriminate.
  rewrite prepared_factory. reflexivity.
Qed.

Lemma built_table s :
  heap (built s) !! LObj (S (next_obj s))
  = Some (Object DecoPrototype
                 (<[KStr "defaults" := Property (VRef (LFun (S (S (next_fun s))))) false]>
                    {[ KStr "constructor" := Property (VRef (LFun (S (next_fun s)))) false ]})
                 None true).
Proof.
  unfold built. rewrite lookup_update_eq, lookup_update_ne by discriminate.
  rewrite lookup_primed, decide_False by loc_neq.
  rewrite prepared_table. reflexivity.
Qed.

Lemma built_constructor s :
  heap (built s) !! LFun (S (next_fun s))
  = Some (Object FunctionPrototype
                 {[ KStr "prototype" := Property (VRef (LObj (S (S (next_obj s))))) false ]}
                 (Some (CFactoryConstructor (VRef (LFun (next_fun s))))) false).
Proof.
  unfold built. rewrite !lookup_update_ne by loc_neq.
  rewrite lookup_primed, decide_False by discriminate.
  apply prepared_constructor.
Qed.

Lemma built_secret s :
  secrets (built s) !! LFun (next_fun s)
  = Some (Secret [] (VRef (LObj (S (S (S (next_obj s))))))).
Proof. unfold built, primed. simpl. apply lookup_insert_eq. Qed.

Lemma lookup_created p s l : allocated s l -> heap (created p s) !! l = heap s !! l.
Proof.
  intros Hl. unfold created. simpl. apply lookup_insert_ne. intros <-. simpl in Hl. lia.
Qed.

Lemma well_formed_built s : well_formed s -> well_formed (built s).
Proof.
  intros Hwf. unfold built. do 2 apply well_formed_update_object.
  apply well_formed_primed. exact Hwf.
Qed.

(** ** Calling a factory *)

Lemma run_factory depth user n f this parameters s :
  code_of s f = Some CFactory ->
  run depth user (S n) f this parameters s
  = untraced (factory depth (run depth user n) f this parameters s).
Proof.
  intros H. unfold code_of in H. cbn [run].
  destruct (obj_at s f) as [o|]; [|discriminate]. rewrite H. reflexivity.
Qed.

Lemma run_factoryConstructor depth user n f fa this parameters s :
  code_of s f = Some (CFactoryConstructor fa) ->
  run depth user (S n) f this parameters s
  = untraced (factoryConstructor depth (run depth user n) fa this parameters s).
Proof.
  intros H. unfold code_of in H. cbn [run].
  destruct (obj_at s f) as [o|]; [|discriminate]. rewrite H. reflexivity.
Qed.

Lemma code_of_allocated s v c : well_formed s -> code_of s v = Some c -> exists l, v = VRef l /\ allocated s l.
Proof.
  intros Hwf H. unfold code_of, obj_at in H. destruct v as [| | | | |l]; try discriminate.
  exists l. split; [reflexivity|]. apply (proj1 Hwf).
  destruct (heap s !! l); [eauto | discriminate].
Qed.

Lemma code_of_created p s v c :
  well_formed s -> code_of s v = Some c -> code_of (created p s) v = Some c.
Proof.
  intros Hwf H. destruct (code_of_allocated _ _ _ Hwf H) as (l & -> & Hl).
  unfold code_of, obj_at in *. rewrite lookup_created by exact Hl. exact H.
Qed.

Lemma isOrdinaryConstructor_isConstructor s f :
  isOrdinaryConstructor s f = true -> isConstructor s f = true.
Proof.
  unfold isOrdinaryConstructor, isConstructor.
  destruct (code_of s f) as [[]|]; congruence.
Qed.

(** [Reflect.construct] raises a TypeError unless both its target and its
    new target are constructors. *)
Lemma construct_not_constructor depth apply f parameters self s :
  isConstructor s f && isConstructor s self = false ->
  construct depth apply f parameters self s = (Throw TypeError, s, []).
Proof. intros H. unfold construct. rewrite bind_gets, H. reflexivity. Qed.

Lemma construct_new depth apply f parameters self s p :
  isOrdinaryConstructor s f = true ->
  isConstructor s self = true ->
  get depth s self "prototype" = Ok p ->
  construct depth apply f parameters self s =
  match body apply f (VRef (LObj (next_obj s))) parameters (created p s) with
  | (Ok r, s', t) => (Ok (if is_object r then r else VRef (LObj (next_obj s))), s', t)
  | (Throw e, s', t) => (Throw e, s', t)
  end.
Proof.
  intros Hf Hself Hp. unfold construct.
  rewrite bind_gets, (isOrdinaryConstructor_isConstructor _ _ Hf), Hself. cbn [andb negb].
  rewrite bind_gets.
  assert (Ha : alloc_object (if is_object p then p else ObjectPrototype) ∅ s
               = (Ok (VRef (LObj (next_obj s))), created p s, [])) by reflexivity.
  assert (Hgoal :
            (let! proto := lift (fun s0 => get depth s0 self "prototype") in
             let! o := alloc_object (if is_object proto then proto else ObjectPrototype) ∅ in
             let! r := body apply f o parameters in ret (if is_object r then r else o)) s
            = match body apply f (VRef (LObj (next_obj s))) parameters (created p s) with
              | (Ok r, s', t) => (Ok (if is_object r then r else VRef (LObj (next_obj s))), s', t)
              | (Throw e, s', t) => (Throw e, s', t)
              end).
  { rewrite (bind_lift_ok _ _ _ _ Hp). rewrite (bind_ok_nil _ _ _ _ _ Ha).
    unfold bind, ret.
    destruct (body apply f (VRef (LObj (next_obj s))) parameters (created p s))
      as [[[r|e] s'] t]; [|reflexivity].
    rewrite app_nil_r. reflexivity. }
  unfold isOrdinaryConstructor in Hf.
  destruct (code_of s f) as [[]|]; try discriminate; exact Hgoal.
Qed.

Lemma holds_iff s this self :
  holds s this self = true <->
  exists k q, own_props s this !! k = Some q /\ p_value q = self.
Proof.
  unfold holds. rewrite bool_decide_eq_true. unfold map_Exists. reflexivity.
Qed.

(** A call of a factory with a falsy receiver, or with a receiver that holds
    the factory under an own key, constructs. *)
Lemma factory_constructs depth apply self this parameters s p f :
  get depth s self "prototype" = Ok p ->
  get depth s p "constructor" = Ok f ->
  truthy this = false \/ (exists k q, own_props s this !! k = Some q /\ p_value q = self) ->
  factory depth apply self this parameters s = construct depth apply f parameters self s.
Proof.
  intros Hp Hf Hthis. unfold factory.
  rewrite (bind_lift_ok _ _ _ _ Hp), (bind_lift_ok _ _ _ _ Hf).
  destruct Hthis as [Ht|(k & q & Hk & Hq)].
  - rewrite Ht. reflexivity.
  - destruct (own_props_is_object _ _ _ _ Hk) as [l ->]. cbn [truthy negb is_object].
    rewrite bind_gets.
    assert (Hh : holds s (VRef l) self = true) by (apply holds_iff; eauto).
    rewrite Hh. reflexivity.
Qed.

(** When [factory.prototype.constructor] is the function the builder has
    installed, constructing it runs the pipeline on a new object whose
    prototype is the method table. *)
Lemma construct_pipeline depth user n self parameters s p f :
  well_formed s ->
  get (S depth) s self "prototype" = Ok p ->
  code_of s self = Some CFactory ->
  code_of s f = Some (CFactoryConstructor self) ->
  construct (S depth) (run (S depth) user (S n)) f parameters self s
  = match factoryConstructor (S depth) (run (S depth) user n) self
            (VRef (LObj (next_obj s))) parameters (created p s) with
    | (Ok r, s', _) =>
        (Ok (if is_object r then r else VRef (LObj (next_obj s))), s',
         [(f, VRef (LObj (next_obj s)), parameters)])
    | (Throw e, s', _) => (Throw e, s', [(f, VRef (LObj (next_obj s)), parameters)])
    end.
Proof.
  intros Hwf Hp Hself Hcode.
  rewrite (construct_new _ _ _ _ _ _ p); [| | |exact Hp].
  2:{ unfold isOrdinaryConstructor. rewrite Hcode. reflexivity. }
  2:{ unfold isConstructor. rewrite Hself. reflexivity. }
  unfold body.
  rewrite (run_factoryConstructor _ _ _ _ self _ _ _ (code_of_created p _ _ _ Hwf Hcode)).
  unfold untraced.
  destruct (factoryConstructor (S depth) (run (S depth) user n) self
              (VRef (LObj (next_obj s))) parameters (created p s)) as [[[r|e] s'] t];
    reflexivity.
Qed.

(** [f.apply(this, parameters)] for the function the builder has installed,
    whose [apply] is [Function.prototype.apply]: the pipeline is run on
    [this]. *)
Lemma invoke_pipeline depth user n self f this parameters s m :
  get depth s f "apply" = Ok m ->
  code_of s m = Some CApply ->
  code_of s f = Some (CFactoryConstructor self) ->
  invoke depth (run depth user (S n)) f this parameters s
  = match factoryConstructor depth (run depth user n) self this parameters s with
    | (r, s', _) => (r, s', [(f, this, parameters)])
    end.
Proof.
  intros Hm Hc Hcode.
  rewrite (invoke_native _ _ _ _ _ _ _ Hm Hc).
  2:{ unfold isCallable. rewrite Hcode. reflexivity. }
  unfold body. rewrite (run_factoryConstructor _ _ _ _ self _ _ _ Hcode).
  unfold untraced.
  destruct (factoryConstructor depth (run depth user n) self this parameters s)
    as [[r s'] t]. reflexivity.
Qed.

Lemma constructing_call depth user n self this parameters s p f :
  well_formed s ->
  get (S depth) s self "prototype" = Ok p ->
  get (S depth) s p "constructor" = Ok f ->
  code_of s self = Some CFactory ->
  code_of s f = Some (CFactoryConstructor self) ->
  truthy this = false \/ (exists k q, own_props s this !! k = Some q /\ p_value q = self) ->
  factory (S depth) (run (S depth) user (S n)) self this parameters s
  = match factoryConstructor (S depth) (run (S depth) user n) self
            (VRef (LObj (next_obj s))) parameters (created p s) with
    | (Ok r, s', _) =>
        (Ok (if is_object r then r else VRef (LObj (next_obj s))), s',
         [(f, VRef (LObj (next_obj s)), parameters)])
    | (Throw e, s', _) => (Throw e, s', [(f, VRef (LObj (next_obj s)), parameters)])
    end.
Proof.
  intros Hwf Hp Hf Hself Hcode Hthis.
  rewrite (factory_constructs _ _ _ _ _ _ _ _ Hp Hf Hthis).
  apply construct_pipeline; assumption.
Qed.

(** A plain call of the factory of no decorators: [Reflect.construct] makes
    the receiver, the pipeline has no initializer to apply to it, and the
    receiver is returned as it was made. *)
Lemma plain_call_of_nothing depth user n parameters s :
  well_formed s ->
  run (S depth) user (S (S n)) (VRef (LFun (next_fun s))) VUndefined parameters (built s)
  = (Ok (VRef (LObj (next_obj (built s)))), created (VRef (LObj (S (next_obj s)))) (built s)).
Proof.
  intros Hwf.
  pose proof (well_formed_built s Hwf) as Hwfb.
  assert (HF := built_factory s). assert (HP := built_table s).
  assert (HC := built_constructor s).
  set (F := VRef (LFun (next_fun s))) in *.
  set (P := VRef (LObj (S (next_obj s)))) in *.
  set (C := VRef (LFun (S (next_fun s)))) in *.
  assert (HgF : get (S depth) (built s) F "prototype" = Ok P).
  { unfold get, F, get_from, obj_at. rewrite HF. reflexivity. }
  assert (HgP : get (S depth) (built s) P "constructor" = Ok C).
  { unfold get, P, get_from, obj_at. rewrite HP. reflexivity. }
  assert (HcF : code_of (built s) F = Some CFactory).
  { unfold code_of, obj_at, F. rewrite HF. reflexivity. }
  assert (HcC : code_of (built s) C = Some (CFactoryConstructor F)).
  { unfold code_of, obj_at, C. rewrite HC. reflexivity. }
  rewrite (run_factory _ _ _ _ _ _ _ HcF).
  rewrite (constructing_call depth user n F VUndefined parameters (built s) P C
             Hwfb HgF HgP HcF HcC (or_introl eq_refl)).
  unfold factoryConstructor.
  assert (Hsec : secrets (created P (built s)) !! LFun (next_fun s)
                 = Some (Secret [] (VRef (LObj (S (S (S (next_obj s)))))))).
  { apply built_secret. }
  rewrite (bind_ok_nil _ _ _ _ _ (secrets_of_known _ _ _ Hsec)).
  cbn [constructors reduce]. unfold ret, untraced. reflexivity.
Qed.

(** ** C8: the three ways to call a factory *)

(** C8 (as amended).  A factory whose method table holds the [constructor]
    the builder has installed tells three shapes of call apart.  A call with
    no receiver, or with any falsy receiver, and a call whose receiver is an
    object that holds the factory under some own key, construct:
    [Reflect.construct] makes a new object, with no own property and the
    method table as its prototype, and the pipeline is run on it, so the
    initializers are folded over it; the call returns what the pipeline
    returns when that is an object, and the new object otherwise.  When the
    [constructor] of the method table is not a constructor, such a call
    raises a TypeError.  A call with any other receiver that is an object
    assigns the method table onto the receiver and applies the [constructor]
    of the method table to it, which runs the pipeline on the receiver, and
    returns what the pipeline returns.  A receiver that is a truthy primitive
    raises a TypeError. *)
Theorem factory_call_shapes :
  forall (depth : nat) (user : behaviours) (n : nat)
         (self this : value) (parameters : list value) (s : store) (p f : value),
    well_formed s ->
    get (S depth) s self "prototype" = Ok p ->
    get (S depth) s p "constructor" = Ok f ->
    code_of s self = Some CFactory ->
    (truthy this = false
     \/ (exists k q, own_props s this !! k = Some q /\ p_value q = self) ->
     factory (S depth) (run (S depth) user (S n)) self this parameters s
     = construct (S depth) (run (S depth) user (S n)) f parameters self s)
    /\
    (isConstructor s f = false ->
     construct (S depth) (run (S depth) user (S n)) f parameters self s
     = (Throw TypeError, s, []))
    /\
    (code_of s f = Some (CFactoryConstructor self) ->
     heap s !! LObj (next_obj s) = None
     /\ obj_at (created p s) (VRef (LObj (next_obj s)))
        = Some (Object (if is_object p then p else ObjectPrototype) ∅ None false)
     /\ construct (S depth) (run (S depth) user (S n)) f parameters self s
        = match factoryConstructor (S depth) (run (S depth) user n) self
                  (VRef (LObj (next_obj s))) parameters (created p s) with
          | (Ok r, s', _) =>
              (Ok (if is_object r then r else VRef (LObj (next_obj s))), s',
               [(f, VRef (LObj (next_obj s)), parameters)])
          | (Throw e, s', _) => (Throw e, s', [(f, VRef (LObj (next_obj s)), parameters)])
          end)
    /\
    (is_object this = true -> holds s this self = false ->
     factory (S depth) (run (S depth) user (S n)) self this parameters s
     = (let! _ := Assign this [p] in
        invoke (S depth) (run (S depth) user (S n)) f this parameters) s
     /\ forall s1 m,
          get (S depth) s1 f "apply" = Ok m ->
          code_of s1 m = Some CApply ->
          code_of s1 f = Some (CFactoryConstructor self) ->
          invoke (S depth) (run (S depth) user (S n)) f this parameters s1
          = match factoryConstructor (S depth) (run (S depth) user n) self this
                    parameters s1 with
            | (r, s', _) => (r, s', [(f, this, parameters)])
            end)
    /\
    (forall apply receiver s1,
        factoryConstructor (S depth) apply self receiver parameters s1
        = match secrets_of self s1 with
          | (Ok sec, s0, _) =>
              fold_left (pipeline_step (S depth) apply self parameters)
                        (constructors sec) (Ok receiver, s0, [])
          | (Throw e, s0, _) => (Throw e, s0, [])
          end)
    /\
    (truthy this = true -> is_object this = false ->
     factory (S depth) (run (S depth) user (S n)) self this parameters s
     = (Throw TypeError, s, [])).
Proof.
  intros depth user n self this parameters s p f Hwf Hp Hf Hself.
  repeat apply conj.
  - intros Hthis. apply (factory_constructs _ _ _ _ _ _ _ _ Hp Hf Hthis).
  - intros Hc. apply construct_not_constructor. rewrite Hc. reflexivity.
  - intros Hcode. repeat apply conj.
    + destruct (heap s !! LObj (next_obj s)) eqn:E; [|reflexivity].
      pose proof (proj1 Hwf (LObj (next_obj s)) (ex_intro _ _ E)) as Hlt. simpl in Hlt. lia.
    + unfold obj_at, created. simpl. apply lookup_insert_eq.
    + apply construct_pipeline; assumption.
  - intros Ho Hh. split.
    + destruct this; try discriminate.
      unfold factory. rewrite (bind_lift_ok _ _ _ _ Hp), (bind_lift_ok _ _ _ _ Hf).
      cbn [truthy negb is_object]. rewrite bind_gets, Hh.
      rewrite (bind_lift_ok _ _ _ _ Hp). reflexivity.
    + intros s1 m Hm Hc Hcode. apply (invoke_pipeline _ _ _ _ _ _ _ _ _ Hm Hc Hcode).
  - intros apply receiver s1. apply factoryConstructor_fold.
  - intros Ht Ho. unfold factory.
    rewrite (bind_lift_ok _ _ _ _ Hp), (bind_lift_ok _ _ _ _ Hf). rewrite Ht, Ho. reflexivity.
Qed.

(** C8, as the spec states it, fails.  The number 5 is an explicit receiver
    that does not hold the factory: the call [factory.call(5)] raises a
    TypeError instead of decorating it.  And the call [factory.call(o)] of
    [Deco(wrap, note)] on an object [o] does not return [o]. *)
Lemma other_receivers_are_not_all_decorated :
  match Demo.reggae loaded with
  | (Ok f, s, _) => outcome_of (Demo.called f (VNum 5) [] s) = Throw TypeError
  | _ => False
  end
  /\
  match Demo.wrap_then_note loaded with
  | (Ok (f, wrap, note, o), s, _) =>
      exists r, outcome_of (Demo.called f o [VStr "ping"] s) = Ok r /\ r <> o
  | _ => False
  end.
Proof.
  split; vm_compute; [reflexivity|]. eexists. split; [reflexivity | discriminate].
Qed.

Lemma well_formed_reggae_store : well_formed Demo.reggae_store.
Proof. apply well_formed_decide; vm_compute; reflexivity. Qed.

(** The hypotheses of [factory_call_shapes] hold of [Deco(genre)], whose
    plain call therefore constructs. *)
Lemma factory_call_shapes_witness :
  well_formed Demo.reggae_store
  /\ get Demo.depth Demo.reggae_store Demo.reggae_factory "prototype" = Ok Demo.reggae_prototype
  /\ get Demo.depth Demo.reggae_store Demo.reggae_prototype "constructor"
     = Ok Demo.reggae_constructor
  /\ code_of Demo.reggae_store Demo.reggae_factory = Some CFactory
  /\ factory Demo.depth (run Demo.depth Demo.user 6) Demo.reggae_factory VUndefined []
       Demo.reggae_store
     = construct Demo.depth (run Demo.depth Demo.user 6) Demo.reggae_constructor []
         Demo.reggae_factory Demo.reggae_store.
Proof.
  assert (H0 : well_formed Demo.reggae_store) by exact well_formed_reggae_store.
  assert (H1 : get Demo.depth Demo.reggae_store Demo.reggae_factory "prototype"
               = Ok Demo.reggae_prototype) by (vm_compute; reflexivity).
  assert (H2 : get Demo.depth Demo.reggae_store Demo.reggae_prototype "constructor"
               = Ok Demo.reggae_constructor) by (vm_compute; reflexivity).
  assert (H3 : code_of Demo.reggae_store Demo.reggae_factory = Some CFactory)
    by (vm_compute; reflexivity).
  split; [exact H0|]. split; [exact H1|]. split; [exact H2|]. split; [exact H3|].
  exact (proj1 (factory_call_shapes 7 Demo.user 5 Demo.reggae_factory VUndefined []
                  Demo.reggae_store Demo.reggae_prototype Demo.reggae_constructor
                  H0 H1 H2 H3)
               (or_introl eq_refl)).
Defined.

(** C8 on two examples.  A plain call of [Deco(genre)] returns a new object,
    on which the initializer has been run.  The method table of
    [Deco({ constructor () {} })] has been assigned the method as its
    [constructor]; a method is not a constructor, and a plain call of that
    factory raises a TypeError. *)
Example plain_calls :
  match (let! f := Demo.reggae in Demo.called f VUndefined []) loaded with
  | (Ok o, s, _) =>
      own_props s o !! KStr "genre" = Some (Property (VStr "reggae") true)
      /\ getPrototypeOf s o = Ok Demo.reggae_prototype
  | _ => False
  end
  /\ outcome_of (Demo.literal_call loaded) = Throw TypeError.
Proof. vm_compute. repeat split. Qed.

(** ** C10: the installed entries and the instances *)

(** The store [Deco] leaves when it returns: the store the composition has
    left, with the factory and its method table frozen. *)
Lemma Deco_built depth decorators s f s' t :
  well_formed s ->
  Deco (S depth) decorators s = (Ok f, s', t) ->
  f = VRef (LFun (next_fun s)) /\ t = []
  /\ exists s2,
       concatenate (S depth) (VRef (LFun (next_fun s))) decorators (primed s) = (Ok tt, s2, [])
       /\ s' = update_object (LObj (S (next_obj s))) frozen
                 (update_object (LFun (next_fun s)) frozen s2)
       /\ composing (LFun (next_fun s)) (LObj (S (S (S (next_obj s))))) (LObj (S (next_obj s))) s2
       /\ unchanged (fun l => allocated (primed s) l
                              /\ l <> LObj (S (S (S (next_obj s)))) /\ l <> LObj (S (next_obj s)))
                    (fun l => l <> LFun (next_fun s))
                    (primed s) s2
       /\ installed (LObj (S (next_obj s))) s2.
Proof.
  intros Hwf H.
  pose proof (Deco_frame _ _ _ _ _ _ Hwf H) as (Ht & _ & _ & Hv).
  destruct (Hv f eq_refl) as [-> _]. clear Hv. subst t.
  split; [reflexivity|]. split; [reflexivity|].
  rewrite Deco_prepared in H.
  destruct (concatenate (S depth) (VRef (LFun (next_fun s))) decorators (prepared s))
    as [[[u|e] s2] t2] eqn:Hcat.
  2:{ rewrite (bind_throw _ _ _ _ _ _ Hcat) in H. discriminate. }
  pose proof (Deco_installed _ _ _ _ _ _ Hwf Hcat) as Hi.
  destruct (Deco_concatenate _ _ _ _ _ _ Hwf Hcat) as (-> & Hc & Hu).
  rewrite (bind_ok_nil _ _ _ _ _ Hcat) in H.
  rewrite (bind_ok_nil _ _ _ _ _ (Object_freeze_object _ s2)) in H.
  fold frozen in H.
  assert (Hget : get (S depth) (update_object (LFun (next_fun s)) frozen s2)
                     (VRef (LFun (next_fun s))) "prototype"
                 = Ok (VRef (LObj (S (next_obj s))))).
  { unfold get, get_from, obj_at. rewrite lookup_update_eq.
    destruct Hc as (_ & _ & (oF & q & HoF & Hq & Hqv) & _).
    rewrite HoF. simpl. rewrite Hq, Hqv. reflexivity. }
  rewrite (bind_lift_ok _ _ _ _ Hget) in H.
  rewrite (bind_ok_nil _ _ _ _ _ (Object_freeze_object _ _)) in H.
  fold frozen in H. inversion H; subst s'.
  exists s2. rewrite <- (concatenate_prepared _ _ _ Hwf). destruct u. auto.
Qed.


Lemma enumerable_own_lookup s v k :
  enumerable_own s v !! k
  = match own_props s v !! k with
    | Some q => if p_enumerable q then Some q else None
    | None => None
    end.
Proof.
  unfold enumerable_own.
  destruct (own_props s v !! k) as [q|] eqn:E.
  - destruct (p_enumerable q) eqn:Eq.
    + apply map_lookup_filter_Some. split; [exact E | exact Eq].
    + destruct (filter _ (own_props s v) !! k) as [q'|] eqn:E'; [|reflexivity].
      apply map_lookup_filter_Some in E'. destruct E' as [E1 E2].
      rewrite E in E1. inversion E1; subst. simpl in E2. congruence.
  - destruct (filter _ (own_props s v) !! k) as [q'|] eqn:E'; [|reflexivity].
    apply map_lookup_filter_Some in E'. destruct E' as [E1 _]. congruence.
Qed.

(** Whether a value is bare depends on its two entries only. *)
Lemma bare_same s s' v :
  own_props s' v !! KStr "constructor" = own_props s v !! KStr "constructor" ->
  own_props s' v !! KStr "defaults" = own_props s v !! KStr "defaults" ->
  bare s v -> bare s' v.
Proof.
  intros H1 H2 [B1 B2]. unfold bare. rewrite !enumerable_own_lookup in *.
  rewrite H1, H2. split; assumption.
Qed.

Lemma bare_primitive s v : is_object v = false -> bare s v.
Proof. intros H. unfold bare. rewrite (enumerable_own_primitive s v H). split; apply lookup_empty. Qed.

(** The decimal numeral of a number does not start with a letter. *)
Lemma pretty_N_go_head x s a s' :
  (forall d, pretty_N_char d <> a) -> s <> String a s' -> pretty_N_go x s <> String a s'.
Proof.
  intros Ha. revert s. induction (N.lt_wf_0 x) as [x _ IH]; intros s Hs.
  assert (x = 0 \/ 0 < x)%N as [->|Hx] by lia.
  - rewrite pretty_N_go_0. exact Hs.
  - rewrite pretty_N_go_step by exact Hx. apply IH.
    + apply N.div_lt; [exact Hx | reflexivity].
    + intros E. inversion E as [[E1 E2]]. apply (Ha _ E1).
Qed.

Lemma index_not_a_word i a s' :
  (forall d, pretty_N_char d <> a) -> index i <> KStr (String a s').
Proof.
  intros Ha E. unfold index in E. inversion E as [E']. clear E.
  unfold pretty, pretty_nat, pretty, pretty_N in E'.
  destruct (decide (N.of_nat i = 0%N)).
  - inversion E' as [[E1 E2]]. apply (Ha 0%N). exact E1.
  - revert E'. apply pretty_N_go_head; [exact Ha | discriminate].
Qed.

Lemma array_table_word xs a s' :
  (forall d, pretty_N_char d <> a) ->
  KStr (String a s') <> KStr "length" ->
  array_table xs !! KStr (String a s') = None.
Proof.
  intros Ha Hl. unfold array_table. rewrite lookup_insert_ne by congruence.
  apply not_elem_of_list_to_map_1. intros Hin.
  apply list_elem_of_fmap in Hin. destruct Hin as ([k q] & Hk & Hin). simpl in Hk. subst k.
  apply elem_of_lookup_imap in Hin. destruct Hin as (i & x & Hix & _).
  injection Hix as Hi _. apply (index_not_a_word i a s' Ha). unfold index. rewrite Hi. reflexivity.
Qed.

Lemma array_table_bare xs :
  array_table xs !! KStr "constructor" = None /\ array_table xs !! KStr "defaults" = None.
Proof.
  split; apply array_table_word; try discriminate;
    intros d; unfold pretty_N_char; repeat case_match; discriminate.
Qed.

Lemma bare_new_object ob s v :
  o_props ob !! KStr "constructor" = None ->
  o_props ob !! KStr "defaults" = None ->
  bare s v -> bare (new_object ob s) v.
Proof.
  intros H1 H2 Hb.
  destruct (decide (v = VRef (LObj (next_obj s)))) as [->|Hne].
  - unfold bare. rewrite !enumerable_own_lookup.
    unfold own_props, obj_at, new_object. simpl. rewrite lookup_insert_eq. simpl.
    rewrite H1, H2. split; reflexivity.
  - apply (bare_same s); [| |exact Hb];
      unfold own_props, obj_at, new_object; destruct v as [| | | | |l]; try reflexivity;
      simpl; rewrite lookup_insert_ne by congruence; reflexivity.
Qed.

(** [Assign] with one source changes no frozen object. *)
Lemma Assign_keeps_frozen target src s r s' t l ob :
  heap s !! l = Some ob -> o_frozen ob = true ->
  Assign target [src] s = (r, s', t) ->
  heap s' !! l = Some ob.
Proof.
  intros Hl Hfz H.
  destruct target as [| |b|z|str|l0]; try (inversion H; subst; exact Hl).
  unfold Assign in H. cbn [iterM] in H. unfold bind, ret, assign_source in H.
  destruct (heap s !! l0) as [ob0|] eqn:Hl0.
  - destruct (o_frozen ob0 && negb (bool_decide (enumerable_own s src = ∅))) eqn:Hc.
    + inversion H; subst. exact Hl.
    + inversion H; subst.
      destruct (decide (l0 = l)) as [->|Hne].
      * rewrite lookup_update_eq, Hl. rewrite Hl in Hl0. inversion Hl0; subst ob0.
        rewrite Hfz in Hc. cbn [andb] in Hc. apply negb_false_iff in Hc.
        apply bool_decide_eq_true in Hc. rewrite Hc. simpl. f_equal.
        unfold with_props. rewrite assign_table_empty. destruct ob. reflexivity.
      * rewrite lookup_update_ne by exact Hne. exact Hl.
  - inversion H; subst. exact Hl.
Qed.

Lemma Assign_well_formed target sources s r s' t :
  well_formed s -> Assign target sources s = (r, s', t) -> well_formed s'.
Proof.
  intros Hwf H. destruct (Assign_frame target sources s) as (r0 & tabs & Hf).
  rewrite Hf in H. inversion H; subst.
  destruct target; try exact Hwf. apply well_formed_update. exact Hwf.
Qed.

(** [Assign] of a source that has no enumerable [constructor] or [defaults]
    leaves every value bare that was. *)
Lemma Assign_bare target src s r s' t :
  enumerable_own s src !! KStr "constructor" = None ->
  enumerable_own s src !! KStr "defaults" = None ->
  Assign target [src] s = (r, s', t) ->
  forall v, bare s v -> bare s' v.
Proof.
  intros H1 H2 H v Hb.
  destruct (decide (v = target)) as [->|Hne].
  - apply (bare_same s); [| |exact Hb].
    + apply (Assign_keeps_key _ _ _ _ _ _ _ H1 H).
    + apply (Assign_keeps_key _ _ _ _ _ _ _ H2 H).
  - destruct (Assign_frame target [src] s) as (r0 & tabs & Hf).
    rewrite Hf in H. inversion H; subst.
    destruct target as [| | | | |l]; try exact Hb.
    apply (bare_same s); [| |exact Hb];
      unfold assign_store; rewrite own_props_update_ne by exact Hne; reflexivity.
Qed.

Section Instances.

Variable depth : nat.
Variable apply : value -> value -> list value -> store -> outcome value * store.
Hypothesis Hdiscreet : discreet apply.

(** The factory and its method table, both frozen. *)
Variables (lF lP : loc) (oF oP : object) (q : property).
Hypothesis HfzF : o_frozen oF = true.
Hypothesis HfzP : o_frozen oP = true.
Hypothesis Hq : o_props oF !! KStr "prototype" = Some q.
Hypothesis Hqv : p_value q = VRef lP.
Hypothesis Hctor : hidden (o_props oP) "constructor".
Hypothesis Hdefs : hidden (o_props oP) "defaults".

#[local] Abbreviation kept := (kept lF lP oF oP).

Lemma kept_prototype s : kept s -> get (S depth) s (VRef lF) "prototype" = Ok (VRef lP).
Proof.
  intros (_ & HF & _). unfold get, get_from, obj_at. rewrite HF, Hq, Hqv. reflexivity.
Qed.

Lemma kept_table s :
  kept s ->
  enumerable_own s (VRef lP) !! KStr "constructor" = None
  /\ enumerable_own s (VRef lP) !! KStr "defaults" = None.
Proof.
  intros (_ & _ & HP).
  split; apply hidden_not_enumerable; unfold own_props, obj_at; rewrite HP; assumption.
Qed.

Lemma body_discreet g this args s r s' t :
  kept s ->
  body apply g this args s = (r, s', t) ->
  kept s' /\ (forall v, bare s v -> bare s' v) /\ (forall v, r = Ok v -> bare s' v).
Proof.
  intros (Hwf & HF & HP) H. unfold body in H.
  destruct (apply g this args s) as [r0 s0] eqn:Ha. inversion H; subst.
  destruct (Hdiscreet _ _ _ _ _ _ Ha Hwf) as (Hwf' & Hfz & Hb & Hr).
  split; [|split; assumption].
  split; [exact Hwf'|]. split; apply Hfz; assumption.
Qed.

Lemma Call_discreet g this args s r s' t :
  kept s ->
  Call apply g this args s = (r, s', t) ->
  kept s' /\ (forall v, bare s v -> bare s' v) /\ (forall v, r = Ok v -> bare s' v).
Proof.
  intros Hk H. unfold Call in H. destruct (isCallable s g).
  - apply (body_discreet _ _ _ _ _ _ _ Hk H).
  - inversion H; subst. split; [exact Hk|]. split; [auto | discriminate].
Qed.

Lemma kept_new_array xs s :
  kept s -> kept (new_object (Object ArrayPrototype (array_table xs) None false) s).
Proof.
  intros (Hwf & HF & HP). split; [apply well_formed_new_object; exact Hwf|].
  split; (rewrite lookup_new_object; [assumption | apply (proj1 Hwf); eauto]).
Qed.

(** [f.apply(o, parameters)] in a discreet environment. *)
Lemma invoke_discreet f o parameters s r s' t :
  kept s ->
  invoke (S depth) apply f o parameters s = (r, s', t) ->
  kept s' /\ (forall v, bare s v -> bare s' v) /\ (forall v, r = Ok v -> bare s' v).
Proof.
  intros Hk H. unfold invoke in H.
  destruct (get (S depth) s f "apply") as [m|e] eqn:Hm.
  2:{ rewrite (bind_lift_throw _ _ _ _ Hm) in H. inversion H; subst.
      split; [exact Hk|]. split; [auto | discriminate]. }
  rewrite (bind_lift_ok _ _ _ _ Hm), bind_gets in H.
  destruct (bool_decide (code_of s m = Some CApply)).
  - apply (Call_discreet _ _ _ _ _ _ _ Hk H).
  - rewrite bind_gets in H. destruct (isCallable s m).
    + assert (Ha : alloc_array parameters s
                   = (Ok (VRef (LObj (next_obj s))),
                      new_object (Object ArrayPrototype (array_table parameters) None false) s,
                      [])) by reflexivity.
      rewrite (bind_ok_nil _ _ _ _ _ Ha) in H.
      destruct (Call_discreet _ _ _ _ _ _ _ (kept_new_array parameters s Hk) H)
        as (Hk' & Hb & Hr).
      split; [exact Hk'|]. split; [|exact Hr].
      intros v Hv. apply Hb. destruct (array_table_bare parameters) as [A1 A2].
      apply bare_new_object; assumption.
    + inversion H; subst. split; [exact Hk|]. split; [auto | discriminate].
Qed.

(** One step of the pipeline keeps the accumulator bare. *)
Lemma pipeline_step_discreet parameters o s t f r s' t' :
  kept s -> bare s o ->
  pipeline_step (S depth) apply (VRef lF) parameters (Ok o, s, t) f = (r, s', t') ->
  kept s' /\ (forall v, r = Ok v -> bare s' v).
Proof.
  intros Hk Ho H. unfold pipeline_step in H.
  destruct (invoke (S depth) apply f o parameters s) as [[[next|e] s1] t1] eqn:Hinv.
  2:{ destruct (invoke_discreet _ _ _ _ _ _ _ Hk Hinv) as (Hk1 & _ & _).
      inversion H; subst. split; [exact Hk1 | discriminate]. }
  destruct (invoke_discreet _ _ _ _ _ _ _ Hk Hinv) as (Hk1 & Hb1 & Hr1).
  destruct (strict_eq next VUndefined).
  { inversion H; subst. split; [exact Hk1|]. intros v Hv. inversion Hv; subst. apply Hb1, Ho. }
  destruct (strict_eq next o).
  { inversion H; subst. split; [exact Hk1|]. intros v Hv. inversion Hv; subst. apply Hb1, Ho. }
  rewrite (kept_prototype _ Hk1) in H.
  destruct (Assign next [VRef lP] s1) as [[[u|e] s2] t2] eqn:Ha.
  - inversion H; subst.
    destruct Hk1 as (Hwf1 & HF1 & HP1).
    destruct (kept_table s1 (conj Hwf1 (conj HF1 HP1))) as [E1 E2].
    split.
    + split; [apply (Assign_well_formed _ _ _ _ _ _ Hwf1 Ha)|].
      split; [apply (Assign_keeps_frozen _ _ _ _ _ _ _ _ HF1 HfzF Ha)
             |apply (Assign_keeps_frozen _ _ _ _ _ _ _ _ HP1 HfzP Ha)].
    + intros v Hv. inversion Hv; subst.
      apply (Assign_bare _ _ _ _ _ _ E1 E2 Ha). apply Hr1. reflexivity.
  - inversion H; subst.
    destruct Hk1 as (Hwf1 & HF1 & HP1).
    split; [|discriminate].
    split; [apply (Assign_well_formed _ _ _ _ _ _ Hwf1 Ha)|].
    split; [apply (Assign_keeps_frozen _ _ _ _ _ _ _ _ HF1 HfzF Ha)
           |apply (Assign_keeps_frozen _ _ _ _ _ _ _ _ HP1 HfzP Ha)].
Qed.

Lemma pipeline_discreet parameters fs : forall o s t r s' t',
  kept s -> bare s o ->
  fold_left (pipeline_step (S depth) apply (VRef lF) parameters) fs (Ok o, s, t) = (Ok r, s', t') ->
  kept s' /\ bare s' r.
Proof.
  induction fs as [|f fs IH]; intros o s t r s' t' Hk Ho H; cbn [fold_left] in H.
  - inversion H; subst. split; assumption.
  - destruct (pipeline_step (S depth) apply (VRef lF) parameters (Ok o, s, t) f)
      as [[[o1|e] s1] t1] eqn:Hstep.
    + destruct (pipeline_step_discreet _ _ _ _ _ _ _ _ Hk Ho Hstep) as (Hk1 & Hb1).
      apply (IH _ _ _ _ _ _ Hk1 (Hb1 _ eq_refl) H).
    + rewrite pipeline_step_throw in H. discriminate.
Qed.

(** The pipeline of a factory, run in a discreet environment on a bare
    receiver, returns a bare value. *)
Lemma factoryConstructor_discreet this parameters s sec r s' t :
  kept s -> secrets s !! lF = Some sec -> bare s this ->
  factoryConstructor (S depth) apply (VRef lF) this parameters s = (Ok r, s', t) ->
  kept s' /\ bare s' r.
Proof.
  intros Hk Hsec Hb H. rewrite factoryConstructor_fold, (secrets_of_known _ _ _ Hsec) in H.
  apply (pipeline_discreet _ _ _ _ _ _ _ _ Hk Hb H).
Qed.

End Instances.

Lemma secrets_of_unchanged l s sec :
  secrets_of (VRef l) s = (Ok sec, s, []) -> secrets s !! l = Some sec.
Proof.
  unfold secrets_of. destruct (secrets s !! l) as [sec'|] eqn:E.
  - intros H. inversion H. reflexivity.
  - unfold bind, alloc_object, modify, ret. simpl. intros H. inversion H as [[Hs Hn]].
    exfalso. clear -Hn. assert (Hx : next_obj s = next_obj s) by reflexivity.
    rewrite <- Hn in Hx at 1. simpl in Hx. lia.
Qed.


Lemma discreet_all_genre : discreet Demo.all_genre.
Proof.
  intros g this args s r s' H Hwf.
  unfold Demo.all_genre, untraced, bind, ret, set_prop in H.
  assert (Hsame : (r, s') = (Throw TypeError, s) ->
                  well_formed s'
                  /\ (forall l ob, heap s !! l = Some ob -> o_frozen ob = true ->
                                   heap s' !! l = Some ob)
                  /\ (forall v, bare s v -> bare s' v)
                  /\ (forall v, r = Ok v -> bare s' v)).
  { intros E. inversion E; subst. split; [exact Hwf|]. split; [auto|]. split; [auto|].
    intros v Hv. discriminate. }
  destruct this as [| | | | |l]; try (simpl in H; apply Hsame; symmetry; exact H).
  destruct (heap s !! l) as [ob|] eqn:El; [|simpl in H; apply Hsame; symmetry; exact H].
  destruct (o_frozen ob) eqn:Ef; [simpl in H; apply Hsame; symmetry; exact H|].
  simpl in H. inversion H; subst. clear H Hsame.
  split; [apply well_formed_update; exact Hwf|].
  split.
  { intros l' ob' Hl' Hfz. rewrite lookup_update_ne; [exact Hl'|].
    intros ->. rewrite El in Hl'. inversion Hl'; subst. congruence. }
  split.
  - intros v Hb. apply (bare_same s); [| |exact Hb];
      (destruct (decide (v = VRef l)) as [->|Hne];
       [unfold own_props, obj_at; rewrite lookup_update_eq, El; simpl;
        rewrite lookup_insert_ne by discriminate; reflexivity
       |rewrite own_props_update_ne by exact Hne; reflexivity]).
  - intros v Hv. inversion Hv; subst. apply bare_primitive. reflexivity.
Qed.


(** C10 on two more examples: a plain call of [Deco(genre)] makes an
    instance whose only own property is that [genre]; a plain call of
    [Deco()] makes one that has none. *)
Example instances_have_no_installed_entry :
  match (let! f := Demo.reggae in Demo.called f VUndefined []) loaded with
  | (Ok o, s, _) =>
      own_props s o = {[ KStr "genre" := Property (VStr "reggae") true ]}
      /\ get Demo.depth s o "constructor" = Ok Demo.reggae_constructor
  | _ => False
  end
  /\
  match (let! f := Deco Demo.depth [] in Demo.called f VUndefined []) loaded with
  | (Ok o, s, _) => own_props s o = ∅ /\ isFunction s o = false
  | _ => False
  end.
Proof. vm_compute. repeat split. Qed.

(** ** Flattening a prototype chain *)

(** With enough links allowed, [chain] returns the ancestry. *)
Lemma chain_from_enough s ancestors : forall n p,
  ancestry s p ancestors -> length ancestors <= n -> chain_from n s p = Ok ancestors.
Proof.
  induction ancestors as [|a rest IH]; intros n p Ha Hn; cbn [ancestry] in Ha.
  - destruct n; cbn [chain_from]; rewrite Ha; reflexivity.
  - destruct Ha as (-> & Ht & q & Hq & Hrest).
    destruct n as [|n]; [simpl in Hn; lia|].
    cbn [chain_from]. rewrite Ht, Hq. cbn [negb].
    rewrite (IH n q Hrest) by (simpl in Hn; lia). reflexivity.
Qed.

Lemma winner_app k tabs1 tabs2 :
  winner k (tabs1 ++ tabs2)
  = match winner k tabs2 with Some p => Some p | None => winner k tabs1 end.
Proof.
  induction tabs1 as [|t tabs1 IH]; cbn [app winner].
  - destruct (winner k tabs2); reflexivity.
  - rewrite IH. destruct (winner k tabs2); reflexivity.
Qed.

Lemma winner_rev k tabs : winner k (rev tabs) = nearest k tabs.
Proof.
  induction tabs as [|t tabs IH]; [reflexivity|].
  cbn [rev nearest]. rewrite winner_app. cbn [winner].
  destruct (t !! k); [reflexivity | exact IH].
Qed.

Lemma enumerable_own_new s t :
  (forall k p, t !! k = Some p -> p_enumerable p = true) ->
  enumerable_own (copied t s) (VRef (LObj (next_obj s))) = t.
Proof.
  intros Ht. unfold enumerable_own, own_props, obj_at, copied. simpl.
  rewrite lookup_insert_eq. simpl.
  apply map_eq. intros k.
  destruct (t !! k) as [p|] eqn:E.
  - apply map_lookup_filter_Some. split; [exact E | exact (Ht k p E)].
  - destruct (filter _ t !! k) as [p|] eqn:E'; [|reflexivity].
    apply map_lookup_filter_Some in E'. destruct E' as [E' _]. congruence.
Qed.

Lemma lookup_copied t s l : allocated s l -> heap (copied t s) !! l = heap s !! l.
Proof.
  intros Hl. unfold copied. simpl. apply lookup_insert_ne. intros <-. simpl in Hl. lia.
Qed.

Lemma flatten_ancestry depth s p ancestors :
  well_formed s ->
  ancestry s p ancestors ->
  Forall (present s) ancestors ->
  length ancestors <= depth ->
  flatten depth p s
  = (Ok (VRef (LObj (next_obj s))),
     copied (fold_left assign_table (map (enumerable_own s) (rev ancestors)) ∅) s, []).
Proof.
  intros Hwf Ha Hp Hn. unfold flatten.
  rewrite (bind_lift_ok _ _ _ _ (chain_from_enough s ancestors depth p Ha Hn)).
  apply Copy_explicit.
  apply List.Forall_rev.
  eapply List.Forall_impl; [|exact Hp]. intros v Hv. apply present_not_fresh; assumption.
Qed.

(** Composing one decorator that is a function: the flattened chain of its
    [prototype] is made, and assigned onto the method table. *)
Lemma concatenatePrototypes_function depth lF lD lP s d p ancestors :
  composing lF lD lP s ->
  isFunction s d = true ->
  get (S depth) s d "prototype" = Ok p ->
  ancestry s p ancestors ->
  Forall (present s) ancestors ->
  length ancestors <= S depth ->
  concatenatePrototypes (S depth) (VRef lF) [d] s
  = (Ok tt,
     assign_store lP [fold_left assign_table (map (enumerable_own s) (rev ancestors)) ∅]
       (copied (fold_left assign_table (map (enumerable_own s) (rev ancestors)) ∅) s),
     []).
Proof.
  intros Hc Hfn Hget Ha Hp Hn.
  pose proof (get_prototype_composing depth lF lD lP s Hc) as HP.
  destruct (composing_allocated _ _ _ _ Hc) as (_ & _ & HaP).
  pose proof Hc as (Hwf & _ & _ & _ & (oP & HoP & HfP) & _).
  set (merged := fold_left assign_table (map (enumerable_own s) (rev ancestors)) ∅).
  unfold concatenatePrototypes.
  rewrite (bind_lift_ok _ _ _ _ HP).
  assert (Hd : prototype_of (S depth) d s
               = (Ok (VRef (LObj (next_obj s))), copied merged s, [])).
  { rewrite prototype_of_view. unfold methods_view. rewrite Hfn, Hget.
    unfold chain. rewrite (chain_from_enough s ancestors (S depth) p Ha Hn).
    apply Copy_explicit. apply List.Forall_rev.
    eapply List.Forall_impl; [|exact Hp]. intros v Hv. apply present_not_fresh; assumption. }
  rewrite (bind_ok_nil _ _ _ _ _ (mapM_one _ _ _ _ _ Hd)).
  assert (HoP' : heap (copied merged s) !! lP = Some oP)
    by (rewrite lookup_copied by exact HaP; exact HoP).
  assert (Hne : Forall (fun v => v <> VRef lP) [VRef (LObj (next_obj s))]).
  { repeat constructor. intros E. inversion E; subst. simpl in HaP. lia. }
  rewrite (bind_ok_nil _ _ _ _ _ (Assign_unfrozen lP _ _ _ HoP' HfP Hne)).
  cbn [map]. rewrite enumerable_own_new; [reflexivity|].
  intros k q Hq. unfold merged in Hq. rewrite merged_lookup in Hq.
  apply (winner_enumerable _ _ _ _ Hq).
Qed.

(** ** C6: composing in one call and in two *)

(** *** What the composition reads does not change while it composes *)

Section Stability.

Variables no nf : nat.
Variable r : store.
Hypothesis r_closed : closed_below no nf r.

Lemma closed_proto l ob :
  below no nf l -> heap r !! l = Some ob -> value_below no nf (o_proto ob).
Proof. intros Hl Hob. exact (proj1 (r_closed l ob Hob Hl)). Qed.

Lemma closed_prop l ob k q :
  below no nf l -> heap r !! l = Some ob -> o_props ob !! k = Some q ->
  value_below no nf (p_value q).
Proof. intros Hl Hob Hq. exact (proj2 (r_closed l ob Hob Hl) k q Hq). Qed.

Lemma get_from_below k : forall n v w,
  value_below no nf v -> get_from n r v k = Ok w -> value_below no nf w.
Proof.
  induction n as [|n IH]; intros v w Hv H; cbn [get_from] in H; [discriminate|].
  destruct v as [| | | | |l]; simpl in H; try (inversion H; subst; exact I).
  destruct (heap r !! l) as [ob|] eqn:Hob; [|inversion H; subst; exact I].
  destruct (o_props ob !! k) as [q|] eqn:Hq.
  - inversion H; subst. apply (closed_prop l ob k q Hv Hob Hq).
  - apply (IH (o_proto ob) w); [apply (closed_proto l ob Hv Hob) | exact H].
Qed.

Lemma get_below depth v k w :
  value_below no nf v -> get depth r v k = Ok w -> value_below no nf w.
Proof.
  intros Hv H. destruct v; simpl in H; try discriminate; try (inversion H; subst; exact I).
  apply (get_from_below k depth _ w Hv H).
Qed.

Lemma chain_from_below : forall n v c,
  value_below no nf v -> chain_from n r v = Ok c -> Forall (value_below no nf) c.
Proof.
  induction n as [|n IH]; intros v c Hv H; cbn [chain_from] in H.
  - destruct (negb (truthy v)); [inversion H; constructor | discriminate].
  - destruct (negb (truthy v)); [inversion H; constructor|].
    destruct (getPrototypeOf r v) as [p|e] eqn:Hp; [|discriminate].
    destruct (chain_from n r p) as [rest|e] eqn:Hrest; [|discriminate].
    inversion H; subst. constructor; [exact Hv|].
    apply (IH p rest); [|exact Hrest].
    destruct v as [| | | | |l]; try discriminate. simpl in Hp.
    destruct (heap r !! l) as [ob|] eqn:Hob; inversion Hp; subst; [|exact I].
    apply (closed_proto l ob Hv Hob).
Qed.

Variable s : store.
Hypothesis s_agrees : agree_below no nf r s.

Lemma obj_at_agree v : value_below no nf v -> obj_at s v = obj_at r v.
Proof. destruct v; try reflexivity. simpl. apply s_agrees. Qed.

Lemma own_props_agree v : value_below no nf v -> own_props s v = own_props r v.
Proof. intros Hv. unfold own_props. rewrite (obj_at_agree v Hv). reflexivity. Qed.

Lemma enumerable_own_agree v : value_below no nf v -> enumerable_own s v = enumerable_own r v.
Proof. intros Hv. unfold enumerable_own. rewrite (own_props_agree v Hv). reflexivity. Qed.

Lemma isFunction_agree v : value_below no nf v -> isFunction s v = isFunction r v.
Proof. intros Hv. unfold isFunction. rewrite (obj_at_agree v Hv). reflexivity. Qed.

Lemma isClass_agree v : value_below no nf v -> isClass s v = isClass r v.
Proof.
  intros Hv. unfold isClass, source_starts_with_class, code_of.
  rewrite (isFunction_agree v Hv), (own_props_agree v Hv), (obj_at_agree v Hv). reflexivity.
Qed.

Lemma hasOwnProperty_agree v k :
  value_below no nf v -> hasOwnProperty s v k = hasOwnProperty r v k.
Proof. intros Hv. unfold hasOwnProperty. rewrite (own_props_agree v Hv). reflexivity. Qed.

Lemma getPrototypeOf_agree v :
  value_below no nf v -> getPrototypeOf s v = getPrototypeOf r v.
Proof. intros Hv. unfold getPrototypeOf. rewrite (obj_at_agree v Hv). reflexivity. Qed.

Lemma getPrototypeOf_below v p :
  value_below no nf v -> getPrototypeOf r v = Ok p -> value_below no nf p.
Proof.
  intros Hv H. destruct v as [| | | | |l]; try discriminate. simpl in H.
  destruct (heap r !! l) as [ob|] eqn:Hob; inversion H; subst; [|exact I].
  apply (closed_proto l ob Hv Hob).
Qed.

Lemma get_from_agree k : forall n v,
  value_below no nf v -> get_from n s v k = get_from n r v k.
Proof.
  induction n as [|n IH]; intros v Hv; cbn [get_from]; [reflexivity|].
  rewrite (obj_at_agree v Hv).
  destruct (obj_at r v) as [ob|] eqn:Hob; [|reflexivity].
  destruct (o_props ob !! k); [reflexivity|].
  apply IH. destruct v as [| | | | |l]; try discriminate.
  apply (closed_proto l ob Hv Hob).
Qed.

Lemma get_agree depth v k : value_below no nf v -> get depth s v k = get depth r v k.
Proof.
  intros Hv. destruct v; try reflexivity. apply (get_from_agree k depth _ Hv).
Qed.

Lemma chain_from_agree : forall n v,
  value_below no nf v -> chain_from n s v = chain_from n r v.
Proof.
  induction n as [|n IH]; intros v Hv; cbn [chain_from]; [reflexivity|].
  destruct (negb (truthy v)); [reflexivity|].
  rewrite (getPrototypeOf_agree v Hv).
  destruct (getPrototypeOf r v) as [p|e] eqn:Hp; [|reflexivity].
  rewrite (IH p (getPrototypeOf_below v p Hv Hp)). reflexivity.
Qed.

Lemma initializer_view_agree depth d :
  value_below no nf d -> initializer_view depth s d = initializer_view depth r d.
Proof.
  intros Hd. unfold initializer_view.
  rewrite (hasOwnProperty_agree d _ Hd), (get_agree depth d (KStr "constructor") Hd),
    (get_agree depth d (KStr "prototype") Hd), (isFunction_agree d Hd), (isClass_agree d Hd).
  destruct (hasOwnProperty r d "constructor") as [[|]|e]; try reflexivity.
  destruct (isFunction r d && negb (isClass r d)); [|reflexivity].
  destruct (get depth r d "prototype") as [p|e] eqn:Hp; [|reflexivity].
  rewrite (get_agree depth p _ (get_below depth d _ p Hd Hp)). reflexivity.
Qed.

Lemma initializer_view_below depth d v :
  value_below no nf d -> initializer_view depth r d = Ok (Some v) -> value_below no nf v.
Proof.
  intros Hd. unfold initializer_view.
  destruct (hasOwnProperty r d "constructor") as [[|]|e]; try discriminate.
  - destruct (get depth r d "constructor") as [w|e] eqn:Hw; [|discriminate].
    intros H. inversion H; subst. apply (get_below depth d _ v Hd Hw).
  - destruct (isFunction r d && negb (isClass r d)).
    + destruct (get depth r d "prototype") as [p|e] eqn:Hp; [|discriminate].
      destruct (negb (truthy p)).
      * intros H. inversion H; subst. exact Hd.
      * destruct (get depth r p "constructor") as [w|e] eqn:Hw; [|discriminate].
        intros H. inversion H; subst.
        apply (get_below depth p _ v (get_below depth d _ p Hd Hp) Hw).
    + destruct (isClass r d); [discriminate|].
      intros H. inversion H; subst. exact I.
Qed.

Lemma defaults_view_agree depth d :
  value_below no nf d -> defaults_view depth s d = defaults_view depth r d.
Proof.
  intros Hd. unfold defaults_view.
  rewrite (hasOwnProperty_agree d _ Hd), (get_agree depth d _ Hd). reflexivity.
Qed.

Lemma defaults_view_below depth d v :
  value_below no nf d -> defaults_view depth r d = Ok v -> value_below no nf v.
Proof.
  intros Hd. unfold defaults_view.
  destruct (hasOwnProperty r d "defaults") as [[|]|e]; try discriminate.
  - apply (get_below depth d _ v Hd).
  - intros H. inversion H; subst. exact I.
Qed.

Lemma methods_view_agree depth d :
  value_below no nf d -> methods_view depth s d = methods_view depth r d.
Proof.
  intros Hd. unfold methods_view, chain.
  rewrite (isFunction_agree d Hd), (get_agree depth d _ Hd).
  destruct (isFunction r d); [|reflexivity].
  destruct (get depth r d "prototype") as [p|e] eqn:Hp; [|reflexivity].
  rewrite (chain_from_agree depth p (get_below depth d _ p Hd Hp)). reflexivity.
Qed.

Lemma methods_view_below depth d c :
  value_below no nf d -> methods_view depth r d = Ok (Some c) ->
  Forall (value_below no nf) c.
Proof.
  intros Hd. unfold methods_view, chain.
  destruct (isFunction r d); [|discriminate].
  destruct (get depth r d "prototype") as [p|e] eqn:Hp; [|discriminate].
  destruct (chain_from depth r p) as [c'|e] eqn:Hc; [|discriminate].
  intros H. inversion H; subst.
  apply (chain_from_below depth p c (get_below depth d _ p Hd Hp) Hc).
Qed.

End Stability.

(** *** The steps of a composition commute *)

Lemma allocated_not_next_fun s l : allocated s l -> l <> LFun (next_fun s).
Proof. intros Hl ->. simpl in Hl. lia. Qed.

Lemma allocated_not_next_obj s l : allocated s l -> l <> LObj (next_obj s).
Proof. intros Hl ->. simpl in Hl. lia. Qed.

Lemma allocated_wrapped d s l : allocated s l -> allocated (wrapped d s) l.
Proof. destruct l; simpl; lia. Qed.

Lemma allocated_copied t s l : allocated s l -> allocated (copied t s) l.
Proof. destruct l; simpl; lia. Qed.

Lemma allocated_assign_store l' tabs s l : allocated s l -> allocated (assign_store l' tabs s) l.
Proof. destruct l; simpl; lia. Qed.

Lemma allocated_pushed l' xs s l : allocated s l -> allocated (pushed l' xs s) l.
Proof. destruct l; simpl; lia. Qed.

Lemma allocated_wrap_all ws l : forall s, allocated s l -> allocated (wrap_all ws s) l.
Proof.
  unfold wrap_all. induction ws as [|d ws IH]; intros s Hl; cbn [fold_left]; [exact Hl|].
  apply IH, allocated_wrapped, Hl.
Qed.

Lemma allocated_copy_all ts l : forall s, allocated s l -> allocated (copy_all ts s) l.
Proof.
  unfold copy_all. induction ts as [|t ts IH]; intros s Hl; cbn [fold_left]; [exact Hl|].
  apply IH, allocated_copied, Hl.
Qed.

Create HintDb alloc.

#[local] Hint Resolve allocated_wrapped allocated_copied allocated_assign_store
  allocated_pushed allocated_wrap_all allocated_copy_all : alloc.

Lemma wrapped_copied d t s : wrapped d (copied t s) = copied t (wrapped d s).
Proof.
  unfold wrapped, copied. simpl. f_equal. apply insert_insert_ne. discriminate.
Qed.

Lemma wrapped_assign d l tabs s :
  allocated s l -> wrapped d (assign_store l tabs s) = assign_store l tabs (wrapped d s).
Proof.
  intros Hl. unfold wrapped, assign_store, update_object, set_heap. simpl. f_equal.
  symmetry. apply alter_insert_ne. apply allocated_not_next_fun, Hl.
Qed.

Lemma wrapped_pushed d l xs s : wrapped d (pushed l xs s) = pushed l xs (wrapped d s).
Proof. reflexivity. Qed.

Lemma copied_assign t l tabs s :
  allocated s l -> copied t (assign_store l tabs s) = assign_store l tabs (copied t s).
Proof.
  intros Hl. unfold copied, assign_store, update_object, set_heap. simpl. f_equal.
  symmetry. apply alter_insert_ne. apply allocated_not_next_obj, Hl.
Qed.

Lemma copied_pushed t l xs s : copied t (pushed l xs s) = pushed l xs (copied t s).
Proof. reflexivity. Qed.

Lemma assign_assign l1 l2 tabs1 tabs2 s :
  l1 <> l2 ->
  assign_store l1 tabs1 (assign_store l2 tabs2 s)
  = assign_store l2 tabs2 (assign_store l1 tabs1 s).
Proof.
  intros Hne. unfold assign_store, update_object, set_heap. simpl. f_equal.
  apply alter_alter_ne. exact Hne.
Qed.

Lemma assign_pushed l tabs l' xs s :
  assign_store l tabs (pushed l' xs s) = pushed l' xs (assign_store l tabs s).
Proof. reflexivity. Qed.

Lemma pushed_pushed l xs ys s : pushed l ys (pushed l xs s) = pushed l (xs ++ ys) s.
Proof.
  unfold pushed, set_secrets. simpl. f_equal. rewrite alter_alter_eq.
  apply alter_ext. intros sec _. simpl. rewrite app_assoc. reflexivity.
Qed.

Lemma wrap_all_app ws1 ws2 s : wrap_all ws2 (wrap_all ws1 s) = wrap_all (ws1 ++ ws2) s.
Proof. unfold wrap_all. rewrite fold_left_app. reflexivity. Qed.

Lemma copy_all_app ts1 ts2 s : copy_all ts2 (copy_all ts1 s) = copy_all (ts1 ++ ts2) s.
Proof. unfold copy_all. rewrite fold_left_app. reflexivity. Qed.

Lemma wrap_all_cons d ws s : wrap_all (d :: ws) s = wrap_all ws (wrapped d s).
Proof. reflexivity. Qed.

Lemma copy_all_cons t ts s : copy_all (t :: ts) s = copy_all ts (copied t s).
Proof. reflexivity. Qed.

Lemma wrap_all_copied ws t : forall s, wrap_all ws (copied t s) = copied t (wrap_all ws s).
Proof.
  induction ws as [|d ws IH]; intros s; [reflexivity|].
  rewrite !wrap_all_cons, wrapped_copied. apply IH.
Qed.

Lemma wrap_all_copy_all ws ts : forall s, wrap_all ws (copy_all ts s) = copy_all ts (wrap_all ws s).
Proof.
  induction ts as [|t ts IH]; intros s; [reflexivity|].
  rewrite !copy_all_cons, IH, wrap_all_copied. reflexivity.
Qed.

Lemma wrap_all_assign ws l tabs : forall s,
  allocated s l -> wrap_all ws (assign_store l tabs s) = assign_store l tabs (wrap_all ws s).
Proof.
  induction ws as [|d ws IH]; intros s Hl; [reflexivity|].
  rewrite !wrap_all_cons, wrapped_assign by exact Hl. apply IH. auto with alloc.
Qed.

Lemma wrap_all_pushed ws l xs : forall s,
  wrap_all ws (pushed l xs s) = pushed l xs (wrap_all ws s).
Proof.
  induction ws as [|d ws IH]; intros s; [reflexivity|].
  rewrite !wrap_all_cons, wrapped_pushed. apply IH.
Qed.

Lemma copy_all_assign ts l tabs : forall s,
  allocated s l -> copy_all ts (assign_store l tabs s) = assign_store l tabs (copy_all ts s).
Proof.
  induction ts as [|t ts IH]; intros s Hl; [reflexivity|].
  rewrite !copy_all_cons, copied_assign by exact Hl. apply IH. auto with alloc.
Qed.

Lemma copy_all_pushed ts l xs : forall s,
  copy_all ts (pushed l xs s) = pushed l xs (copy_all ts s).
Proof.
  induction ts as [|t ts IH]; intros s; [reflexivity|].
  rewrite !copy_all_cons, copied_pushed. apply IH.
Qed.

(** Two compositions, one after the other, leave the store one composition
    of the appended lists leaves. *)
Lemma composed_composed lF lD lP ws1 xs1 dt1 ts1 pt1 ws2 xs2 dt2 ts2 pt2 s :
  allocated s lD -> allocated s lP -> lD <> lP ->
  composed lF lD lP ws2 xs2 dt2 ts2 pt2 (composed lF lD lP ws1 xs1 dt1 ts1 pt1 s)
  = composed lF lD lP (ws1 ++ ws2) (xs1 ++ xs2) (dt1 ++ dt2) (ts1 ++ ts2) (pt1 ++ pt2) s.
Proof.
  intros HD HP Hne. unfold composed.
  rewrite (wrap_all_assign ws2 lP) by auto with alloc.
  rewrite (wrap_all_copy_all ws2).
  rewrite (wrap_all_assign ws2 lD) by auto with alloc.
  rewrite (wrap_all_pushed ws2), wrap_all_app.
  rewrite <- (assign_pushed lP), <- (copy_all_pushed ts1), <- (assign_pushed lD).
  rewrite pushed_pushed.
  rewrite (assign_assign lD lP) by exact Hne.
  rewrite <- (copy_all_assign ts1 lD) by auto with alloc.
  rewrite assign_store_app.
  rewrite (copy_all_assign ts2 lP) by auto with alloc.
  rewrite copy_all_app, assign_store_app. reflexivity.
Qed.

(** *** The three phases of a composition, read off the store it starts in *)

Lemma initializers_at_app depth r l1 l2 : forall nf,
  initializers_at depth r (l1 ++ l2) nf
  = match initializers_at depth r l1 nf with
    | Ok (cs1, ws1) =>
        match initializers_at depth r l2 (nf + length ws1) with
        | Ok (cs2, ws2) => Ok (cs1 ++ cs2, ws1 ++ ws2)
        | Throw e => Throw e
        end
    | Throw e => Throw e
    end.
Proof.
  induction l1 as [|d l1 IH]; intros nf; cbn [app initializers_at].
  - rewrite Nat.add_0_r. destruct (initializers_at depth r l2 nf) as [[cs2 ws2]|e]; reflexivity.
  - destruct (initializer_view depth r d) as [[v|]|e]; [| |reflexivity].
    + rewrite IH. destruct (initializers_at depth r l1 nf) as [[cs1 ws1]|e]; [|reflexivity].
      destruct (initializers_at depth r l2 (nf + length ws1)) as [[cs2 ws2]|e]; reflexivity.
    + rewrite IH. destruct (initializers_at depth r l1 (S nf)) as [[cs1 ws1]|e]; [|reflexivity].
      cbn [length]. rewrite Nat.add_succ_r.
      change (S nf + length ws1) with (S (nf + length ws1)).
      destruct (initializers_at depth r l2 (S (nf + length ws1))) as [[cs2 ws2]|e]; reflexivity.
Qed.

Lemma defaults_at_app depth r l1 l2 :
  defaults_at depth r (l1 ++ l2)
  = match defaults_at depth r l1 with
    | Ok vs1 =>
        match defaults_at depth r l2 with
        | Ok vs2 => Ok (vs1 ++ vs2)
        | Throw e => Throw e
        end
    | Throw e => Throw e
    end.
Proof.
  induction l1 as [|d l1 IH]; cbn [app defaults_at].
  - destruct (defaults_at depth r l2); reflexivity.
  - destruct (defaults_view depth r d) as [v|e]; [|reflexivity].
    rewrite IH. destruct (defaults_at depth r l1) as [vs1|e]; [|reflexivity].
    destruct (defaults_at depth r l2); reflexivity.
Qed.

Lemma methods_at_app depth r l1 l2 :
  methods_at depth r (l1 ++ l2)
  = match methods_at depth r l1 with
    | Ok (tabs1, ts1) =>
        match methods_at depth r l2 with
        | Ok (tabs2, ts2) => Ok (tabs1 ++ tabs2, ts1 ++ ts2)
        | Throw e => Throw e
        end
    | Throw e => Throw e
    end.
Proof.
  induction l1 as [|d l1 IH]; cbn [app methods_at].
  - destruct (methods_at depth r l2) as [[tabs2 ts2]|e]; reflexivity.
  - destruct (methods_view depth r d) as [[c|]|e]; [| |reflexivity];
      rewrite IH; destruct (methods_at depth r l1) as [[tabs1 ts1]|e]; try reflexivity;
      destruct (methods_at depth r l2) as [[tabs2 ts2]|e]; reflexivity.
Qed.

Lemma initializers_at_length depth r ds : forall nf cs ws,
  initializers_at depth r ds nf = Ok (cs, ws) -> length cs = length ds.
Proof.
  induction ds as [|d ds IH]; intros nf cs ws H; cbn [initializers_at] in H.
  - inversion H. reflexivity.
  - destruct (initializer_view depth r d) as [[v|]|e]; [| |discriminate].
    + destruct (initializers_at depth r ds nf) as [[cs' ws']|e] eqn:E; [|discriminate].
      inversion H; subst. cbn [length]. f_equal. apply (IH _ _ _ E).
    + destruct (initializers_at depth r ds (S nf)) as [[cs' ws']|e] eqn:E; [|discriminate].
      inversion H; subst. cbn [length]. f_equal. apply (IH _ _ _ E).
Qed.

Lemma lookup_copy_all ts l : forall s, allocated s l -> heap (copy_all ts s) !! l = heap s !! l.
Proof.
  induction ts as [|t ts IH]; intros s Hl; [reflexivity|].
  rewrite copy_all_cons, IH by auto with alloc. apply lookup_copied. exact Hl.
Qed.

Lemma next_obj_copy_all ts : forall s, next_obj (copy_all ts s) = next_obj s + length ts.
Proof.
  induction ts as [|t ts IH]; intros s; [simpl; lia|].
  rewrite copy_all_cons, IH. simpl. lia.
Qed.

Lemma next_fun_wrap_all ws : forall s, next_fun (wrap_all ws s) = next_fun s + length ws.
Proof.
  induction ws as [|d ws IH]; intros s; [simpl; lia|].
  rewrite wrap_all_cons, IH. simpl. lia.
Qed.

Lemma next_fun_copy_all ts : forall s, next_fun (copy_all ts s) = next_fun s.
Proof.
  induction ts as [|t ts IH]; intros s; [reflexivity|].
  rewrite copy_all_cons, IH. reflexivity.
Qed.

Lemma next_fun_composed lF lD lP ws xs dt ts pt s :
  next_fun (composed lF lD lP ws xs dt ts pt s) = next_fun s + length ws.
Proof.
  unfold composed. cbn [assign_store update_object set_heap next_fun].
  rewrite next_fun_copy_all. cbn [assign_store update_object set_heap next_fun pushed set_secrets].
  apply next_fun_wrap_all.
Qed.

Lemma flattened_enumerable r c k q : flattened r c !! k = Some q -> p_enumerable q = true.
Proof.
  unfold flattened. rewrite merged_lookup. apply winner_enumerable.
Qed.

Section Phases.

Variable depth : nat.
Variables no nf : nat.
Variable r : store.
Variables lF lD lP : loc.
Hypothesis r_closed : closed_below no nf r.
Hypothesis D_above : ~ below no nf lD.
Hypothesis P_above : ~ below no nf lP.

#[local] Abbreviation stable_here := (stable no nf r).

Lemma stable_new_object o s : stable_here s -> stable_here (new_object o s).
Proof.
  intros (Ha & Ho & Hf). split; [|simpl; lia].
  intros l Hl. rewrite <- (Ha l Hl). unfold new_object. simpl.
  apply lookup_insert_ne. intros <-. simpl in Hl. lia.
Qed.

Lemma stable_new_function o s : stable_here s -> stable_here (new_function o s).
Proof.
  intros (Ha & Ho & Hf). split; [|simpl; lia].
  intros l Hl. rewrite <- (Ha l Hl). unfold new_function. simpl.
  apply lookup_insert_ne. intros <-. simpl in Hl. lia.
Qed.

Lemma stable_pushed l xs s : stable_here s -> stable_here (pushed l xs s).
Proof. intros H. exact H. Qed.

Lemma stable_assign l tabs s : ~ below no nf l -> stable_here s -> stable_here (assign_store l tabs s).
Proof.
  intros Hl (Ha & Ho & Hf). split; [|simpl; lia].
  intros l' Hl'. rewrite <- (Ha l' Hl'). unfold assign_store.
  apply lookup_update_ne. intros ->. exact (Hl Hl').
Qed.

Lemma stable_wrapped d s : stable_here s -> stable_here (wrapped d s).
Proof. apply stable_new_function. Qed.

Lemma stable_copied t s : stable_here s -> stable_here (copied t s).
Proof. apply stable_new_object. Qed.

Lemma stable_copy_all ts : forall s, stable_here s -> stable_here (copy_all ts s).
Proof.
  induction ts as [|t ts IH]; intros s Hs; [exact Hs|].
  rewrite copy_all_cons. apply IH, stable_copied, Hs.
Qed.

Lemma below_not_next_obj s v : stable_here s -> value_below no nf v -> v <> VRef (LObj (next_obj s)).
Proof. intros (_ & Ho & _) Hv ->. simpl in Hv. lia. Qed.

Lemma mapM_constructor_of_explicit ds : forall s,
  stable_here s -> Forall (value_below no nf) ds ->
  match initializers_at depth r ds (next_fun s) with
  | Ok (cs, ws) => mapM (constructor_of depth) ds s = (Ok cs, wrap_all ws s, [])
  | Throw e => exists s', mapM (constructor_of depth) ds s = (Throw e, s', [])
  end.
Proof.
  induction ds as [|d ds IH]; intros s Hs Hds; cbn [initializers_at mapM]; [reflexivity|].
  inversion Hds as [|? ? Hd Hds']; subst.
  pose proof (constructor_of_view depth d s) as Hv.
  rewrite (initializer_view_agree no nf r r_closed s (proj1 Hs) depth d Hd) in Hv.
  destruct (initializer_view depth r d) as [[v|]|e].
  - rewrite (bind_ok_nil _ _ _ _ _ Hv).
    specialize (IH s Hs Hds').
    destruct (initializers_at depth r ds (next_fun s)) as [[cs ws]|e].
    + rewrite (bind_ok_nil _ _ _ _ _ IH). reflexivity.
    + destruct IH as [s' IH]. exists s'. rewrite (bind_throw _ _ _ _ _ _ IH). reflexivity.
  - rewrite (bind_ok_nil _ _ _ _ _ Hv).
    specialize (IH (wrapped d s) (stable_wrapped d s Hs) Hds').
    change (next_fun (wrapped d s)) with (S (next_fun s)) in IH.
    destruct (initializers_at depth r ds (S (next_fun s))) as [[cs ws]|e].
    + rewrite (bind_ok_nil _ _ _ _ _ IH). reflexivity.
    + destruct IH as [s' IH]. exists s'. rewrite (bind_throw _ _ _ _ _ _ IH). reflexivity.
  - exists s. rewrite (bind_throw _ _ _ _ _ _ Hv). reflexivity.
Qed.

Lemma mapM_defaults_of_explicit ds s :
  stable_here s -> Forall (value_below no nf) ds ->
  mapM (defaults_of depth) ds s = (defaults_at depth r ds, s, []).
Proof.
  intros Hs. induction ds as [|d ds IH]; intros Hds; cbn [defaults_at mapM]; [reflexivity|].
  inversion Hds as [|? ? Hd Hds']; subst.
  pose proof (defaults_of_view depth d s) as Hv.
  rewrite (defaults_view_agree no nf r r_closed s (proj1 Hs) depth d Hd) in Hv.
  destruct (defaults_view depth r d) as [v|e].
  - rewrite (bind_ok_nil _ _ _ _ _ Hv). specialize (IH Hds').
    destruct (defaults_at depth r ds) as [vs|e].
    + rewrite (bind_ok_nil _ _ _ _ _ IH). reflexivity.
    + rewrite (bind_throw _ _ _ _ _ _ IH). reflexivity.
  - rewrite (bind_throw _ _ _ _ _ _ Hv). reflexivity.
Qed.

Lemma defaults_at_below ds : forall vs,
  Forall (value_below no nf) ds -> defaults_at depth r ds = Ok vs ->
  Forall (value_below no nf) vs.
Proof.
  induction ds as [|d ds IH]; intros vs Hds H; cbn [defaults_at] in H.
  - inversion H. constructor.
  - inversion Hds as [|? ? Hd Hds']; subst.
    destruct (defaults_view depth r d) as [v|e] eqn:Hv; [|discriminate].
    destruct (defaults_at depth r ds) as [vs'|e]; [|discriminate].
    inversion H; subst. constructor.
    + apply (defaults_view_below no nf r r_closed depth d v Hd Hv).
    + apply IH; [exact Hds' | reflexivity].
Qed.

Lemma mapM_prototype_of_explicit ds : forall s,
  stable_here s -> Forall (value_below no nf) ds ->
  match methods_at depth r ds with
  | Ok (tabs, ts) =>
      exists srcs,
        mapM (prototype_of depth) ds s = (Ok srcs, copy_all ts s, [])
        /\ map (enumerable_own (copy_all ts s)) srcs = tabs
        /\ Forall (fun v => value_below no nf v
                            \/ exists n, v = VRef (LObj n) /\ next_obj s <= n) srcs
  | Throw e => exists s', mapM (prototype_of depth) ds s = (Throw e, s', [])
  end.
Proof.
  induction ds as [|d ds IH]; intros s Hs Hds; cbn [methods_at mapM].
  { exists []. split; [reflexivity|]. split; [reflexivity|constructor]. }
  inversion Hds as [|? ? Hd Hds']; subst.
  pose proof (prototype_of_view depth d s) as Hv.
  rewrite (methods_view_agree no nf r r_closed s (proj1 Hs) depth d Hd) in Hv.
  destruct (methods_view depth r d) as [[c|]|e] eqn:Hview.
  - assert (Hc : Forall (value_below no nf) c)
      by apply (methods_view_below no nf r r_closed depth d c Hd Hview).
    assert (Hcopy : Copy (rev c) s
                    = (Ok (VRef (LObj (next_obj s))), copied (flattened r c) s, [])).
    { rewrite Copy_explicit.
      - unfold flattened. do 3 f_equal. f_equal. apply map_ext_in.
        intros v Hin. apply (enumerable_own_agree no nf r s (proj1 Hs)).
        rewrite <- in_rev in Hin. exact (proj1 (List.Forall_forall _ _) Hc v Hin).
      - apply List.Forall_rev. eapply List.Forall_impl; [|exact Hc].
        intros v Hvb. apply below_not_next_obj; assumption. }
    rewrite Hcopy in Hv. rewrite (bind_ok_nil _ _ _ _ _ Hv).
    specialize (IH (copied (flattened r c) s) (stable_copied _ s Hs) Hds').
    destruct (methods_at depth r ds) as [[tabs ts]|e].
    + destruct IH as (srcs & Hm & Htabs & Hsrcs).
      exists (VRef (LObj (next_obj s)) :: srcs).
      rewrite (bind_ok_nil _ _ _ _ _ Hm). split; [reflexivity|]. split.
      * cbn [map]. rewrite copy_all_cons. f_equal; [|exact Htabs].
        unfold enumerable_own, own_props, obj_at.
        rewrite lookup_copy_all by (simpl; lia).
        change (filter (fun kp : key * property => p_enumerable kp.2 = true)
                  (match heap (copied (flattened r c) s) !! LObj (next_obj s) with
                   | Some o => o_props o
                   | None => ∅
                   end))
          with (enumerable_own (copied (flattened r c) s) (VRef (LObj (next_obj s)))).
        apply enumerable_own_new. apply flattened_enumerable.
      * constructor; [right; eauto|].
        eapply List.Forall_impl; [|exact Hsrcs].
        intros v [Hvb|(n & -> & Hn)]; [left; exact Hvb|right].
        exists n. split; [reflexivity|]. simpl in Hn. lia.
    + destruct IH as [s' IH]. exists s'. rewrite (bind_throw _ _ _ _ _ _ IH). reflexivity.
  - rewrite (bind_ok_nil _ _ _ _ _ Hv).
    specialize (IH s Hs Hds').
    destruct (methods_at depth r ds) as [[tabs ts]|e].
    + destruct IH as (srcs & Hm & Htabs & Hsrcs).
      exists (d :: srcs). rewrite (bind_ok_nil _ _ _ _ _ Hm).
      split; [reflexivity|]. split.
      * cbn [map]. f_equal; [|exact Htabs].
        apply (enumerable_own_agree no nf r (copy_all ts s)
                 (proj1 (stable_copy_all ts s Hs)) d Hd).
      * constructor; [left; exact Hd | exact Hsrcs].
    + destruct IH as [s' IH]. exists s'. rewrite (bind_throw _ _ _ _ _ _ IH). reflexivity.
  - exists s. rewrite (bind_throw _ _ _ _ _ _ Hv). reflexivity.
Qed.

End Phases.

Section Composition.

Variable depth : nat.
Variables no nf : nat.
Variable r : store.
Variables lF lD lP : loc.
Hypothesis r_closed : closed_below no nf r.
Hypothesis D_above : ~ below no nf lD.
Hypothesis P_above : ~ below no nf lP.

#[local] Abbreviation steady := (fun s => stable no nf r s /\ composing lF lD lP s).

Lemma concatenateConstructors_steady ds s u s' t :
  steady s -> concatenateConstructors (S depth) (VRef lF) ds s = (u, s', t) -> steady s'.
Proof.
  intros Hs H.
  apply (concatenateConstructors_inv depth lF lD lP (stable no nf r)) in H; [apply H| | |exact Hs].
  - intros o s1 _. apply stable_new_function.
  - intros xs s1 _. apply stable_pushed.
Qed.

Lemma concatenateDefaults_steady ds s u s' t :
  steady s -> concatenateDefaults (S depth) (VRef lF) ds s = (u, s', t) -> steady s'.
Proof.
  intros Hs H.
  apply (concatenateDefaults_inv depth lF lD lP (stable no nf r)) in H; [apply H| |exact Hs].
  intros l tabs s1 [-> | ->] _; apply stable_assign; assumption.
Qed.

Lemma concatenate_steady ds s u s' t :
  steady s -> concatenate (S depth) (VRef lF) ds s = (u, s', t) -> steady s'.
Proof.
  intros Hs H.
  apply (concatenate_inv depth lF lD lP (stable no nf r)) in H; [apply H| | | | |exact Hs].
  - intros o s1 _. apply stable_new_object.
  - intros o s1 _. apply stable_new_function.
  - intros xs s1 _. apply stable_pushed.
  - intros l tabs s1 [-> | ->] _; apply stable_assign; assumption.
Qed.

Lemma concatenateConstructors_explicit ds s :
  steady s -> Forall (value_below no nf) ds ->
  match initializers_at (S depth) r ds (next_fun s) with
  | Ok (cs, ws) =>
      concatenateConstructors (S depth) (VRef lF) ds s
      = (Ok tt, pushed lF (List.filter truthy cs) (wrap_all ws s), [])
  | Throw e => exists s', concatenateConstructors (S depth) (VRef lF) ds s = (Throw e, s', [])
  end.
Proof.
  intros [Hs Hc] Hds. unfold concatenateConstructors.
  destruct (secrets_of_composing lF lD lP s Hc) as (sec & Hsec & _).
  rewrite (bind_ok_nil _ _ _ _ _ Hsec).
  pose proof (mapM_constructor_of_explicit (S depth) no nf r r_closed ds s Hs Hds) as Hm.
  destruct (initializers_at (S depth) r ds (next_fun s)) as [[cs ws]|e].
  - rewrite (bind_ok_nil _ _ _ _ _ Hm). reflexivity.
  - destruct Hm as [s' Hm]. exists s'. rewrite (bind_throw _ _ _ _ _ _ Hm). reflexivity.
Qed.

Lemma concatenateDefaults_explicit ds s :
  steady s -> Forall (value_below no nf) ds ->
  match defaults_at (S depth) r ds with
  | Ok srcs =>
      concatenateDefaults (S depth) (VRef lF) ds s
      = (Ok tt, assign_store lD (map (enumerable_own r) srcs) s, [])
  | Throw e => concatenateDefaults (S depth) (VRef lF) ds s = (Throw e, s, [])
  end.
Proof.
  intros [Hs Hc] Hds. unfold concatenateDefaults.
  destruct (secrets_of_composing lF lD lP s Hc) as (sec & Hsec & Hdef & _).
  rewrite (bind_ok_nil _ _ _ _ _ Hsec), Hdef.
  pose proof (mapM_defaults_of_explicit (S depth) no nf r r_closed ds s Hs Hds) as Hm.
  pose proof (defaults_at_below (S depth) no nf r r_closed ds) as Hb.
  destruct (defaults_at (S depth) r ds) as [srcs|e].
  - rewrite (bind_ok_nil _ _ _ _ _ Hm).
    specialize (Hb srcs Hds eq_refl).
    destruct Hc as (_ & _ & _ & (oD & HoD & HfD) & _).
    assert (Hne : Forall (fun v => v <> VRef lD) srcs)
      by (eapply List.Forall_impl; [|exact Hb]; intros v Hv ->; exact (D_above Hv)).
    rewrite (bind_ok_nil _ _ _ _ _ (Assign_unfrozen lD srcs s oD HoD HfD Hne)).
    unfold ret. do 3 f_equal. apply map_ext_in. intros v Hin.
    apply (enumerable_own_agree no nf r s (proj1 Hs)).
    exact (proj1 (List.Forall_forall _ _) Hb v Hin).
  - rewrite (bind_throw _ _ _ _ _ _ Hm). reflexivity.
Qed.

Lemma concatenatePrototypes_explicit ds s :
  steady s -> Forall (value_below no nf) ds ->
  match methods_at (S depth) r ds with
  | Ok (tabs, ts) =>
      concatenatePrototypes (S depth) (VRef lF) ds s
      = (Ok tt, assign_store lP tabs (copy_all ts s), [])
  | Throw e => exists s', concatenatePrototypes (S depth) (VRef lF) ds s = (Throw e, s', [])
  end.
Proof.
  intros [Hs Hc] Hds. unfold concatenatePrototypes.
  rewrite (bind_lift_ok _ _ _ _ (get_prototype_composing depth lF lD lP s Hc)).
  pose proof (mapM_prototype_of_explicit (S depth) no nf r r_closed ds s Hs Hds) as Hm.
  destruct (composing_allocated _ _ _ _ Hc) as (_ & _ & HaP).
  destruct Hc as (_ & _ & _ & _ & (oP & HoP & HfP) & _).
  destruct (methods_at (S depth) r ds) as [[tabs ts]|e].
  - destruct Hm as (srcs & Hm & Htabs & Hsrcs).
    rewrite (bind_ok_nil _ _ _ _ _ Hm).
    assert (HoP' : heap (copy_all ts s) !! lP = Some oP)
      by (rewrite lookup_copy_all by exact HaP; exact HoP).
    assert (Hne : Forall (fun v => v <> VRef lP) srcs).
    { eapply List.Forall_impl; [|exact Hsrcs].
      intros v [Hv|(n & -> & Hn)].
      - intros ->. exact (P_above Hv).
      - intros E. inversion E; subst. simpl in HaP. lia. }
    rewrite (bind_ok_nil _ _ _ _ _ (Assign_unfrozen lP srcs _ oP HoP' HfP Hne)).
    rewrite Htabs. reflexivity.
  - destruct Hm as [s' Hm]. exists s'. rewrite (bind_throw _ _ _ _ _ _ Hm). reflexivity.
Qed.

(** A composition either ends with an error, or leaves the store [composed]
    of what each of its three phases reads of the decorators. *)
Lemma concatenate_explicit ds s :
  steady s -> Forall (value_below no nf) ds ->
  match initializers_at (S depth) r ds (next_fun s),
        defaults_at (S depth) r ds,
        methods_at (S depth) r ds with
  | Ok (cs, ws), Ok srcs, Ok (tabs, ts) =>
      concatenate (S depth) (VRef lF) ds s
      = (Ok tt,
         composed lF lD lP ws (List.filter truthy cs) (map (enumerable_own r) srcs) ts tabs s,
         [])
  | _, _, _ => exists e s', concatenate (S depth) (VRef lF) ds s = (Throw e, s', [])
  end.
Proof.
  intros Hs Hds. unfold concatenate.
  pose proof (concatenateConstructors_explicit ds s Hs Hds) as H1.
  destruct (initializers_at (S depth) r ds (next_fun s)) as [[cs ws]|e].
  2:{ destruct H1 as [s' H1].
      assert (exists e' s'', (concatenateConstructors (S depth) (VRef lF) ds >>
                              concatenateDefaults (S depth) (VRef lF) ds >>
                              concatenatePrototypes (S depth) (VRef lF) ds) s
                             = (Throw e', s'', [])) as Hthrow
        by (exists e, s'; rewrite (bind_throw _ _ _ _ _ _ H1); reflexivity).
      destruct (defaults_at (S depth) r ds); destruct (methods_at (S depth) r ds) as [[? ?]|?];
        exact Hthrow. }
  pose proof (concatenateConstructors_steady ds s _ _ _ Hs H1) as Hs1.
  rewrite (bind_ok_nil _ _ _ _ _ H1).
  pose proof (concatenateDefaults_explicit ds _ Hs1 Hds) as H2.
  destruct (defaults_at (S depth) r ds) as [srcs|e].
  2:{ assert (exists e' s'', (concatenateDefaults (S depth) (VRef lF) ds >>
                              concatenatePrototypes (S depth) (VRef lF) ds)
                               (pushed lF (List.filter truthy cs) (wrap_all ws s))
                             = (Throw e', s'', [])) as Hthrow
        by (eexists; eexists; rewrite (bind_throw _ _ _ _ _ _ H2); reflexivity).
      destruct (methods_at (S depth) r ds) as [[? ?]|?]; exact Hthrow. }
  pose proof (concatenateDefaults_steady ds _ _ _ _ Hs1 H2) as Hs2.
  rewrite (bind_ok_nil _ _ _ _ _ H2).
  pose proof (concatenatePrototypes_explicit ds _ Hs2 Hds) as H3.
  destruct (methods_at (S depth) r ds) as [[tabs ts]|e].
  - rewrite H3. reflexivity.
  - destruct H3 as [s' H3]. exists e, s'. exact H3.
Qed.

Lemma concatenate_succeeds ds s cs ws srcs tabs ts :
  steady s -> Forall (value_below no nf) ds ->
  initializers_at (S depth) r ds (next_fun s) = Ok (cs, ws) ->
  defaults_at (S depth) r ds = Ok srcs ->
  methods_at (S depth) r ds = Ok (tabs, ts) ->
  concatenate (S depth) (VRef lF) ds s
  = (Ok tt,
     composed lF lD lP ws (List.filter truthy cs) (map (enumerable_own r) srcs) ts tabs s,
     []).
Proof.
  intros Hs Hds HI HD HM. pose proof (concatenate_explicit ds s Hs Hds) as H.
  rewrite HI, HD, HM in H. exact H.
Qed.

Lemma concatenate_succeeded ds s s' :
  steady s -> Forall (value_below no nf) ds ->
  concatenate (S depth) (VRef lF) ds s = (Ok tt, s', []) ->
  exists cs ws srcs tabs ts,
    initializers_at (S depth) r ds (next_fun s) = Ok (cs, ws)
    /\ defaults_at (S depth) r ds = Ok srcs
    /\ methods_at (S depth) r ds = Ok (tabs, ts)
    /\ s' = composed lF lD lP ws (List.filter truthy cs) (map (enumerable_own r) srcs) ts tabs s.
Proof.
  intros Hs Hds Hcat. pose proof (concatenate_explicit ds s Hs Hds) as H.
  destruct (initializers_at (S depth) r ds (next_fun s)) as [[cs ws]|e1];
    destruct (defaults_at (S depth) r ds) as [srcs|e2];
    destruct (methods_at (S depth) r ds) as [[tabs ts]|e3];
    try (destruct H as (e & s'' & H); rewrite H in Hcat; discriminate).
  rewrite H in Hcat. inversion Hcat; subst.
  exists cs, ws, srcs, tabs, ts. auto.
Qed.

End Composition.

Lemma initializers_at_app_ok depth r l1 l2 nf cs ws :
  initializers_at depth r (l1 ++ l2) nf = Ok (cs, ws) ->
  exists cs1 ws1 cs2 ws2,
    initializers_at depth r l1 nf = Ok (cs1, ws1)
    /\ initializers_at depth r l2 (nf + length ws1) = Ok (cs2, ws2)
    /\ cs = cs1 ++ cs2 /\ ws = ws1 ++ ws2.
Proof.
  rewrite initializers_at_app.
  destruct (initializers_at depth r l1 nf) as [[cs1 ws1]|e] eqn:E1; [|discriminate].
  destruct (initializers_at depth r l2 (nf + length ws1)) as [[cs2 ws2]|e] eqn:E2;
    [|discriminate].
  intros H. inversion H; subst. exists cs1, ws1, cs2, ws2. auto.
Qed.

Lemma defaults_at_app_ok depth r l1 l2 vs :
  defaults_at depth r (l1 ++ l2) = Ok vs ->
  exists vs1 vs2,
    defaults_at depth r l1 = Ok vs1 /\ defaults_at depth r l2 = Ok vs2 /\ vs = vs1 ++ vs2.
Proof.
  rewrite defaults_at_app.
  destruct (defaults_at depth r l1) as [vs1|e] eqn:E1; [|discriminate].
  destruct (defaults_at depth r l2) as [vs2|e] eqn:E2; [|discriminate].
  intros H. inversion H; subst. exists vs1, vs2. auto.
Qed.

Lemma methods_at_app_ok depth r l1 l2 tabs ts :
  methods_at depth r (l1 ++ l2) = Ok (tabs, ts) ->
  exists tabs1 ts1 tabs2 ts2,
    methods_at depth r l1 = Ok (tabs1, ts1) /\ methods_at depth r l2 = Ok (tabs2, ts2)
    /\ tabs = tabs1 ++ tabs2 /\ ts = ts1 ++ ts2.
Proof.
  rewrite methods_at_app.
  destruct (methods_at depth r l1) as [[tabs1 ts1]|e] eqn:E1; [|discriminate].
  destruct (methods_at depth r l2) as [[tabs2 ts2]|e] eqn:E2; [|discriminate].
  intros H. inversion H; subst. exists tabs1, ts1, tabs2, ts2. auto.
Qed.

Lemma secrets_wrap_all ws : forall s, secrets (wrap_all ws s) = secrets s.
Proof.
  induction ws as [|d ws IH]; intros s; [reflexivity|].
  rewrite wrap_all_cons, IH. reflexivity.
Qed.

Lemma secrets_copy_all ts : forall s, secrets (copy_all ts s) = secrets s.
Proof.
  induction ts as [|t ts IH]; intros s; [reflexivity|].
  rewrite copy_all_cons, IH. reflexivity.
Qed.

Lemma secrets_composed lF lD lP ws xs dt ts pt s :
  secrets (composed lF lD lP ws xs dt ts pt s)
  = alter (fun sec => Secret (constructors sec ++ xs) (defaults sec)) lF (secrets s).
Proof.
  unfold composed. cbn [assign_store update_object set_heap secrets].
  rewrite secrets_copy_all. cbn [assign_store update_object set_heap secrets pushed set_secrets].
  rewrite secrets_wrap_all. reflexivity.
Qed.

(** C6 (as amended).  For compositions that raise no error: in a store
    where the decorators and what they refer to were allocated before the
    two tables of the factory, [concatenate] given the list [l1 ++ l2]
    succeeds and leaves the store [s'] exactly when [concatenate] given [l1]
    and then [concatenate] given [l2] succeed and leave [s']: the same
    initializer list, defaults table and method table, and the same store
    altogether.  When it succeeds for a list of decorators, the initializers
    it appends to the list of the factory are the truthy ones among
    [initializers_at], which has one value for each decorator, in the order
    of the decorators: nothing is reordered, and a decorator given twice is
    read twice. *)
Theorem composing_twice_is_composing_once :
  forall (depth no nf : nat) (lF lD lP : loc) (s : store) (l1 l2 : list value),
    composing lF lD lP s ->
    closed_below no nf s ->
    no <= next_obj s ->
    nf <= next_fun s ->
    ~ below no nf lD ->
    ~ below no nf lP ->
    Forall (value_below no nf) (l1 ++ l2) ->
    (forall s',
        concatenate (S depth) (VRef lF) (l1 ++ l2) s = (Ok tt, s', [])
        <-> exists s1,
              concatenate (S depth) (VRef lF) l1 s = (Ok tt, s1, [])
              /\ concatenate (S depth) (VRef lF) l2 s1 = (Ok tt, s', []))
    /\ (forall s',
           concatenate (S depth) (VRef lF) (l1 ++ l2) s = (Ok tt, s', []) ->
           exists cs ws srcs tabs ts sec,
             initializers_at (S depth) s (l1 ++ l2) (next_fun s) = Ok (cs, ws)
             /\ defaults_at (S depth) s (l1 ++ l2) = Ok srcs
             /\ methods_at (S depth) s (l1 ++ l2) = Ok (tabs, ts)
             /\ length cs = length (l1 ++ l2)
             /\ s' = composed lF lD lP ws (List.filter truthy cs)
                       (map (enumerable_own s) srcs) ts tabs s
             /\ secrets s !! lF = Some sec
             /\ secrets s' !! lF
                = Some (Secret (constructors sec ++ List.filter truthy cs) (defaults sec))).
Proof.
  intros depth no nf lF lD lP s l1 l2 Hc Hclosed Hno Hnf HD HP Hds.
  assert (Hst : stable no nf s s) by (split; [intros l _; reflexivity | lia]).
  pose proof (proj1 (List.Forall_app _ _ _) Hds) as [Hd1 Hd2].
  destruct (composing_allocated _ _ _ _ Hc) as (_ & HaD & HaP).
  assert (HDP : lD <> lP) by apply Hc.
  split.
  - intros s'. split.
    + intros H.
      destruct (concatenate_succeeded depth no nf s lF lD lP Hclosed HD HP _ _ _
                  (conj Hst Hc) Hds H)
        as (cs & ws & srcs & tabs & ts & HI & HDf & HM & ->).
      destruct (initializers_at_app_ok _ _ _ _ _ _ _ HI)
        as (cs1 & ws1 & cs2 & ws2 & HI1 & HI2 & -> & ->).
      destruct (defaults_at_app_ok _ _ _ _ _ HDf) as (vs1 & vs2 & HD1 & HD2 & ->).
      destruct (methods_at_app_ok _ _ _ _ _ _ HM)
        as (tabs1 & ts1 & tabs2 & ts2 & HM1 & HM2 & -> & ->).
      pose proof (concatenate_succeeds depth no nf s lF lD lP Hclosed HD HP l1 s _ _ _ _ _
                    (conj Hst Hc) Hd1 HI1 HD1 HM1) as E1.
      pose proof (concatenate_steady depth no nf s lF lD lP HD HP _ _ _ _ _
                    (conj Hst Hc) E1) as Hs1.
      exists (composed lF lD lP ws1 (List.filter truthy cs1) (map (enumerable_own s) vs1)
                ts1 tabs1 s).
      split; [exact E1|].
      rewrite (concatenate_succeeds depth no nf s lF lD lP Hclosed HD HP l2 _
                 cs2 ws2 vs2 tabs2 ts2 Hs1 Hd2).
      * rewrite composed_composed by assumption.
        rewrite List.filter_app, map_app. reflexivity.
      * rewrite next_fun_composed. exact HI2.
      * exact HD2.
      * exact HM2.
    + intros (s1 & H1 & H2).
      destruct (concatenate_succeeded depth no nf s lF lD lP Hclosed HD HP _ _ _
                  (conj Hst Hc) Hd1 H1)
        as (cs1 & ws1 & vs1 & tabs1 & ts1 & HI1 & HD1 & HM1 & ->).
      pose proof (concatenate_steady depth no nf s lF lD lP HD HP _ _ _ _ _
                    (conj Hst Hc) H1) as Hs1.
      destruct (concatenate_succeeded depth no nf s lF lD lP Hclosed HD HP _ _ _
                  Hs1 Hd2 H2)
        as (cs2 & ws2 & vs2 & tabs2 & ts2 & HI2 & HD2 & HM2 & ->).
      rewrite next_fun_composed in HI2.
      rewrite (concatenate_succeeds depth no nf s lF lD lP Hclosed HD HP (l1 ++ l2) s
                 (cs1 ++ cs2) (ws1 ++ ws2) (vs1 ++ vs2) (tabs1 ++ tabs2) (ts1 ++ ts2)
                 (conj Hst Hc) Hds).
      * rewrite composed_composed by assumption.
        rewrite List.filter_app, map_app. reflexivity.
      * rewrite initializers_at_app, HI1, HI2. reflexivity.
      * rewrite defaults_at_app, HD1, HD2. reflexivity.
      * rewrite methods_at_app, HM1, HM2. reflexivity.
  - intros s' H.
    destruct (concatenate_succeeded depth no nf s lF lD lP Hclosed HD HP _ _ _
                (conj Hst Hc) Hds H)
      as (cs & ws & srcs & tabs & ts & HI & HDf & HM & ->).
    destruct Hc as (_ & (sec & Hsec & _) & _).
    exists cs, ws, srcs, tabs, ts, sec.
    split; [exact HI|]. split; [exact HDf|]. split; [exact HM|].
    split; [apply (initializers_at_length _ _ _ _ _ _ HI)|].
    split; [reflexivity|]. split; [exact Hsec|].
    rewrite secrets_composed, lookup_alter_eq, Hsec. reflexivity.
Qed.

(** The store in which [Deco] composes is one of those: what existed when
    [Deco] was called lies below the two tables of the new factory. *)
Lemma Deco_composes_above s :
  well_formed s ->
  closed_below (next_obj s) (next_fun s) s ->
  composing (LFun (next_fun s)) (LObj (S (S (S (next_obj s))))) (LObj (S (next_obj s)))
            (primed s)
  /\ closed_below (next_obj s) (next_fun s) (primed s)
  /\ next_obj s <= next_obj (primed s)
  /\ next_fun s <= next_fun (primed s)
  /\ ~ below (next_obj s) (next_fun s) (LObj (S (S (S (next_obj s)))))
  /\ ~ below (next_obj s) (next_fun s) (LObj (S (next_obj s))).
Proof.
  intros Hwf Hclosed.
  split; [apply composing_primed; exact Hwf|].
  split.
  - intros l ob Hob Hl.
    assert (Hal : allocated s l) by (destruct l; exact Hl).
    rewrite lookup_primed, decide_False in Hob by (intros ->; simpl in Hl; lia).
    rewrite lookup_prepared in Hob by exact Hal.
    exact (Hclosed l ob Hob Hl).
  - simpl. repeat split; lia.
Qed.

Lemma closed_below_decide no nf s :
  bool_decide (closed_below no nf s) = true -> closed_below no nf s.
Proof. apply bool_decide_eq_true. Qed.

(** The hypotheses of [composing_twice_is_composing_once] hold in the store
    in which [Deco(genre, Artist, record, Artist)] starts composing; there,
    composing [genre, Artist] and then [record, Artist] leaves the store the
    single composition leaves. *)
Lemma composing_twice_is_composing_once_witness :
  composing (LFun 7) (LObj 11) (LObj 9) Demo.mixed_store
  /\ closed_below 8 7 Demo.mixed_store
  /\ 8 <= next_obj Demo.mixed_store
  /\ 7 <= next_fun Demo.mixed_store
  /\ ~ below 8 7 (LObj 11)
  /\ ~ below 8 7 (LObj 9)
  /\ Forall (value_below 8 7) ([Demo.genre; Demo.artist] ++ [Demo.record; Demo.artist])
  /\ exists s1,
       concatenate Demo.depth (VRef (LFun 7)) [Demo.genre; Demo.artist] Demo.mixed_store
       = (Ok tt, s1, [])
       /\ concatenate Demo.depth (VRef (LFun 7)) [Demo.record; Demo.artist] s1
          = (Ok tt,
             store_of (concatenate Demo.depth (VRef (LFun 7))
                         ([Demo.genre; Demo.artist] ++ [Demo.record; Demo.artist])
                         Demo.mixed_store),
             []).
Proof.
  assert (H1 : composing (LFun 7) (LObj 11) (LObj 9) Demo.mixed_store).
  { apply (composing_primed (store_of (Demo.mixed loaded))).
    apply well_formed_decide; vm_compute; reflexivity. }
  assert (H2 : closed_below 8 7 Demo.mixed_store)
    by (apply closed_below_decide; vm_compute; reflexivity).
  assert (H3 : 8 <= next_obj Demo.mixed_store) by (vm_compute; lia).
  assert (H4 : 7 <= next_fun Demo.mixed_store) by (vm_compute; lia).
  assert (H5 : ~ below 8 7 (LObj 11)) by (simpl; lia).
  assert (H6 : ~ below 8 7 (LObj 9)) by (simpl; lia).
  assert (H7 : Forall (value_below 8 7)
                 ([Demo.genre; Demo.artist] ++ [Demo.record; Demo.artist]))
    by (repeat constructor; simpl; lia).
  repeat (split; [assumption|]).
  apply (proj1 (proj1 (composing_twice_is_composing_once 7 8 7 (LFun 7) (LObj 11) (LObj 9)
                         Demo.mixed_store [Demo.genre; Demo.artist]
                         [Demo.record; Demo.artist] H1 H2 H3 H4 H5 H6 H7) _)).
  vm_compute. reflexivity.
Defined.

(** C6 on the same example, by evaluation: the initializers of the factory
    are [genre] and one wrapper for each of the two occurrences of the class,
    in the order of the decorators, and the two ways of composing leave the
    same store. *)
Example composing_four_decorators :
  constructors
    <$> secrets
          (store_of (concatenate Demo.depth (VRef (LFun 7))
                       ([Demo.genre; Demo.artist] ++ [Demo.record; Demo.artist])
                       Demo.mixed_store))
        !! LFun 7
  = Some [Demo.genre; VRef (LFun 11); VRef (LFun 12)]
  /\ store_of (concatenate Demo.depth (VRef (LFun 7)) [Demo.record; Demo.artist]
                 (store_of (concatenate Demo.depth (VRef (LFun 7))
                              [Demo.genre; Demo.artist] Demo.mixed_store)))
     = store_of (concatenate Demo.depth (VRef (LFun 7))
                   ([Demo.genre; Demo.artist] ++ [Demo.record; Demo.artist])
                   Demo.mixed_store).
Proof. split; vm_compute; reflexivity. Qed.

(** C6, as the spec states it, fails for two lists of which one makes the
    composition raise.  Composing [genre] and then [undefined] raises a
    TypeError in the second call and leaves the initializer [genre] of the
    first; composing [genre, undefined] in one call raises the same error
    and leaves the list of initializers empty. *)
Lemma a_failed_composition_keeps_what_was_composed :
  match concatenate Demo.depth (VRef (LFun 7)) [Demo.genre] Demo.mixed_store with
  | (Ok _, s1, _) =>
      outcome_of (concatenate Demo.depth (VRef (LFun 7)) [VUndefined] s1) = Throw TypeError
      /\ constructors
           <$> secrets (store_of (concatenate Demo.depth (VRef (LFun 7)) [VUndefined] s1))
               !! LFun 7
         = Some [Demo.genre]
  | _ => False
  end
  /\ outcome_of (concatenate Demo.depth (VRef (LFun 7)) ([Demo.genre] ++ [VUndefined])
                   Demo.mixed_store)
     = Throw TypeError
  /\ constructors
       <$> secrets (store_of (concatenate Demo.depth (VRef (LFun 7))
                                ([Demo.genre] ++ [VUndefined]) Demo.mixed_store))
           !! LFun 7
     = Some [].
Proof. vm_compute. repeat split. Qed.

(** * More of the module *)

(** ** What a built factory is *)

(** X1.  What [Deco] returns is a function that did not exist before the
    call, so that two calls, even with the same decorators, return two
    different factories. *)
Theorem Deco_returns_a_new_function :
  forall (depth : nat) (decorators : list value) (s : store)
         (r : outcome value) (s' : store) (t : list call),
    well_formed s ->
    Deco (S depth) decorators s = (r, s', t) ->
    (forall f, r = Ok f -> obj_at s f = None /\ isFunction s' f = true)
    /\ (forall f decorators' f' s'' t',
           r = Ok f ->
           Deco (S depth) decorators' s' = (Ok f', s'', t') ->
           f' <> f).
Proof.
  intros depth decorators s r s' t Hwf H.
  pose proof (Deco_frame _ _ _ _ _ _ Hwf H) as (Ht & Hwf' & _ & Hv).
  split.
  - intros f ->. destruct (Hv f eq_refl) as [-> HF]. split.
    + simpl. destruct (heap s !! LFun (next_fun s)) eqn:E; [|reflexivity].
      pose proof (proj1 Hwf _ (ex_intro _ _ E)) as Hlt. simpl in Hlt. lia.
    + unfold isFunction, obj_at. rewrite HF. reflexivity.
  - intros f decorators' f' s'' t' -> H'.
    destruct (Hv f eq_refl) as [-> HF].
    pose proof (Deco_frame _ _ _ _ _ _ Hwf' H') as (_ & _ & _ & Hv').
    destruct (Hv' f' eq_refl) as [-> _].
    pose proof (proj1 Hwf' _ (ex_intro _ _ HF)) as Hlt. simpl in Hlt.
    intros E. inversion E. lia.
Qed.

(** The hypotheses of [Deco_returns_a_new_function] hold of [Deco(genre)],
    which returns a function the store did not have. *)
Lemma Deco_returns_a_new_function_witness :
  well_formed (store_of (Demo.a_function 0 loaded))
  /\ Deco Demo.depth [Demo.genre] (store_of (Demo.a_function 0 loaded))
     = (Ok Demo.reggae_factory, Demo.reggae_store, [])
  /\ obj_at (store_of (Demo.a_function 0 loaded)) Demo.reggae_factory = None
  /\ isFunction Demo.reggae_store Demo.reggae_factory = true.
Proof.
  assert (H1 : well_formed (store_of (Demo.a_function 0 loaded)))
    by (apply well_formed_decide; vm_compute; reflexivity).
  assert (H2 : Deco Demo.depth [Demo.genre] (store_of (Demo.a_function 0 loaded))
               = (Ok Demo.reggae_factory, Demo.reggae_store, []))
    by (vm_compute; reflexivity).
  split; [exact H1|]. split; [exact H2|].
  exact (proj1 (Deco_returns_a_new_function 7 [Demo.genre]
                  (store_of (Demo.a_function 0 loaded)) _ _ _ H1 H2)
               Demo.reggae_factory eq_refl).
Defined.

(** X2.  The factory [Deco] returns and its method table are frozen: an
    assignment to a property of either raises a TypeError, a
    [Reflect.defineProperty] on either returns false, and neither changes the
    store. *)
Theorem a_built_factory_is_frozen :
  forall (depth : nat) (decorators : list value) (s : store)
         (f : value) (s' : store) (t : list call),
    well_formed s ->
    Deco (S depth) decorators s = (Ok f, s', t) ->
    exists p obf obp,
      get (S depth) s' f "prototype" = Ok p
      /\ obj_at s' f = Some obf /\ o_frozen obf = true
      /\ obj_at s' p = Some obp /\ o_frozen obp = true
      /\ (forall k v, set_prop f k v s' = (Throw TypeError, s', []))
      /\ (forall k v, set_prop p k v s' = (Throw TypeError, s', []))
      /\ (forall k v e, defineProperty f k v e s' = (Ok false, s', []))
      /\ (forall k v e, defineProperty p k v e s' = (Ok false, s', [])).
Proof.
  intros depth decorators s f s' t Hwf H.
  destruct (Deco_built _ _ _ _ _ _ Hwf H) as (-> & -> & s2 & _ & -> & Hc & _ & _).
  destruct Hc as (_ & _ & (oF & q & HoF & Hq & Hqv) & _ & (oP & HoP & _) & _ & HFP & _).
  set (s' := update_object (LObj (S (next_obj s))) frozen
               (update_object (LFun (next_fun s)) frozen s2)).
  assert (HF : heap s' !! LFun (next_fun s) = Some (frozen oF)).
  { unfold s'. rewrite lookup_update_ne by discriminate.
    rewrite lookup_update_eq, HoF. reflexivity. }
  assert (HP : heap s' !! LObj (S (next_obj s)) = Some (frozen oP)).
  { unfold s'. rewrite lookup_update_eq, lookup_update_ne by discriminate.
    rewrite HoP. reflexivity. }
  exists (VRef (LObj (S (next_obj s)))), (frozen oF), (frozen oP).
  split.
  { unfold get, get_from, obj_at. rewrite HF. simpl. rewrite Hq, Hqv. reflexivity. }
  split; [exact HF|]. split; [reflexivity|].
  split; [exact HP|]. split; [reflexivity|].
  repeat split; intros; unfold set_prop, defineProperty;
    rewrite ?HF, ?HP; reflexivity.
Qed.

(** The hypotheses of [a_built_factory_is_frozen] hold of [Deco()]. *)
Lemma a_built_factory_is_frozen_witness :
  well_formed loaded
  /\ Deco Demo.depth [] loaded = (Ok (VRef (LFun 5)), built loaded, [])
  /\ exists p obf obp,
       get Demo.depth (built loaded) (VRef (LFun 5)) "prototype" = Ok p
       /\ obj_at (built loaded) (VRef (LFun 5)) = Some obf /\ o_frozen obf = true
       /\ obj_at (built loaded) p = Some obp /\ o_frozen obp = true.
Proof.
  assert (H1 : well_formed loaded) by exact well_formed_loaded.
  assert (H2 : Deco Demo.depth [] loaded = (Ok (VRef (LFun 5)), built loaded, []))
    by (vm_compute; reflexivity).
  split; [exact H1|]. split; [exact H2|].
  destruct (a_built_factory_is_frozen 7 [] loaded _ _ _ H1 H2)
    as (p & obf & obp & Hp & Hf & Hff & Hpo & Hpf & _).
  exists p, obf, obp. auto.
Defined.

(** X3.  The prototype link of a built factory is its own method table
    ([setPrototype] sets both): what the method table holds under a key the
    factory has no own property for is read on the factory itself, so the
    methods of the instances are also statics of the factory, and
    [factory.constructor] is the [constructor] of the method table. *)
Theorem a_built_factory_inherits_from_its_method_table :
  forall (depth : nat) (decorators : list value) (s : store)
         (f : value) (s' : store) (t : list call),
    well_formed s ->
    Deco (S depth) decorators s = (Ok f, s', t) ->
    exists p,
      get (S depth) s' f "prototype" = Ok p
      /\ getPrototypeOf s' f = Ok p
      /\ (forall k q,
             own_props s' f !! k = None ->
             own_props s' p !! k = Some q ->
             get (S (S depth)) s' f k = Ok (p_value q))
      /\ exists c, own_props s' p !! KStr "constructor" = Some (Property c false)
                   /\ get (S (S depth)) s' f "constructor" = Ok c.
Proof.
  intros depth decorators s f s' t Hwf H.
  pose proof (Deco_frame _ _ _ _ _ _ Hwf H) as (_ & _ & _ & Hv).
  destruct (Hv f eq_refl) as [_ HF]. clear Hv.
  destruct (Deco_built _ _ _ _ _ _ Hwf H) as (-> & -> & s2 & _ & Hs' & _ & _ & Hi).
  exists (VRef (LObj (S (next_obj s)))).
  assert (Hread : forall k q,
             own_props s' (VRef (LFun (next_fun s))) !! k = None ->
             own_props s' (VRef (LObj (S (next_obj s)))) !! k = Some q ->
             get (S (S depth)) s' (VRef (LFun (next_fun s))) k = Ok (p_value q)).
  { intros k q Hnone Hk.
    unfold own_props, obj_at in Hnone, Hk. rewrite HF in Hnone. simpl in Hnone.
    unfold get. cbn [get_from]. unfold obj_at at 1. rewrite HF.
    cbn [o_props o_proto]. rewrite Hnone.
    unfold obj_at.
    destruct (heap s' !! LObj (S (next_obj s))) as [ob|];
      [|rewrite lookup_empty in Hk; discriminate].
    rewrite Hk. reflexivity. }
  split.
  { unfold get, get_from, obj_at. rewrite HF. reflexivity. }
  split; [unfold getPrototypeOf, obj_at; rewrite HF; reflexivity|].
  split; [exact Hread|].
  destruct Hi as [[c Hc] _].
  exists c. subst s'. rewrite !own_props_frozen.
  split; [exact Hc|].
  apply (Hread (KStr "constructor") (Property c false)).
  - unfold own_props, obj_at. rewrite HF. reflexivity.
  - rewrite !own_props_frozen. exact Hc.
Qed.

(** The hypotheses of [a_built_factory_inherits_from_its_method_table] hold
    of [Deco()], the function 5, whose method table is a new object. *)
Lemma a_built_factory_inherits_from_its_method_table_witness :
  well_formed loaded
  /\ Deco Demo.depth [] loaded = (Ok (VRef (LFun 5)), built loaded, [])
  /\ exists p, getPrototypeOf (built loaded) (VRef (LFun 5)) = Ok p
               /\ get Demo.depth (built loaded) (VRef (LFun 5)) "prototype" = Ok p.
Proof.
  assert (H1 : well_formed loaded) by exact well_formed_loaded.
  assert (H2 : Deco Demo.depth [] loaded = (Ok (VRef (LFun 5)), built loaded, []))
    by (vm_compute; reflexivity).
  split; [exact H1|]. split; [exact H2|].
  destruct (a_built_factory_inherits_from_its_method_table 7 [] loaded _ _ _ H1 H2)
    as (p & Hp & Hg & _).
  exists p. auto.
Defined.

Lemma prepared_statics s :
  heap (prepared s) !! LFun (S (S (S (next_fun s))))
  = Some (Object FunctionPrototype ∅ (Some CStaticsDefaults) false).
Proof. unfold prepared. cbn [heap]. lookups. reflexivity. Qed.



(** ** The prototype chain *)

Lemma chain_from_sound s : forall n p c,
  chain_from n s p = Ok c ->
  ancestry s p c /\ length c <= n /\ Forall (fun a => is_object a = true) c.
Proof.
  induction n as [|n IH]; intros p c H; cbn [chain_from] in H.
  - destruct (truthy p) eqn:Ht; [discriminate|]. inversion H; subst.
    split; [exact Ht|]. split; [simpl; lia | constructor].
  - destruct (truthy p) eqn:Ht; cbn [negb] in H.
    + destruct (getPrototypeOf s p) as [q|e] eqn:Hq; [|discriminate].
      destruct (chain_from n s q) as [rest|e] eqn:Hrest; [|discriminate].
      inversion H; subst. destruct (IH q rest Hrest) as (Ha & Hl & Ho).
      split; [cbn [ancestry]; eauto|]. split; [simpl; lia|].
      constructor; [|exact Ho]. destruct p; try discriminate. reflexivity.
    + inversion H; subst. split; [exact Ht|]. split; [simpl; lia | constructor].
Qed.

Lemma chain_from_errors s : forall n p e,
  chain_from n s p = Throw e -> e = TypeError \/ e = Diverges.
Proof.
  induction n as [|n IH]; intros p e H; cbn [chain_from] in H.
  - destruct (negb (truthy p)); [discriminate|]. inversion H. auto.
  - destruct (negb (truthy p)); [discriminate|].
    destruct (getPrototypeOf s p) as [q|e'] eqn:Hq.
    + destruct (chain_from n s q) as [rest|e'] eqn:Hrest; [discriminate|].
      inversion H; subst. apply (IH q e Hrest).
    + inversion H; subst. destruct p; inversion Hq; auto.
Qed.

(** X5.  What [chain] returns is the ancestry of the prototype it is given:
    the prototype itself first, then the prototype of each, up to the one
    whose prototype is null; all of them are objects.  Of undefined, null and
    the other falsy values it returns the empty chain; of a truthy value that
    is not an object it raises the TypeError of [Reflect.getPrototypeOf].  It
    raises nothing else, but for the bound on the links it may follow. *)
Theorem chain_returns_the_ancestry :
  forall (depth : nat) (s : store) (p : value),
    (forall c,
        chain depth s p = Ok c ->
        ancestry s p c /\ length c <= depth /\ Forall (fun a => is_object a = true) c)
    /\ (truthy p = false -> chain depth s p = Ok [])
    /\ (truthy p = true -> is_object p = false -> chain (S depth) s p = Throw TypeError)
    /\ (forall e, chain depth s p = Throw e -> e = TypeError \/ e = Diverges).
Proof.
  intros depth s p. unfold chain. split; [apply chain_from_sound|]. split.
  - intros Ht. destruct depth; cbn [chain_from]; rewrite Ht; reflexivity.
  - split; [|apply chain_from_errors].
    intros Ht Ho. cbn [chain_from]. rewrite Ht. cbn [negb].
    destruct p; try discriminate; reflexivity.
Qed.

(** ** Errors in the construction pipeline *)

(** X6.  When the application of an initializer throws, the construction
    pipeline stops there: what [f.apply(o, parameters)] has thrown is what
    [factoryConstructor] throws, in the store the application has left, and
    none of the initializers after it is applied.  So it is when the body of
    an initializer whose [apply] is [Function.prototype.apply] throws; and a
    registered value whose [apply] is not a function (a truthy [constructor]
    entry of a decorator is registered whatever it is) stops the pipeline
    with a TypeError. *)
Theorem an_initializer_that_throws_stops_the_pipeline :
  forall (depth : nat) (apply : value -> value -> list value -> store -> outcome value * store)
         (l : loc) (this : value) (parameters : list value) (s : store) (sec : secret)
         (before : list value) (f : value) (after : list value)
         (o : value) (s1 : store) (t1 : list call),
    secrets s !! l = Some sec ->
    constructors sec = before ++ f :: after ->
    fold_left (pipeline_step depth apply (VRef l) parameters) before (Ok this, s, [])
    = (Ok o, s1, t1) ->
    (forall e s2 t2,
        invoke depth apply f o parameters s1 = (Throw e, s2, t2) ->
        factoryConstructor depth apply (VRef l) this parameters s
        = (Throw e, s2, t1 ++ t2))
    /\ (forall m e s2,
           get depth s1 f "apply" = Ok m ->
           code_of s1 m = Some CApply ->
           isCallable s1 f = true ->
           apply f o parameters s1 = (Throw e, s2) ->
           factoryConstructor depth apply (VRef l) this parameters s
           = (Throw e, s2, t1 ++ [(f, o, parameters)]))
    /\ (forall m,
           get depth s1 f "apply" = Ok m ->
           isCallable s1 m = false ->
           factoryConstructor depth apply (VRef l) this parameters s
           = (Throw TypeError, s1, t1)).
Proof.
  intros depth apply l this parameters s sec before f after o s1 t1 Hsec Hcs Hbefore.
  assert (Hfold : factoryConstructor depth apply (VRef l) this parameters s
                  = fold_left (pipeline_step depth apply (VRef l) parameters) after
                      (pipeline_step depth apply (VRef l) parameters (Ok o, s1, t1) f)).
  { rewrite factoryConstructor_fold, (secrets_of_known _ _ _ Hsec), Hcs.
    rewrite fold_left_app, Hbefore. reflexivity. }
  assert (Hthrow : forall e s2 t2,
             invoke depth apply f o parameters s1 = (Throw e, s2, t2) ->
             factoryConstructor depth apply (VRef l) this parameters s
             = (Throw e, s2, t1 ++ t2)).
  { intros e s2 t2 Hi. rewrite Hfold. unfold pipeline_step at 2. rewrite Hi.
    apply pipeline_step_throw. }
  split; [exact Hthrow|]. split.
  - intros m e s2 Hm Hc Hf Ha. apply Hthrow.
    rewrite (invoke_native _ _ _ _ _ _ _ Hm Hc Hf). unfold body. rewrite Ha. reflexivity.
  - intros m Hm Hcall.
    rewrite <- (app_nil_r t1). apply Hthrow.
    unfold invoke. rewrite (bind_lift_ok _ _ _ _ Hm), bind_gets.
    assert (Hn : bool_decide (code_of s1 m = Some CApply) = false).
    { apply bool_decide_eq_false. intros E. unfold isCallable in Hcall. rewrite E in Hcall.
      discriminate. }
    rewrite Hn, bind_gets, Hcall. reflexivity.
Qed.

(** The hypotheses of [an_initializer_that_throws_stops_the_pipeline] hold of
    [Deco(wrap, note)] when [wrap] throws: [note] is not applied. *)
Lemma an_initializer_that_throws_stops_the_pipeline_witness :
  secrets (store_of (Demo.wrap_then_note loaded)) !! LFun 7
  = Some (Secret [VRef (LFun 5); VRef (LFun 6)] (VRef (LObj 9)))
  /\ constructors (Secret [VRef (LFun 5); VRef (LFun 6)] (VRef (LObj 9)))
     = [] ++ VRef (LFun 5) :: [VRef (LFun 6)]
  /\ get Demo.depth (store_of (Demo.wrap_then_note loaded)) (VRef (LFun 5)) "apply"
     = Ok FunctionApply
  /\ code_of (store_of (Demo.wrap_then_note loaded)) FunctionApply = Some CApply
  /\ isCallable (store_of (Demo.wrap_then_note loaded)) (VRef (LFun 5)) = true
  /\ run Demo.depth Demo.refusing 6 (VRef (LFun 5)) (VRef (LObj 12)) [VStr "ping"]
       (store_of (Demo.wrap_then_note loaded))
     = (Throw (Thrown (VStr "no")), store_of (Demo.wrap_then_note loaded))
  /\ factoryConstructor Demo.depth (run Demo.depth Demo.refusing 6) (VRef (LFun 7))
       (VRef (LObj 12)) [VStr "ping"] (store_of (Demo.wrap_then_note loaded))
     = (Throw (Thrown (VStr "no")), store_of (Demo.wrap_then_note loaded),
        [] ++ [(VRef (LFun 5), VRef (LObj 12), [VStr "ping"])]).
Proof.
  assert (H1 : secrets (store_of (Demo.wrap_then_note loaded)) !! LFun 7
               = Some (Secret [VRef (LFun 5); VRef (LFun 6)] (VRef (LObj 9))))
    by (vm_compute; reflexivity).
  assert (H2 : constructors (Secret [VRef (LFun 5); VRef (LFun 6)] (VRef (LObj 9)))
               = [] ++ VRef (LFun 5) :: [VRef (LFun 6)]) by reflexivity.
  assert (H3 : get Demo.depth (store_of (Demo.wrap_then_note loaded)) (VRef (LFun 5)) "apply"
               = Ok FunctionApply) by (vm_compute; reflexivity).
  assert (H4 : code_of (store_of (Demo.wrap_then_note loaded)) FunctionApply = Some CApply)
    by (vm_compute; reflexivity).
  assert (H5 : isCallable (store_of (Demo.wrap_then_note loaded)) (VRef (LFun 5)) = true)
    by (vm_compute; reflexivity).
  assert (H6 : run Demo.depth Demo.refusing 6 (VRef (LFun 5)) (VRef (LObj 12)) [VStr "ping"]
                 (store_of (Demo.wrap_then_note loaded))
               = (Throw (Thrown (VStr "no")), store_of (Demo.wrap_then_note loaded)))
    by (vm_compute; reflexivity).
  split; [exact H1|]. split; [exact H2|]. split; [exact H3|]. split; [exact H4|].
  split; [exact H5|]. split; [exact H6|].
  exact (proj1 (proj2 (an_initializer_that_throws_stops_the_pipeline Demo.depth
                  (run Demo.depth Demo.refusing 6) (LFun 7) (VRef (LObj 12)) [VStr "ping"]
                  (store_of (Demo.wrap_then_note loaded)) _ [] (VRef (LFun 5))
                  [VRef (LFun 6)] (VRef (LObj 12)) (store_of (Demo.wrap_then_note loaded)) []
                  H1 H2 eq_refl))
               _ _ _ H3 H4 H5 H6).
Defined.

(** ** Decorators that are undefined or null *)

Lemma get_from_errors k : forall n s a e, get_from n s a k = Throw e -> e = Diverges.
Proof.
  induction n as [|n IH]; intros s a e H; cbn [get_from] in H; [inversion H; reflexivity|].
  destruct (obj_at s a) as [ob|]; [|discriminate].
  destruct (o_props ob !! k); [discriminate|]. apply (IH _ _ _ H).
Qed.

Lemma get_errors depth s a k e :
  get depth s a k = Throw e -> e = TypeError \/ e = Diverges.
Proof.
  destruct a; simpl; intros H; try discriminate; try (inversion H; auto; fail).
  right. apply (get_from_errors _ _ _ _ _ H).
Qed.

Lemma initializer_view_errors depth s d e :
  initializer_view depth s d = Throw e -> e = TypeError \/ e = Diverges.
Proof.
  unfold initializer_view.
  destruct (hasOwnProperty s d "constructor") as [[|]|e'] eqn:Hown.
  - destruct (get depth s d "constructor") as [v|e'] eqn:Hg; [discriminate|].
    intros H. inversion H; subst. apply (get_errors _ _ _ _ _ Hg).
  - destruct (isFunction s d && negb (isClass s d)).
    + destruct (get depth s d "prototype") as [p|e'] eqn:Hp.
      * destruct (negb (truthy p)); [discriminate|].
        destruct (get depth s p "constructor") as [v|e''] eqn:Hg; [discriminate|].
        intros H. inversion H; subst. apply (get_errors _ _ _ _ _ Hg).
      * intros H. inversion H; subst. apply (get_errors _ _ _ _ _ Hp).
    + destruct (isClass s d); discriminate.
  - intros H. inversion H; subst. left.
    destruct d; simpl in Hown; inversion Hown; reflexivity.
Qed.

Lemma mapM_constructor_of_nullish depth d ds2 :
  d = VUndefined \/ d = VNull ->
  forall ds1 s,
    exists e s',
      mapM (constructor_of depth) (ds1 ++ d :: ds2) s = (Throw e, s', [])
      /\ (e = TypeError \/ e = Diverges).
Proof.
  intros Hd. induction ds1 as [|x ds1 IH]; intros s; cbn [app mapM].
  - exists TypeError, s. split; [|auto].
    apply bind_throw. apply constructor_of_nullish. exact Hd.
  - pose proof (constructor_of_view depth x s) as Hv.
    destruct (initializer_view depth s x) as [[v|]|e] eqn:Hview.
    + destruct (IH s) as (e & s' & Hm & He). exists e, s'. split; [|exact He].
      rewrite (bind_ok_nil _ _ _ _ _ Hv). apply bind_throw. exact Hm.
    + destruct (IH (wrapped x s)) as (e & s' & Hm & He). exists e, s'. split; [|exact He].
      rewrite (bind_ok_nil _ _ _ _ _ Hv). apply bind_throw. exact Hm.
    + exists e, s. split; [apply bind_throw; exact Hv|].
      apply (initializer_view_errors _ _ _ _ Hview).
Qed.

Lemma secrets_of_object l s : exists sec s', secrets_of (VRef l) s = (Ok sec, s', []).
Proof.
  unfold secrets_of. destruct (secrets s !! l) as [sec|]; eexists; eexists; reflexivity.
Qed.

Lemma Deco_of_a_nullish depth d ds1 ds2 s :
  d = VUndefined \/ d = VNull ->
  exists e s',
    Deco (S depth) (ds1 ++ d :: ds2) s = (Throw e, s', [])
    /\ (e = TypeError \/ e = Diverges)
    /\ (ds1 = [] -> e = TypeError).
Proof.
  intros Hd. rewrite Deco_prepared.
  destruct (secrets_of_object (LFun (next_fun s)) (prepared s)) as (sec & s0 & Hsec).
  destruct (mapM_constructor_of_nullish (S depth) d ds2 Hd ds1 s0) as (e & s' & Hm & He).
  exists e, s'. split; [|split; [exact He|]].
  - apply bind_throw. unfold concatenate. apply bind_throw.
    unfold concatenateConstructors. rewrite (bind_ok_nil _ _ _ _ _ Hsec).
    apply bind_throw. exact Hm.
  - intros ->. cbn [app mapM] in Hm.
    rewrite (bind_throw _ _ _ _ _ _ (constructor_of_nullish (S depth) s0 d Hd)) in Hm.
    inversion Hm. reflexivity.
Qed.

(** X7.  [Deco] never returns a factory when one of its decorators is
    undefined or null, wherever it is among them: it raises.  What it raises
    is the TypeError of
    [Reflect.hasOwnProperty.call], unless a decorator before that one has
    made it raise first; for the first decorator it is that TypeError. *)
Theorem a_decorator_that_is_undefined_or_null_makes_Deco_raise :
  forall (depth : nat) (before after : list value) (s : store),
    (exists e s',
        Deco (S depth) (before ++ VUndefined :: after) s = (Throw e, s', [])
        /\ (e = TypeError \/ e = Diverges)
        /\ (before = [] -> e = TypeError))
    /\ (exists e s',
           Deco (S depth) (before ++ VNull :: after) s = (Throw e, s', [])
           /\ (e = TypeError \/ e = Diverges)
           /\ (before = [] -> e = TypeError)).
Proof.
  intros depth before after s.
  split; apply Deco_of_a_nullish; [left | right]; reflexivity.
Qed.

(** ** The initializer of a class *)

Lemma construction_returns_an_object depth apply target parameters newTarget s r s' t :
  (let! proto := lift (fun s0 => get depth s0 newTarget "prototype") in
   let! o := alloc_object (if is_object proto then proto else ObjectPrototype) ∅ in
   let! r := body apply target o parameters in ret (if is_object r then r else o)) s
  = (Ok r, s', t) ->
  is_object r = true.
Proof.
  intros H. destruct (get depth s newTarget "prototype") as [p|e] eqn:Hp.
  - rewrite (bind_lift_ok _ _ _ _ Hp) in H.
    assert (Ha : alloc_object (if is_object p then p else ObjectPrototype) ∅ s
                 = (Ok (VRef (LObj (next_obj s))), created p s, [])) by reflexivity.
    rewrite (bind_ok_nil _ _ _ _ _ Ha) in H. unfold bind, ret in H.
    destruct (body apply target (VRef (LObj (next_obj s))) parameters (created p s))
      as [[[r0|e] s0] t0]; [|discriminate].
    inversion H; subst. destruct (is_object r0) eqn:E; [exact E | reflexivity].
  - rewrite (bind_lift_throw _ _ _ _ Hp) in H. discriminate.
Qed.

Lemma construct_returns_an_object depth apply target parameters newTarget s r s' t :
  construct depth apply target parameters newTarget s = (Ok r, s', t) -> is_object r = true.
Proof.
  intros H. unfold construct in H. rewrite bind_gets in H.
  destruct (isConstructor s target && isConstructor s newTarget); [|discriminate].
  cbn [negb] in H. rewrite bind_gets in H.
  destruct (code_of s target) as [c|];
    [destruct c|];
    try (apply (construction_returns_an_object _ _ _ _ _ _ _ _ _ H));
    try discriminate.
  destruct (strict_eq newTarget target).
  - unfold Object_call in H.
    destruct (nth 0 parameters VUndefined); inversion H; reflexivity.
  - destruct (get depth s newTarget "prototype") as [p|e] eqn:Hp.
    + rewrite (bind_lift_ok _ _ _ _ Hp) in H. inversion H. reflexivity.
    + rewrite (bind_lift_throw _ _ _ _ Hp) in H. discriminate.
Qed.

(** X8.  The initializer [concatenateConstructors] makes of a class is a new
    function that constructs the class with the parameters it is applied to,
    whatever its receiver is: it never uses the accumulator of the pipeline.
    What it returns is always an object, the new instance of the class or the
    object the constructor of the class has returned, never undefined. *)
Theorem the_initializer_of_a_class_constructs_it :
  forall (depth : nat) (d : value) (s : store),
    own_props s d !! KStr "constructor" = None ->
    isClass s d = true ->
    constructor_of depth d s = (Ok (VRef (LFun (next_fun s))), wrapped d s, [])
    /\ forall (user : behaviours) (n : nat) (this : value) (parameters : list value)
              (s1 : store),
         heap s1 !! LFun (next_fun s) = heap (wrapped d s) !! LFun (next_fun s) ->
         run depth user (S n) (VRef (LFun (next_fun s))) this parameters s1
         = untraced (construct depth (run depth user n) d parameters d s1)
         /\ forall r s2,
              run depth user (S n) (VRef (LFun (next_fun s))) this parameters s1 = (Ok r, s2) ->
              is_object r = true /\ r <> VUndefined.
Proof.
  intros depth d s Hown Hcls.
  split; [apply constructor_of_class; assumption|].
  intros user n this parameters s1 Hw.
  assert (Hrun : run depth user (S n) (VRef (LFun (next_fun s))) this parameters s1
                 = untraced (construct depth (run depth user n) d parameters d s1)).
  { cbn [run]. unfold obj_at. rewrite Hw. unfold wrapped. cbn [heap].
    rewrite lookup_insert_eq. reflexivity. }
  split; [exact Hrun|].
  intros r s2 H. rewrite Hrun in H. unfold untraced in H.
  destruct (construct depth (run depth user n) d parameters d s1) as [[r' s'] t'] eqn:Hc.
  simpl in H. inversion H; subst.
  pose proof (construct_returns_an_object _ _ _ _ _ _ _ _ _ Hc) as Ho.
  split; [exact Ho|]. intros ->. discriminate.
Qed.

(** The hypotheses of [the_initializer_of_a_class_constructs_it] hold of the
    class [Artist]. *)
Lemma the_initializer_of_a_class_constructs_it_witness :
  own_props (store_of (Demo.a_class 4 loaded)) (VRef (LFun 5)) !! KStr "constructor" = None
  /\ isClass (store_of (Demo.a_class 4 loaded)) (VRef (LFun 5)) = true
  /\ constructor_of Demo.depth (VRef (LFun 5)) (store_of (Demo.a_class 4 loaded))
     = (Ok (VRef (LFun (next_fun (store_of (Demo.a_class 4 loaded))))),
        wrapped (VRef (LFun 5)) (store_of (Demo.a_class 4 loaded)), []).
Proof.
  assert (H1 : own_props (store_of (Demo.a_class 4 loaded)) (VRef (LFun 5))
                 !! KStr "constructor" = None) by (vm_compute; reflexivity).
  assert (H2 : isClass (store_of (Demo.a_class 4 loaded)) (VRef (LFun 5)) = true)
    by (vm_compute; reflexivity).
  split; [exact H1|]. split; [exact H2|].
  exact (proj1 (the_initializer_of_a_class_constructs_it Demo.depth (VRef (LFun 5))
                  (store_of (Demo.a_class 4 loaded)) H1 H2)).
Defined.

(** On an example: [Deco(Artist)('midnite')] is the instance the class has
    constructed, whose prototype is the prototype of the class and not the
    method table of the factory. *)
Example a_class_replaces_the_instance :
  match (let! artist := Demo.a_class 4 in
         let! f := Deco Demo.depth [artist] in
         let! o := Demo.called f VUndefined [VStr "midnite"] in
         let! p := lift (fun s => get Demo.depth s artist "prototype") in
         let! q := lift (fun s => get Demo.depth s f "prototype") in
         ret (o, p, q)) loaded with
  | (Ok (o, p, q), s, _) =>
      getPrototypeOf s o = Ok p
      /\ p <> q
      /\ own_props s o !! KStr "artist" = Some (Property (VStr "midnite") true)
  | _ => False
  end.
Proof. vm_compute. split; [reflexivity|]. split; [discriminate | reflexivity]. Qed.

(** ** What [Deco] builds of its decorators *)

Lemma lookup_wrapped d s l : allocated s l -> heap (wrapped d s) !! l = heap s !! l.
Proof.
  intros Hl. unfold wrapped. simpl. apply lookup_insert_ne. intros <-. simpl in Hl. lia.
Qed.

Lemma lookup_wrap_all ws l : forall s, allocated s l -> heap (wrap_all ws s) !! l = heap s !! l.
Proof.
  induction ws as [|d ws IH]; intros s Hl; [reflexivity|].
  rewrite wrap_all_cons, IH by auto with alloc. apply lookup_wrapped. exact Hl.
Qed.

Lemma defaults_at_length depth r ds : forall vs,
  defaults_at depth r ds = Ok vs -> length vs = length ds.
Proof.
  induction ds as [|d ds IH]; intros vs H; cbn [defaults_at] in H.
  - inversion H. reflexivity.
  - destruct (defaults_view depth r d); [|discriminate].
    destruct (defaults_at depth r ds) as [vs'|]; [|discriminate].
    inversion H; subst. cbn [length]. f_equal. apply IH. reflexivity.
Qed.

Lemma methods_at_length depth r ds : forall tabs ts,
  methods_at depth r ds = Ok (tabs, ts) -> length tabs = length ds.
Proof.
  induction ds as [|d ds IH]; intros tabs ts H; cbn [methods_at] in H.
  - inversion H. reflexivity.
  - destruct (methods_view depth r d) as [[c|]|]; [| |discriminate];
      destruct (methods_at depth r ds) as [[tabs' ts']|]; try discriminate;
      inversion H; subst; cbn [length]; f_equal; eapply IH; reflexivity.
Qed.

Lemma stable_primed s : stable (next_obj s) (next_fun s) s (primed s).
Proof.
  split; [|simpl; lia].
  intros l Hl. assert (Hal : allocated s l) by (destruct l; exact Hl).
  rewrite lookup_primed, decide_False by (intros ->; simpl in Hl; lia).
  apply lookup_prepared. exact Hal.
Qed.

(** When [Deco] returns, the store it leaves is the store [composed] of what
    its decorators were when it was called, with the factory and its method
    table frozen. *)
Lemma Deco_succeeded depth decorators s f s' t :
  well_formed s ->
  closed_below (next_obj s) (next_fun s) s ->
  Forall (value_below (next_obj s) (next_fun s)) decorators ->
  Deco (S depth) decorators s = (Ok f, s', t) ->
  exists cs ws srcs tabs ts,
    initializers_at (S depth) s decorators (next_fun (primed s)) = Ok (cs, ws)
    /\ defaults_at (S depth) s decorators = Ok srcs
    /\ methods_at (S depth) s decorators = Ok (tabs, ts)
    /\ s' = update_object (LObj (S (next_obj s))) frozen
              (update_object (LFun (next_fun s)) frozen
                 (composed (LFun (next_fun s)) (LObj (S (S (S (next_obj s)))))
                    (LObj (S (next_obj s))) ws (List.filter truthy cs)
                    (map (enumerable_own s) srcs) ts tabs (primed s))).
Proof.
  intros Hwf Hclosed Hds H.
  destruct (Deco_built _ _ _ _ _ _ Hwf H) as (_ & _ & s2 & Hcat & -> & _).
  destruct (concatenate_succeeded depth (next_obj s) (next_fun s) s
              (LFun (next_fun s)) (LObj (S (S (S (next_obj s))))) (LObj (S (next_obj s)))
              Hclosed) with (ds := decorators) (s := primed s) (s' := s2)
    as (cs & ws & srcs & tabs & ts & HI & HD & HM & ->).
  - simpl. lia.
  - simpl. lia.
  - split; [apply stable_primed | apply composing_primed; exact Hwf].
  - exact Hds.
  - exact Hcat.
  - exists cs, ws, srcs, tabs, ts. auto.
Qed.

Lemma heap_composed_defaults lF lD lP ws xs dt ts pt s ob :
  allocated s lD -> lD <> lP -> heap s !! lD = Some ob ->
  heap (composed lF lD lP ws xs dt ts pt s) !! lD
  = Some (with_props (fun t => fold_left assign_table dt t) ob).
Proof.
  intros Ha Hne Hob. unfold composed.
  unfold assign_store at 1. rewrite lookup_update_ne by congruence.
  rewrite lookup_copy_all by auto with alloc.
  unfold assign_store. rewrite lookup_update_eq.
  change (heap (pushed lF xs (wrap_all ws s)) !! lD) with (heap (wrap_all ws s) !! lD).
  rewrite lookup_wrap_all by exact Ha. rewrite Hob. reflexivity.
Qed.

Lemma heap_composed_methods lF lD lP ws xs dt ts pt s ob :
  allocated s lP -> lD <> lP -> heap s !! lP = Some ob ->
  heap (composed lF lD lP ws xs dt ts pt s) !! lP
  = Some (with_props (fun t => fold_left assign_table pt t) ob).
Proof.
  intros Ha Hne Hob. unfold composed.
  unfold assign_store at 1. rewrite lookup_update_eq.
  rewrite lookup_copy_all by auto with alloc.
  unfold assign_store. rewrite lookup_update_ne by exact Hne.
  change (heap (pushed lF xs (wrap_all ws s)) !! lP) with (heap (wrap_all ws s) !! lP).
  rewrite lookup_wrap_all by exact Ha. rewrite Hob. reflexivity.
Qed.

Lemma merged_enumerable s vs :
  filter (fun kp : key * property => p_enumerable kp.2 = true)
         (fold_left assign_table (map (enumerable_own s) vs) ∅)
  = fold_left assign_table (map (enumerable_own s) vs) ∅.
Proof.
  apply map_eq. intros k.
  destruct (fold_left assign_table (map (enumerable_own s) vs) ∅ !! k) as [p|] eqn:E.
  - apply map_lookup_filter_Some. split; [exact E|].
    rewrite merged_lookup in E. apply (winner_enumerable _ _ _ _ E).
  - destruct (filter _ _ !! k) as [p|] eqn:E'; [|reflexivity].
    apply map_lookup_filter_Some in E'. destruct E' as [E' _]. congruence.
Qed.

(** X9.  The defaults a factory is built with are the own [defaults] of its
    decorators, and nothing else: when [Deco] returns, the private defaults
    table of the factory holds, for every key, the entry of the last
    decorator whose own [defaults] has that key as an own enumerable
    property ([defaults_at] has one value for each decorator, undefined for
    a decorator with no own [defaults]).  When no decorator gives the method
    table an enumerable [defaults] of its own, the [defaults] of the method
    table is still the accessor [initialize] has installed, and that
    function, called with no update, returns a new object with exactly these
    entries. *)
Theorem a_factory_is_built_with_the_own_defaults_of_its_decorators :
  forall (depth : nat) (decorators : list value) (s : store)
         (f : value) (s' : store) (t : list call),
    well_formed s ->
    closed_below (next_obj s) (next_fun s) s ->
    Forall (value_below (next_obj s) (next_fun s)) decorators ->
    Deco (S depth) decorators s = (Ok f, s', t) ->
    exists srcs sec tabs ts p table,
      defaults_at (S depth) s decorators = Ok srcs
      /\ length srcs = length decorators
      /\ f = VRef (LFun (next_fun s))
      /\ secrets s' !! LFun (next_fun s) = Some sec
      /\ (forall k, own_props s' (defaults sec) !! k = winner k (map (enumerable_own s) srcs))
      /\ (forall k, table !! k = winner k (map (enumerable_own s) srcs))
      /\ methods_at (S depth) s decorators = Ok (tabs, ts)
      /\ get (S depth) s' f "prototype" = Ok p
      /\ (winner (KStr "defaults") tabs = None ->
          exists accessor,
            get (S depth) s' p "defaults" = Ok accessor
            /\ code_of s' accessor = Some (CMembersDefaults f)
            /\ forall user n this,
                 run (S depth) user (S n) accessor this [] s'
                 = (Ok (VRef (LObj (next_obj s'))), copied table s')).
Proof.
  intros depth decorators s f s' t Hwf Hclosed Hds H.
  pose proof (Deco_frame _ _ _ _ _ _ Hwf H) as (_ & Hwf' & _ & Hv).
  destruct (Hv f eq_refl) as [-> HF]. clear Hv.
  destruct (Deco_built _ _ _ _ _ _ Hwf H) as (_ & _ & s0 & _ & Hs0 & _ & Hu & _).
  destruct (Deco_succeeded _ _ _ _ _ _ Hwf Hclosed Hds H)
    as (cs & ws & srcs & tabs & ts & HI & HD & HM & Hs').
  set (lF := LFun (next_fun s)) in *.
  set (lD := LObj (S (S (S (next_obj s))))) in *.
  set (lP := LObj (S (next_obj s))) in *.
  set (dt := map (enumerable_own s) srcs) in *.
  assert (HlD : heap s' !! lD = Some (Object ObjectPrototype (fold_left assign_table dt ∅)
                                             None false)).
  { rewrite Hs'. rewrite !lookup_update_ne by (unfold lP, lF, lD; loc_neq).
    rewrite (heap_composed_defaults lF lD lP _ _ _ _ _ (primed s)
               (Object ObjectPrototype ∅ None false)).
    - reflexivity.
    - unfold lD. simpl. lia.
    - unfold lD, lP. loc_neq.
    - unfold lD. rewrite lookup_primed, decide_True by reflexivity. reflexivity. }
  assert (Hsec : secrets s' !! lF = Some (Secret (List.filter truthy cs) (VRef lD))).
  { rewrite Hs'. unfold update_object, set_heap. cbn [secrets].
    rewrite secrets_composed, lookup_alter_eq.
    unfold primed, set_secrets. cbn [secrets]. rewrite lookup_insert_eq. reflexivity. }
  assert (Hown : own_props s' (VRef lD) = fold_left assign_table dt ∅).
  { unfold own_props, obj_at. rewrite HlD. reflexivity. }
  assert (Hmd : members_defaults (VRef lF) [] s'
                = (Ok (VRef (LObj (next_obj s'))),
                   copied (fold_left assign_table (map (enumerable_own s') [VRef lD]) ∅) s',
                   [])).
  { apply (members_defaults_explicit lF _ [] s' Hwf' Hsec).
    repeat constructor. intros _. simpl. rewrite HlD. eauto. }
  exists srcs, (Secret (List.filter truthy cs) (VRef lD)), tabs, ts, (VRef lP),
    (fold_left assign_table (map (enumerable_own s') [VRef lD]) ∅).
  split; [exact HD|]. split; [apply (defaults_at_length _ _ _ _ HD)|].
  split; [reflexivity|]. split; [exact Hsec|].
  split.
  { intros k. cbn [defaults]. rewrite Hown. apply merged_lookup. }
  split.
  { intros k. rewrite merged_lookup. cbn [map winner].
    unfold enumerable_own. rewrite Hown. unfold dt. rewrite merged_enumerable.
    apply merged_lookup. }
  split; [exact HM|].
  split.
  { unfold get, get_from, obj_at. rewrite HF. reflexivity. }
  intros Hnone.
  exists (VRef (LFun (S (S (next_fun s))))).
  assert (HMD : heap s' !! LFun (S (S (next_fun s)))
                = Some (Object FunctionPrototype ∅ (Some (CMembersDefaults (VRef lF))) false)).
  { rewrite Hs0. rewrite !lookup_update_ne by (unfold lP, lF; loc_neq).
    destruct Hu as (_ & _ & Hkept & _). rewrite Hkept.
    - rewrite lookup_primed, decide_False by discriminate.
      unfold prepared. cbn [heap]. lookups. reflexivity.
    - repeat split; try discriminate. simpl. lia. }
  assert (Hcode : code_of s' (VRef (LFun (S (S (next_fun s)))))
                  = Some (CMembersDefaults (VRef lF))).
  { unfold code_of, obj_at. rewrite HMD. reflexivity. }
  split.
  { apply get_own with (p := Property (VRef (LFun (S (S (next_fun s))))) false).
    unfold own_props, obj_at. rewrite Hs'.
    rewrite lookup_update_eq, lookup_update_ne by (unfold lP, lF; loc_neq).
    rewrite (heap_composed_methods lF lD lP _ _ _ _ _ (primed s) _
               ltac:(unfold lP; simpl; lia) ltac:(unfold lD, lP; loc_neq)
               ltac:(unfold lP; rewrite lookup_primed, decide_False by loc_neq;
                     apply prepared_table)).
    cbn [fmap option_fmap option_map frozen with_props o_props].
    rewrite fold_assign_lookup, Hnone.
    apply lookup_insert_eq. }
  split; [exact Hcode|].
  intros user n this. cbn [run]. unfold obj_at. rewrite HMD. cbn [o_code].
  rewrite Hmd. reflexivity.
Qed.

(** X10.  The methods a factory is built with: when [Deco] returns, the
    method table of the factory holds, for every key other than
    [constructor] and [defaults], the entry of the last decorator that gives
    one, as an enumerable property, and no entry when no decorator gives one.
    What a decorator gives is what [methods_at] lists for it: its own
    enumerable properties when it is not a function, and the flattened chain
    of its [prototype] when it is. *)
Theorem a_factory_is_built_with_the_methods_of_its_decorators :
  forall (depth : nat) (decorators : list value) (s : store)
         (f : value) (s' : store) (t : list call),
    well_formed s ->
    closed_below (next_obj s) (next_fun s) s ->
    Forall (value_below (next_obj s) (next_fun s)) decorators ->
    Deco (S depth) decorators s = (Ok f, s', t) ->
    exists tabs ts p,
      methods_at (S depth) s decorators = Ok (tabs, ts)
      /\ length tabs = length decorators
      /\ get (S depth) s' f "prototype" = Ok p
      /\ forall k,
           k <> KStr "constructor" -> k <> KStr "defaults" ->
           own_props s' p !! k
           = match winner k tabs with
             | Some q => Some (Property (p_value q) true)
             | None => None
             end.
Proof.
  intros depth decorators s f s' t Hwf Hclosed Hds H.
  pose proof (Deco_frame _ _ _ _ _ _ Hwf H) as (_ & _ & _ & Hv).
  destruct (Hv f eq_refl) as [-> HF]. clear Hv.
  destruct (Deco_succeeded _ _ _ _ _ _ Hwf Hclosed Hds H)
    as (cs & ws & srcs & tabs & ts & HI & HD & HM & Hs').
  set (lF := LFun (next_fun s)) in *.
  set (lD := LObj (S (S (S (next_obj s))))) in *.
  set (lP := LObj (S (next_obj s))) in *.
  exists tabs, ts, (VRef lP).
  split; [exact HM|]. split; [apply (methods_at_length _ _ _ _ _ HM)|].
  split.
  { unfold get, get_from, obj_at. rewrite HF. reflexivity. }
  intros k Hk1 Hk2.
  unfold own_props, obj_at. rewrite Hs'.
  rewrite lookup_update_eq, lookup_update_ne by (unfold lP, lF; loc_neq).
  rewrite (heap_composed_methods lF lD lP _ _ _ _ _ (primed s) _
             ltac:(unfold lP; simpl; lia) ltac:(unfold lD, lP; loc_neq)
             ltac:(unfold lP; rewrite lookup_primed, decide_False by loc_neq;
                   apply prepared_table)).
  cbn [fmap option_fmap option_map frozen with_props o_props].
  rewrite fold_assign_lookup.
  rewrite lookup_insert_ne by congruence.
  rewrite lookup_singleton_ne by congruence.
  reflexivity.
Qed.

Lemma well_formed_mixed : well_formed (store_of (Demo.mixed loaded)).
Proof. apply well_formed_decide; vm_compute; reflexivity. Qed.

Lemma closed_mixed : closed_below 8 7 (store_of (Demo.mixed loaded)).
Proof. apply closed_below_decide. vm_compute. reflexivity. Qed.

(** The hypotheses of
    [a_factory_is_built_with_the_own_defaults_of_its_decorators] hold of
    [Deco(genre, Artist, record)]: only [record] has own [defaults]. *)
Lemma a_factory_is_built_with_the_own_defaults_of_its_decorators_witness :
  well_formed (store_of (Demo.mixed loaded))
  /\ closed_below 8 7 (store_of (Demo.mixed loaded))
  /\ Forall (value_below 8 7) [Demo.genre; Demo.artist; Demo.record]
  /\ Deco Demo.depth [Demo.genre; Demo.artist; Demo.record] (store_of (Demo.mixed loaded))
     = (Ok (VRef (LFun 7)),
        store_of (Deco Demo.depth [Demo.genre; Demo.artist; Demo.record]
                    (store_of (Demo.mixed loaded))),
        [])
  /\ exists srcs,
       defaults_at Demo.depth (store_of (Demo.mixed loaded))
         [Demo.genre; Demo.artist; Demo.record] = Ok srcs
       /\ length srcs = 3.
Proof.
  assert (H1 : well_formed (store_of (Demo.mixed loaded))) by exact well_formed_mixed.
  assert (H2 : closed_below 8 7 (store_of (Demo.mixed loaded))) by exact closed_mixed.
  assert (H3 : Forall (value_below 8 7) [Demo.genre; Demo.artist; Demo.record])
    by (repeat constructor; simpl; lia).
  assert (H4 : Deco Demo.depth [Demo.genre; Demo.artist; Demo.record]
                 (store_of (Demo.mixed loaded))
               = (Ok (VRef (LFun 7)),
                  store_of (Deco Demo.depth [Demo.genre; Demo.artist; Demo.record]
                              (store_of (Demo.mixed loaded))),
                  [])) by (vm_compute; reflexivity).
  split; [exact H1|]. split; [exact H2|]. split; [exact H3|]. split; [exact H4|].
  destruct (a_factory_is_built_with_the_own_defaults_of_its_decorators 7
              [Demo.genre; Demo.artist; Demo.record] (store_of (Demo.mixed loaded))
              _ _ _ H1 H2 H3 H4) as (srcs & sec & tabs & ts & p & table & Hd & Hl & _).
  exists srcs. split; [exact Hd | exact Hl].
Defined.

(** The hypotheses of [a_factory_is_built_with_the_methods_of_its_decorators]
    hold of [Deco(genre, Artist, record)]. *)
Lemma a_factory_is_built_with_the_methods_of_its_decorators_witness :
  well_formed (store_of (Demo.mixed loaded))
  /\ closed_below 8 7 (store_of (Demo.mixed loaded))
  /\ Forall (value_below 8 7) [Demo.genre; Demo.artist; Demo.record]
  /\ Deco Demo.depth [Demo.genre; Demo.artist; Demo.record] (store_of (Demo.mixed loaded))
     = (Ok (VRef (LFun 7)),
        store_of (Deco Demo.depth [Demo.genre; Demo.artist; Demo.record]
                    (store_of (Demo.mixed loaded))),
        [])
  /\ exists tabs ts,
       methods_at Demo.depth (store_of (Demo.mixed loaded))
         [Demo.genre; Demo.artist; Demo.record] = Ok (tabs, ts)
       /\ length tabs = 3.
Proof.
  assert (H1 : well_formed (store_of (Demo.mixed loaded))) by exact well_formed_mixed.
  assert (H2 : closed_below 8 7 (store_of (Demo.mixed loaded))) by exact closed_mixed.
  assert (H3 : Forall (value_below 8 7) [Demo.genre; Demo.artist; Demo.record])
    by (repeat constructor; simpl; lia).
  assert (H4 : Deco Demo.depth [Demo.genre; Demo.artist; Demo.record]
                 (store_of (Demo.mixed loaded))
               = (Ok (VRef (LFun 7)),
                  store_of (Deco Demo.depth [Demo.genre; Demo.artist; Demo.record]
                              (store_of (Demo.mixed loaded))),
                  [])) by (vm_compute; reflexivity).
  split; [exact H1|]. split; [exact H2|]. split; [exact H3|]. split; [exact H4|].
  destruct (a_factory_is_built_with_the_methods_of_its_decorators 7
              [Demo.genre; Demo.artist; Demo.record] (store_of (Demo.mixed loaded))
              _ _ _ H1 H2 H3 H4) as (tabs & ts & p & Hm & Hl & _).
  exists tabs, ts. split; [exact Hm | exact Hl].
Defined.

(** On the same example, by evaluation: the defaults of the factory are the
    [label] of [record], and its method table has the [play] of [record]. *)
Example what_three_decorators_build :
  match (let! f := Deco Demo.depth [Demo.genre; Demo.artist; Demo.record] in
         let! p := lift (fun s => get Demo.depth s f "prototype") in
         let! d := members_defaults f [] in
         ret (p, d)) (store_of (Demo.mixed loaded)) with
  | (Ok (p, d), s, _) =>
      own_props s d = {[ KStr "label" := Property (VStr "gargamel records") true ]}
      /\ own_props s p !! KStr "play" = Some (Property (VStr "play") true)
  | _ => False
  end.
Proof. vm_compute. repeat split. Qed.

(** On [Deco(genre)], whose decorator gives no [defaults]: the [defaults] of
    the method table is the installed accessor, which returns a new object.
    On [Deco(genre, Artist, record)] the own [defaults] of [record] has been
    assigned onto the method table in its place, and is not a function. *)
Example the_defaults_of_the_method_table :
  match (let! defaults := lift (fun s => get Demo.depth s Demo.reggae_prototype "defaults") in
         let! r := Demo.called defaults Demo.reggae_prototype [] in
         ret (defaults, r)) Demo.reggae_store with
  | (Ok (defaults, r), s, _) =>
      code_of s defaults = Some (CMembersDefaults Demo.reggae_factory)
      /\ obj_at Demo.reggae_store r = None
      /\ own_props s r = ∅
  | _ => False
  end
  /\
  match (let! f := Deco Demo.depth [Demo.genre; Demo.artist; Demo.record] in
         let! p := lift (fun s => get Demo.depth s f "prototype") in
         let! defaults := lift (fun s => get Demo.depth s p "defaults") in
         let! own := lift (fun s => get Demo.depth s Demo.record "defaults") in
         ret (defaults, own)) (store_of (Demo.mixed loaded)) with
  | (Ok (defaults, own), s, _) => defaults = own /\ isFunction s defaults = false
  | _ => False
  end.
Proof. vm_compute. repeat split. Qed.

(** ** Loading decorators from a directory *)

Lemma mapM_ext_in {A B} (f g : A -> M B) (l : list A) :
  (forall x s, In x l -> f x s = g x s) -> forall s, mapM f l s = mapM g l s.
Proof.
  induction l as [|x l IH]; intros H s; [reflexivity|].
  cbn [mapM]. unfold bind. rewrite (H x s (or_introl eq_refl)).
  destruct (g x s) as [[[y|e] s1] t1]; [|reflexivity].
  rewrite (IH (fun x' s' Hin => H x' s' (or_intror Hin)) s1). reflexivity.
Qed.

Lemma mapM_pure {A B} (f : A -> M B) (g : A -> B) (l : list A) :
  (forall x s, In x l -> f x s = (Ok (g x), s, [])) ->
  forall s, mapM f l s = (Ok (map g l), s, []).
Proof.
  induction l as [|x l IH]; intros H s; [reflexivity|].
  cbn [mapM map]. rewrite (bind_ok_nil _ _ _ _ _ (H x s (or_introl eq_refl))).
  rewrite (bind_ok_nil _ _ _ _ _ (IH (fun x' s' Hin => H x' s' (or_intror Hin)) s)).
  reflexivity.
Qed.

Lemma notIndex_false file :
  notIndex file = false <-> file = "index.js" \/ file = "index.json" \/ file = "index.node".
Proof.
  unfold notIndex. repeat case_bool_decide; split; intros Hx; auto; try discriminate.
  destruct Hx as [?|[?|?]]; contradiction.
Qed.

Lemma filter_nothing {A} (P : A -> bool) (l : list A) :
  Forall (fun x => P x = false) l -> List.filter P l = [].
Proof.
  induction 1 as [|x l Hx _ IH]; [reflexivity|]. cbn [List.filter]. rewrite Hx. exact IH.
Qed.


(** ** The static [defaults] of a factory *)

Lemma Deco_defaults_table depth decorators s f s' t :
  well_formed s ->
  closed_below (next_obj s) (next_fun s) s ->
  Forall (value_below (next_obj s) (next_fun s)) decorators ->
  Deco (S depth) decorators s = (Ok f, s', t) ->
  exists srcs cs,
    defaults_at (S depth) s decorators = Ok srcs
    /\ secrets s' !! LFun (next_fun s)
       = Some (Secret cs (VRef (LObj (S (S (S (next_obj s)))))))
    /\ own_props s' (VRef (LObj (S (S (S (next_obj s))))))
       = fold_left assign_table (map (enumerable_own s) srcs) ∅.
Proof.
  intros Hwf Hclosed Hds H.
  destruct (Deco_succeeded _ _ _ _ _ _ Hwf Hclosed Hds H)
    as (cs & ws & srcs & tabs & ts & HI & HD & HM & Hs').
  exists srcs, (List.filter truthy cs). split; [exact HD|]. split.
  - rewrite Hs'. unfold update_object, set_heap. cbn [secrets].
    rewrite secrets_composed, lookup_alter_eq.
    unfold primed, set_secrets. cbn [secrets]. rewrite lookup_insert_eq. reflexivity.
  - unfold own_props, obj_at. rewrite Hs'. rewrite !lookup_update_ne by loc_neq.
    rewrite (heap_composed_defaults _ _ _ _ _ _ _ _ (primed s)
               (Object ObjectPrototype ∅ None false)).
    + reflexivity.
    + simpl. lia.
    + loc_neq.
    + rewrite lookup_primed, decide_True by reflexivity. reflexivity.
Qed.

Lemma value_below_mono no nf no' nf' v :
  no <= no' -> nf <= nf' -> value_below no nf v -> value_below no' nf' v.
Proof. destruct v as [| | | | |[n|n]]; simpl; auto; lia. Qed.

Lemma closed_below_new_object no nf o s :
  well_formed s ->
  closed_below (next_obj s) (next_fun s) s ->
  next_obj s < no -> next_fun s <= nf ->
  value_below no nf (o_proto o) ->
  (forall k q, o_props o !! k = Some q -> value_below no nf (p_value q)) ->
  closed_below no nf (new_object o s).
Proof.
  intros Hwf Hclosed Hno Hnf Hproto Hprops l ob Hob Hl.
  unfold new_object in Hob. cbn [heap] in Hob. rewrite lookup_insert in Hob.
  case_decide as E.
  - inversion Hob; subst. split; [exact Hproto|]. intros k q Hq. apply (Hprops k q Hq).
  - assert (Hal : below (next_obj s) (next_fun s) l).
    { pose proof (proj1 Hwf l (ex_intro _ _ Hob)) as Ha. destruct l; exact Ha. }
    destruct (Hclosed l ob Hob Hal) as [Hp Hq]. split.
    + apply (value_below_mono (next_obj s) (next_fun s)); [lia | lia | exact Hp].
    + intros k q Hkq. apply (value_below_mono (next_obj s) (next_fun s)); [lia | lia |].
      apply (Hq k q Hkq).
Qed.

Lemma winner_in k q tabs :
  winner k tabs = Some q -> exists t, In t tabs /\ t !! k = Some q.
Proof.
  induction tabs as [|t tabs IH]; cbn [winner]; [discriminate|].
  destruct (winner k tabs) as [p|].
  - intros H. destruct (IH H) as (t' & Hin & Ht'). exists t'. split; [right; exact Hin|exact Ht'].
  - intros H. exists t. split; [left; reflexivity | exact H].
Qed.

Lemma merged_below s vs k q :
  well_formed s ->
  closed_below (next_obj s) (next_fun s) s ->
  fold_left assign_table (map (enumerable_own s) vs) ∅ !! k = Some q ->
  value_below (next_obj s) (next_fun s) (p_value q).
Proof.
  intros Hwf Hclosed H. rewrite merged_lookup in H.
  destruct (winner_in _ _ _ H) as (tb & Hin & Hq).
  apply in_map_iff in Hin. destruct Hin as (v & <- & _).
  unfold enumerable_own in Hq. apply map_lookup_filter_Some in Hq. destruct Hq as [Hq _].
  unfold own_props, obj_at in Hq.
  destruct v as [| | | | |l]; try (rewrite lookup_empty in Hq; discriminate).
  destruct (heap s !! l) as [ob|] eqn:Hob; [|rewrite lookup_empty in Hq; discriminate].
  assert (Hal : below (next_obj s) (next_fun s) l).
  { pose proof (proj1 Hwf l (ex_intro _ _ Hob)) as Ha. destruct l; exact Ha. }
  exact (proj2 (Hclosed l ob Hob Hal) k q Hq).
Qed.

(** X12.  The static [defaults(...updates)] of a factory, when it returns,
    has built a new factory whose private defaults table holds the merge of
    the defaults of the factory it is called on and the updates: for every
    key, the entry of the last of them that has it as an own enumerable
    property.  The factory it is called on contributes nothing else to these
    defaults (its own [defaults] property is the accessor, a function with no
    enumerable property), and keeps its private record as it was. *)
Theorem static_defaults_builds_a_factory_with_the_merged_defaults :
  forall (depth : nat) (lT : loc) (sec : secret) (updates : list value) (s : store)
         (sd : value) (e : bool) (f : value) (s' : store) (t : list call),
    well_formed s ->
    closed_below (next_obj s) (next_fun s) s ->
    secrets s !! lT = Some sec ->
    Forall (present s) (defaults sec :: updates) ->
    own_props s (VRef lT) !! KStr "defaults" = Some (Property sd e) ->
    enumerable_own s sd = ∅ ->
    statics_defaults (S depth) (VRef lT) updates s = (Ok f, s', t) ->
    exists sec',
      f = VRef (LFun (next_fun s))
      /\ obj_at s f = None
      /\ secrets s' !! LFun (next_fun s) = Some sec'
      /\ (forall k,
             own_props s' (defaults sec') !! k
             = winner k (map (enumerable_own s) (defaults sec :: updates)))
      /\ secrets s' !! lT = Some sec.
Proof.
  intros depth lT sec updates s sd e f s' t Hwf Hclosed Hsec Hpres Hown Hsd H.
  set (merged := fold_left assign_table (map (enumerable_own s) (defaults sec :: updates)) ∅).
  set (c := VRef (LObj (next_obj s))).
  set (s1 := copied merged s).
  set (ob := Object ObjectPrototype {[ KStr "defaults" := Property c true ]} None false).
  set (s2 := new_object ob s1).
  (* the object the factory is *)
  assert (HT : exists obT, heap s !! lT = Some obT
                           /\ o_props obT !! KStr "defaults" = Some (Property sd e)).
  { unfold own_props, obj_at in Hown.
    destruct (heap s !! lT) as [obT|]; [eauto | rewrite lookup_empty in Hown; discriminate]. }
  destruct HT as (obT & HobT & HpT).
  assert (HaT : allocated s lT) by (apply (proj1 Hwf); eauto).
  assert (HbT : below (next_obj s) (next_fun s) lT) by (destruct lT; exact HaT).
  assert (Hsdb : value_below (next_obj s) (next_fun s) sd)
    by exact (proj2 (Hclosed lT obT HobT HbT) _ _ HpT).
  (* the two stores before [Deco] *)
  assert (Hwf1 : well_formed s1)
    by apply (well_formed_new_object (Object ObjectPrototype merged None false) s Hwf).
  assert (Hwf2 : well_formed s2) by apply (well_formed_new_object ob s1 Hwf1).
  assert (Hcl1 : closed_below (next_obj s1) (next_fun s1) s1).
  { apply (closed_below_new_object (S (next_obj s)) (next_fun s)
             (Object ObjectPrototype merged None false) s Hwf Hclosed);
      [lia | lia | simpl; lia |].
    intros k q Hq. apply (value_below_mono (next_obj s) (next_fun s)); [lia | lia |].
    apply (merged_below s (defaults sec :: updates) k q Hwf Hclosed Hq). }
  assert (Hcl2 : closed_below (next_obj s2) (next_fun s2) s2).
  { apply (closed_below_new_object (S (S (next_obj s))) (next_fun s) ob s1 Hwf1 Hcl1);
      [simpl; lia | simpl; lia | simpl; lia |].
    intros k q Hq. unfold ob in Hq. cbn [o_props] in Hq.
    apply lookup_singleton_Some in Hq. destruct Hq as [_ <-]. simpl. lia. }
  assert (Hagree : agree_below (next_obj s) (next_fun s) s s2).
  { intros l Hl. assert (Hal : allocated s l) by (destruct l; exact Hl).
    unfold s2. rewrite lookup_new_object by (apply allocated_copied; exact Hal).
    apply lookup_copied. exact Hal. }
  (* what [statics_defaults] runs *)
  unfold statics_defaults in H.
  rewrite (bind_ok_nil _ _ _ _ _ (secrets_of_known _ _ _ Hsec)) in H.
  assert (Hcopy : Copy (defaults sec :: updates) s = (Ok c, s1, [])).
  { apply Copy_explicit. eapply List.Forall_impl; [|exact Hpres].
    intros v Hv. apply present_not_fresh; assumption. }
  rewrite (bind_ok_nil _ _ _ _ _ Hcopy) in H.
  assert (Halloc : alloc_object ObjectPrototype {[ KStr "defaults" := Property c true ]} s1
                   = (Ok (VRef (LObj (S (next_obj s)))), s2, [])) by reflexivity.
  rewrite (bind_ok_nil _ _ _ _ _ Halloc) in H.
  assert (Hds : Forall (value_below (next_obj s2) (next_fun s2))
                  [VRef lT; VRef (LObj (S (next_obj s)))]).
  { constructor.
    - apply (value_below_mono (next_obj s) (next_fun s)); [simpl; lia | simpl; lia | exact HbT].
    - constructor; [simpl; lia | constructor]. }
  pose proof (Deco_frame _ _ _ _ _ _ Hwf2 H) as (_ & _ & Hext & Hv).
  destruct (Hv f eq_refl) as [Hf _]. clear Hv.
  destruct (Deco_defaults_table _ _ _ _ _ _ Hwf2 Hcl2 Hds H) as (srcs & cs & HD & Hs' & Htab).
  (* what the two decorators give for defaults *)
  assert (HownT2 : own_props s2 (VRef lT) !! KStr "defaults" = Some (Property sd e)).
  { unfold own_props, obj_at. rewrite (Hagree lT HbT), HobT. exact HpT. }
  assert (Hown2 : own_props s2 (VRef (LObj (S (next_obj s)))) !! KStr "defaults"
                  = Some (Property c true)).
  { unfold own_props, obj_at, s2, new_object. cbn [heap next_obj copied s1].
    rewrite lookup_insert_eq. apply lookup_singleton_eq. }
  assert (Hsrcs : srcs = [sd; c]).
  { cbn [defaults_at] in HD. unfold defaults_view in HD.
    rewrite (hasOwnProperty_true _ _ _ _ HownT2), (get_own _ _ _ _ _ HownT2) in HD.
    rewrite (hasOwnProperty_true _ _ _ _ Hown2), (get_own _ _ _ _ _ Hown2) in HD.
    inversion HD. reflexivity. }
  subst srcs.
  assert (He1 : enumerable_own s2 sd = ∅).
  { rewrite (enumerable_own_agree _ _ s s2 Hagree sd Hsdb). exact Hsd. }
  assert (He2 : enumerable_own s2 c = merged).
  { unfold enumerable_own, own_props, obj_at, c, s2.
    rewrite lookup_new_object by (simpl; lia).
    unfold s1, copied. cbn [heap]. rewrite lookup_insert_eq. cbn [o_props].
    apply merged_enumerable. }
  exists (Secret cs (VRef (LObj (S (S (S (next_obj s2))))))).
  split; [exact Hf|]. split.
  { rewrite Hf. change (obj_at s (VRef (LFun (next_fun s2))))
      with (heap s !! LFun (next_fun s)).
    destruct (heap s !! LFun (next_fun s)) eqn:E; [|reflexivity].
    pose proof (proj1 Hwf _ (ex_intro _ _ E)) as Hlt. simpl in Hlt. lia. }
  split; [exact Hs'|]. split.
  - intros k. rewrite <- (merged_lookup s (defaults sec :: updates) k). fold merged.
    cbn [defaults]. rewrite Htab.
    change (map (enumerable_own s2) [sd; c]) with [enumerable_own s2 sd; enumerable_own s2 c].
    cbn [fold_left].
    rewrite He1, He2, assign_table_empty, assign_table_lookup, lookup_empty.
    destruct (merged !! k) as [q|] eqn:Hq; [|reflexivity].
    cbn [assign_prop]. unfold merged in Hq. rewrite merged_lookup in Hq.
    rewrite <- (winner_enumerable _ _ _ _ Hq). destruct q. reflexivity.
  - destruct Hext as (_ & _ & _ & Hkept). rewrite Hkept; [exact Hsec|].
    apply (allocated_mono s); [simpl; lia | simpl; lia | exact HaT].
Qed.

Lemma closed_plain_store : closed_below 10 9 Demo.plain_store.
Proof. apply closed_below_decide. vm_compute. reflexivity. Qed.

(** The hypotheses of
    [static_defaults_builds_a_factory_with_the_merged_defaults] hold of
    [Deco()] and the update [{ genre: 'reggae', artist: 'midnite' }]. *)
Lemma static_defaults_builds_a_factory_with_the_merged_defaults_witness :
  well_formed Demo.plain_store
  /\ closed_below (next_obj Demo.plain_store) (next_fun Demo.plain_store) Demo.plain_store
  /\ secrets Demo.plain_store !! LFun 5 = Some (Secret [] (VRef (LObj 7)))
  /\ Forall (present Demo.plain_store) [VRef (LObj 7); Demo.midnite]
  /\ own_props Demo.plain_store (VRef (LFun 5)) !! KStr "defaults"
     = Some (Property (VRef (LFun 8)) false)
  /\ enumerable_own Demo.plain_store (VRef (LFun 8)) = ∅
  /\ statics_defaults Demo.depth (VRef (LFun 5)) [Demo.midnite] Demo.plain_store
     = (Ok (VRef (LFun 9)),
        store_of (statics_defaults Demo.depth (VRef (LFun 5)) [Demo.midnite] Demo.plain_store),
        [])
  /\ exists sec',
       secrets (store_of (statics_defaults Demo.depth (VRef (LFun 5)) [Demo.midnite]
                            Demo.plain_store)) !! LFun 9 = Some sec'.
Proof.
  assert (H1 : well_formed Demo.plain_store) by exact well_formed_plain_store.
  assert (H2 : closed_below (next_obj Demo.plain_store) (next_fun Demo.plain_store)
                 Demo.plain_store) by exact closed_plain_store.
  assert (H3 : secrets Demo.plain_store !! LFun 5 = Some (Secret [] (VRef (LObj 7))))
    by (vm_compute; reflexivity).
  assert (H4 : Forall (present Demo.plain_store) [VRef (LObj 7); Demo.midnite])
    by (repeat constructor; intros _; vm_compute; eexists; reflexivity).
  assert (H5 : own_props Demo.plain_store (VRef (LFun 5)) !! KStr "defaults"
               = Some (Property (VRef (LFun 8)) false)) by (vm_compute; reflexivity).
  assert (H6 : enumerable_own Demo.plain_store (VRef (LFun 8)) = ∅)
    by (vm_compute; reflexivity).
  assert (H7 : statics_defaults Demo.depth (VRef (LFun 5)) [Demo.midnite] Demo.plain_store
               = (Ok (VRef (LFun 9)),
                  store_of (statics_defaults Demo.depth (VRef (LFun 5)) [Demo.midnite]
                              Demo.plain_store),
                  [])) by (vm_compute; reflexivity).
  repeat (split; [assumption|]).
  destruct (static_defaults_builds_a_factory_with_the_merged_defaults 7 (LFun 5) _
              [Demo.midnite] Demo.plain_store _ _ _ _ _ H1 H2 H3 H4 H5 H6 H7)
    as (sec' & _ & _ & Hs & _).
  exists sec'. exact Hs.
Defined.


(** * Flattening at composition, and what an instance reads *)

(** The method table [Deco] leaves: what the builder has installed, with
    the tables [methods_at] lists assigned onto it. *)
Lemma Deco_method_table depth decorators s f s' t :
  well_formed s ->
  closed_below (next_obj s) (next_fun s) s ->
  Forall (value_below (next_obj s) (next_fun s)) decorators ->
  Deco (S depth) decorators s = (Ok f, s', t) ->
  exists tabs ts,
    methods_at (S depth) s decorators = Ok (tabs, ts)
    /\ forall k,
         own_props s' (VRef (LObj (S (next_obj s)))) !! k
         = assign_prop
             ((<[KStr "defaults" := Property (VRef (LFun (S (S (next_fun s))))) false]>
                 ({[ KStr "constructor" := Property (VRef (LFun (S (next_fun s)))) false ]}
                    : table)) !! k)
             (winner k tabs).
Proof.
  intros Hwf Hclosed Hds H.
  destruct (Deco_succeeded _ _ _ _ _ _ Hwf Hclosed Hds H)
    as (cs & ws & srcs & tabs & ts & HI & HD & HM & Hs').
  set (lF := LFun (next_fun s)) in *.
  set (lD := LObj (S (S (S (next_obj s))))) in *.
  set (lP := LObj (S (next_obj s))) in *.
  exists tabs, ts. split; [exact HM|].
  intros k.
  unfold own_props, obj_at. rewrite Hs'.
  rewrite lookup_update_eq, lookup_update_ne by (unfold lP, lF; loc_neq).
  rewrite (heap_composed_methods lF lD lP _ _ _ _ _ (primed s) _
             ltac:(unfold lP; simpl; lia) ltac:(unfold lD, lP; loc_neq)
             ltac:(unfold lP; rewrite lookup_primed, decide_False by loc_neq;
                   apply prepared_table)).
  cbn [fmap option_fmap option_map frozen with_props o_props].
  rewrite fold_assign_lookup. unfold assign_prop.
  destruct (winner k tabs); reflexivity.
Qed.

(** The [constructor] the builder has installed is still the function it
    made when [Deco] returns. *)
Lemma Deco_constructor depth decorators s f s' t :
  well_formed s ->
  Deco (S depth) decorators s = (Ok f, s', t) ->
  code_of s' (VRef (LFun (S (next_fun s))))
  = Some (CFactoryConstructor (VRef (LFun (next_fun s)))).
Proof.
  intros Hwf H.
  destruct (Deco_built _ _ _ _ _ _ Hwf H) as (_ & _ & s0 & _ & Hs0 & _ & Hu & _).
  unfold code_of, obj_at. rewrite Hs0.
  rewrite !lookup_update_ne by loc_neq.
  destruct Hu as (_ & _ & Hkept & _). rewrite Hkept.
  - rewrite lookup_primed, decide_False by discriminate.
    rewrite prepared_constructor. reflexivity.
  - repeat split; try discriminate. simpl. lia.
Qed.


Lemma well_formed_a_chain : well_formed (store_of (Demo.a_chain loaded)).
Proof. apply well_formed_decide; vm_compute; reflexivity. Qed.



(** C7 on an example: an instance of [Deco(Player)] reads [play] of the
    child and [stop] of the base through the method table, which holds both
    as own entries; setting [Player.prototype.play] afterwards changes
    neither. *)
Example the_table_is_read_not_the_chain :
  match Demo.late_change loaded with
  | (Ok o, s, _) =>
      exists ob table,
        obj_at s o = Some ob
        /\ obj_at s (o_proto ob) = Some table
        /\ o_props ob = ∅
        /\ o_props table !! KStr "play" = Some (Property (VStr "child play") true)
        /\ o_props table !! KStr "stop" = Some (Property (VStr "base stop") true)
        /\ get Demo.depth s Demo.child "play" = Ok (VStr "late play")
        /\ get Demo.depth s o "play" = Ok (VStr "child play")
        /\ get Demo.depth s o "stop" = Ok (VStr "base stop")
  | _ => False
  end.
Proof. vm_compute. do 2 eexists. repeat split. Qed.
